(** * Temporal geospatial query engine of the civilisation map

    A shallow embedding of the engine routines of the repository
    (js/utils.js, js/map.js, the data loader and the graph panel) and the
    properties stated about them.

    Modelling conventions.
    - Years and population counts are integers ([Z]).  Polity areas are
      integers as well (km²); a missing [Area] is [None].
    - Coordinates and the sampled world statistics are exact rationals
      ([Q]): the formulas are those of the source without the rounding of
      each operation, and the properties stated over them rest on
      comparisons and control flow.  The point test is given a second time
      over IEEE 754 doubles (module [Doubles]), every operation rounded, for
      the property that depends on its arithmetic.
    - A JavaScript object used as a dictionary is a [gmap]; keys are taken
      not to collide with the inherited property names of [Object.prototype].
    - A call that raises [TypeError] in JavaScript returns [Throw TypeError];
      functions that can raise live in the [result] monad. *)

From Stdlib Require Import Ascii QArith Qround Qabs Qminmax Qpower Lqa Floats.
From stdpp Require Import gmap strings list fin_maps sorting.

Local Open Scope Z_scope.

(** ** Results of calls that may raise *)

(** The exceptions the engine can raise. *)
Inductive exn := TypeError.

(** The outcome of a call: a value, or an exception. *)
Inductive result (A : Type) :=
| Ok (a : A)
| Throw (e : exn).
Arguments Ok {A} a.
Arguments Throw {A} e.

#[global] Instance result_ret : MRet result := λ A a, Ok a.
#[global] Instance result_bind : MBind result := λ A B f r,
  match r with
  | Ok a => f a
  | Throw e => Throw e
  end.

(** [for (const x of l) acc = body(acc, x)], stopping at the first raise. *)
Fixpoint for_of {A S : Type} (body : S → A → result S) (l : list A) (s : S) : result S :=
  match l with
  | [] => Ok s
  | x :: l' => s' ← body s x; for_of body l' s'
  end.

(** A possibly missing object reference. *)
Inductive jsref (A : Type) :=
| js_null
| js_undefined
| js_obj (a : A).
Arguments js_null {A}.
Arguments js_undefined {A}.
Arguments js_obj {A} a.

(** ** Strings *)

(** [s.startsWith(c)] for a one-character [c]. *)
Definition startsWith (c : ascii) (s : string) : bool :=
  match s with
  | EmptyString => false
  | String a _ => Ascii.eqb a c
  end.

(** [s.endsWith(c)] for a one-character [c]. *)
Fixpoint endsWith (c : ascii) (s : string) : bool :=
  match s with
  | EmptyString => false
  | String a EmptyString => Ascii.eqb a c
  | String _ s' => endsWith c s'
  end.

(** [name.startsWith('(') && name.endsWith(')')]: the composite wrappers. *)
Definition isParenthetical (name : string) : bool :=
  startsWith "("%char name && endsWith ")"%char name.

(** ** Numbers *)

(** [a < b] on numbers. *)
Definition Qlt_bool (a b : Q) : bool := negb (Qle_bool b a).

(** [Math.round]: the nearest integer, halves rounded up. *)
Definition Math_round (q : Q) : Z := Qfloor (q + (1 # 2))%Q.

(** [Math.max(...l)]; [None] stands for [-Infinity] (empty argument list). *)
Definition Math_max (l : list Z) : option Z :=
  match l with
  | [] => None
  | a :: l' => Some (foldl Z.max a l')
  end.

(** [l.reduce((sum, x) => sum + f(x), 0)]. *)
Definition reduce_sum {A : Type} (f : A → Z) (l : list A) : Z :=
  foldl (λ sum x, sum + f x) 0 l.

(** ** Cities and the temporal attribute resolver (js/utils.js) *)

(** A city feature of [data/cities.geojson].  [populations] maps an attested
    year to the recorded count (its keys are the decimal strings of the
    years, identified with the integers); the raw feature may lack the
    property. *)
Record city := City {
  city_name : string;
  coordinates : Q * Q;
  populations : option (gmap Z Z);
  minYear : Z;
}.

(** The [status] of a resolved population. *)
Inductive confidence := recorded | interpolated | estimated | projected | prehistoric.

(** The object returned by [getPopulationForYear]; the [recorded] case has no
    [gap] property. *)
Record popData := PopData {
  pop : Z;
  srcYear : Z;
  status : confidence;
  gap : option Z;
}.

(** [Object.keys(pops).map(Number).sort((a, b) => a - b)] *)
Definition sortedYears (pops : gmap Z Z) : list Z :=
  merge_sort Z.le (map_to_list pops).*1.

(** The loop [for (const y of years)] over [(pastYear, futureYear)]. *)
Definition scanYears (year : Z) (years : list Z) : option Z * option Z :=
  foldl (λ '(pastYear, futureYear) y,
           (if y <? year then Some y else pastYear,
            if (year <? y) && bool_decide (futureYear = None) then Some y else futureYear))
        (None, None) years.

(** [pops[k]] for a key produced by [Object.keys(pops)]. *)
Definition popAt (pops : gmap Z Z) (k : Z) : Z := default 0 (pops !! k).

(** [Math.max(1000, Math.floor(pop * Math.pow(0.999, gap - 500)))], the power
    taken exactly. *)
Definition decayed (p g : Z) : Z :=
  Z.max 1000 (Qfloor (inject_Z p * (999 # 1000) ^ (g - 500))%Q).

(** [getPopulationForYear(city, year)]: the tiered fallback policy. *)
Definition getPopulationForYear (c : city) (year : Z) : result (option popData) :=
  match populations c with
  | None => Throw TypeError                  (* Object.keys(undefined) *)
  | Some pops =>
      let years := sortedYears pops in
      if year <? minYear c then Ok None
      else match pops !! year with
      | Some exactMatch =>
          Ok (Some {| pop := exactMatch; srcYear := year; status := recorded; gap := None |})
      | None =>
          match scanYears year years with
          | (Some pastYear, _) =>
              let g := year - pastYear in
              let st := if g <=? 50 then interpolated
                        else if g <=? 200 then estimated else projected in
              let p := popAt pops pastYear in
              let p := if 500 <? g then decayed p g else p in
              Ok (Some {| pop := p; srcYear := pastYear; status := st; gap := Some g |})
          | (None, Some futureYear) =>
              let g := futureYear - year in
              let p := popAt pops futureYear / 2 in
              Ok (Some {| pop := Z.max 500 p; srcYear := futureYear;
                          status := prehistoric; gap := Some g |})
          | (None, None) => Ok None
          end
      end
  end.

(** ** World statistics (js/utils.js) *)

(** A sample of [data/world_stats.json]. *)
Record worldStat := WorldStat {
  ws_year : Z;
  population : Q;
  gdp_per_capita : Q;
}.

(** The loop of [getWorldStatsForYear] over [(before, after)]. *)
Definition bracketStats (year : Z) (worldStats : list worldStat)
  : option worldStat * option worldStat :=
  foldl (λ '(before, after) s,
           (if ws_year s <=? year then Some s else before,
            if (year <=? ws_year s) && bool_decide (after = None) then Some s else after))
        (None, None) worldStats.

(** [getWorldStatsForYear(year)]: the bracketing samples, interpolated. *)
Definition getWorldStatsForYear (worldStats : list worldStat) (year : Z) : option worldStat :=
  match bracketStats year worldStats with
  | (None, None) => None
  | (None, Some after) => Some after
  | (Some before, None) => Some before
  | (Some before, Some after) =>
      if ws_year before =? ws_year after then Some before
      else
        let t := (inject_Z (year - ws_year before) /
                  inject_Z (ws_year after - ws_year before))%Q in
        Some {| ws_year := year;
                population :=
                  inject_Z (Math_round (population before +
                                        t * (population after - population before))%Q);
                gdp_per_capita :=
                  inject_Z (Math_round (gdp_per_capita before +
                                        t * (gdp_per_capita after - gdp_per_capita before))%Q) |}
  end.

(** ** Geometry kernel (js/utils.js) *)

(** A position [[lon, lat]] and a linear ring of positions. *)
Abbreviation point := (Q * Q)%type.
Abbreviation ring := (list (Q * Q)%type).

(** A GeoJSON geometry object.  Only [Polygon] and [MultiPolygon] coordinates
    are read by the functions below; any other [type] is [OtherGeometry]. *)
Inductive Geometry :=
| Polygon (coordinates : list ring)
| MultiPolygon (coordinates : list (list ring))
| OtherGeometry (type : string).

(** The test of one edge [(polygon[j], polygon[i])] in [pointInPolygon]. *)
Definition crossing (x y : Q) (pi pj : point) : bool :=
  let '(xi, yi) := pi in
  let '(xj, yj) := pj in
  xorb (Qlt_bool y yi) (Qlt_bool y yj)
  && Qlt_bool x ((xj - xi) * (y - yi) / (yj - yi) + xi)%Q.

(** The loop [for (i = 0, j = n - 1; i < n; j = i++)]; [pj] is [polygon[j]]. *)
Fixpoint rayCast (x y : Q) (pj : point) (rest : list point) (inside : bool) : bool :=
  match rest with
  | [] => inside
  | pi :: rest' =>
      rayCast x y pi rest' (if crossing x y pi pj then negb inside else inside)
  end.

(** [polygon] is [None] when the caller passes [undefined] (a missing outer
    ring): reading [polygon.length] raises. *)
Definition pointInPolygon (pt : point) (polygon : option ring) : result bool :=
  match polygon with
  | None => Throw TypeError
  | Some [] => Ok false
  | Some ((p0 :: _) as r) => Ok (rayCast (fst pt) (snd pt) (List.last r p0) r false)
  end.

(** Squared distance from [(px, py)] to the segment [p1 p2], as in the body of
    the loop of [distanceToPolygonEdge] before [Math.sqrt] is taken. *)
Definition segmentDistSq (px py : Q) (p1 p2 : point) : Q :=
  let '(x1, y1) := p1 in
  let '(x2, y2) := p2 in
  let dx := (x2 - x1)%Q in
  let dy := (y2 - y1)%Q in
  if Qeq_bool dx 0 && Qeq_bool dy 0 then
    ((px - x1) ^ 2 + (py - y1) ^ 2)%Q
  else
    let t := Qmax 0 (Qmin 1 (((px - x1) * dx + (py - y1) * dy) / (dx * dx + dy * dy)))%Q in
    let projX := (x1 + t * dx)%Q in
    let projY := (y1 + t * dy)%Q in
    ((px - projX) ^ 2 + (py - projY) ^ 2)%Q.

(** [Math.min] on distances; [None] stands for [Infinity]. *)
Definition minDist (a : option Q) (b : Q) : option Q :=
  match a with
  | None => Some b
  | Some a' => Some (Qmin a' b)
  end.

(** [distanceToPolygonEdge], squared: the minimum over the edges
    [(polygon[i], polygon[(i + 1) % n])]. *)
Definition distanceToPolygonEdge (pt : point) (polygon : option ring) : result (option Q) :=
  match polygon with
  | None => Throw TypeError
  | Some r =>
      Ok (foldl (λ acc '(p1, p2), minDist acc (segmentDistSq (fst pt) (snd pt) p1 p2))
                None (zip r (rotate 1 r)))
  end.

(** [Math.min] of two distances, each possibly [Infinity]. *)
Definition minDistOpt (a b : option Q) : option Q :=
  match b with
  | None => a
  | Some b' => minDist a b'
  end.

(** [distanceToGeometryEdge], squared. *)
Definition distanceToGeometryEdge (lon lat : Q) (geometry : Geometry) : result (option Q) :=
  match geometry with
  | Polygon coordinates => distanceToPolygonEdge (lon, lat) (head coordinates)
  | MultiPolygon coordinates =>
      for_of (λ acc poly, d ← distanceToPolygonEdge (lon, lat) (head poly);
                           Ok (minDistOpt acc d))
             coordinates None
  | OtherGeometry _ => Ok None
  end.

(** The loop over the parts of a [MultiPolygon] in [pointInGeometry]. *)
Fixpoint anyOuterRingContains (pt : point) (polys : list (list ring)) : result bool :=
  match polys with
  | [] => Ok false
  | poly :: rest =>
      b ← pointInPolygon pt (head poly);
      if b : bool then Ok true else anyOuterRingContains pt rest
  end.

(** [pointInGeometry(lon, lat, geometry, tolerance = 0)].  The comparison
    [dist <= tolerance], reached only for [tolerance > 0], is taken on the
    squares. *)
Definition pointInGeometry (lon lat : Q) (geometry : jsref Geometry) (tolerance : Q)
  : result bool :=
  match geometry with
  | js_null | js_undefined => Throw TypeError      (* geometry.type *)
  | js_obj g =>
      inside ← match g with
               | Polygon coordinates => pointInPolygon (lon, lat) (head coordinates)
               | MultiPolygon coordinates => anyOuterRingContains (lon, lat) coordinates
               | OtherGeometry _ => Ok false
               end;
      if inside : bool then Ok true
      else if Qlt_bool 0 tolerance then
        dist ← distanceToGeometryEdge lon lat g;
        match dist with
        | Some d => Ok (Qle_bool d (tolerance * tolerance))
        | None => Ok false
        end
      else Ok false
  end.

(** The shoelace loop of [polygonArea]; [pj] is [coords[j]]. *)
Fixpoint shoelace (pj : point) (rest : list point) (area : Q) : Q :=
  match rest with
  | [] => area
  | pi :: rest' => shoelace pi rest' (area + (fst pj + fst pi) * (snd pj - snd pi))%Q
  end.

(** [polygonArea(coords)]: the signed shoelace area. *)
Definition polygonArea (coords : option ring) : result Q :=
  match coords with
  | None => Throw TypeError
  | Some [] => Ok (0 / 2)%Q
  | Some ((p0 :: _) as r) => Ok (shoelace (List.last r p0) r 0 / 2)%Q
  end.

(** The object [{ lat, lng }] returned by the centre functions. *)
Record latlng := LatLng { lat : Q; lng : Q }.

(** One iteration of [for (const poly of geometry.coordinates)] in
    [getCentroid], over [(maxArea, coords)]. *)
Definition largerPart (acc : Q * option ring) (poly : list ring) : result (Q * option ring) :=
  let '(maxArea, coords) := acc in
  a ← polygonArea (head poly);
  let area := Qabs a in
  if Qlt_bool maxArea area then Ok (area, head poly) else Ok (maxArea, coords).

(** The ring selected by [getCentroid] and [getVisualCenter]: the outer ring
    of a polygon, or of the part of largest area; [None] is [undefined]. *)
Definition largestOuterRing (g : Geometry) : result (option ring) :=
  match g with
  | Polygon coordinates => Ok (head coordinates)
  | MultiPolygon coordinates =>
      r ← for_of largerPart coordinates (0%Q, None);
      Ok (snd r)
  | OtherGeometry _ => Ok None
  end.

(** [getCentroid(geometry)]: the mean of the positions of the selected ring. *)
Definition getCentroid (geometry : jsref Geometry) : result (option latlng) :=
  match geometry with
  | js_null | js_undefined => Throw TypeError
  | js_obj g =>
      coords ← largestOuterRing g;
      match coords with
      | None | Some [] => Ok None
      | Some r =>
          let '(sumLat, sumLng) :=
            foldl (λ '(sumLat, sumLng) '(lng, lat), (sumLat + lat, sumLng + lng)%Q)
                  (0%Q, 0%Q) r in
          let n := inject_Z (Z.of_nat (length r)) in
          Ok (Some {| lat := (sumLat / n)%Q; lng := (sumLng / n)%Q |})
      end
  end.

(** ** Polities and the engine state (js/state.js) *)

(** A polity feature: [properties.Name], [FromYear], [ToYear], [Area],
    [MemberOf] and the feature's [geometry] (which GeoJSON allows to be
    [null]). *)
Record polity := Polity {
  Name : string;
  FromYear : Z;
  ToYear : Z;
  Area : option Z;
  MemberOf : string;
  geometry : jsref Geometry;
}.

(** One entry of [civData] in [calculateMetricsFast]. *)
Record civ := Civ {
  area : Z;
  fromYear : Z;
  color : string;
}.

(** The [totals] of a snapshot. *)
Record totals_t := Totals {
  tot_population : Q;
  civilizations : nat;
  landArea : Z;
  cities : Z;
  urbanPop : Z;
  gdpPerCapita : Q;
  largestEmpire : Z;
  avgAge : Q;
}.

(** The snapshot returned by [calculateMetricsFast]. *)
Record metrics := Metrics {
  totals : totals_t;
  civs : gmap string civ;
}.

(** The data part of [state].  [getColor] is the colour assignment under the
    palette currently selected ([Colors.getColor] below, at the key in
    force); the routines of this part use it as a function of the name only,
    so it is carried as a component. *)
Record state := State {
  allPolities : list polity;
  allCities : list city;
  worldStats : list worldStat;
  polityFoundingYears : gmap string Z;
  graphData : gmap Z metrics;
  graphDataLoaded : bool;
  getColor : string → string;
}.

(** ** Entity visibility filter *)

(** [year >= from && year <= to] *)
Definition inRange (year : Z) (f : polity) : bool :=
  (FromYear f <=? year) && (year <=? ToYear f).

(** The filter of [updateMap] (js/map.js), also used by [resetCitySelection]. *)
Definition visiblePolities (all : list polity) (year : Z) : list polity :=
  List.filter (λ f, if isParenthetical (Name f) then false else inRange year f) all.

(** The filter inside [processChunk] of [preloadGraphData] (graph panel). *)
Definition preloadVisiblePolities (all : list polity) (year : Z) : list polity :=
  List.filter (inRange year) all.

(** ** Aggregate metrics (graph panel) *)

(** One iteration of [for (const p of visiblePolities)]. *)
Definition addPolity (colorOf : string → string) (civData : gmap string civ) (p : polity)
  : gmap string civ :=
  let name := Name p in
  let civData :=
    match civData !! name with
    | Some _ => civData
    | None => <[name := {| area := 0; fromYear := FromYear p; color := colorOf name |}]> civData
    end in
  alter (λ c, {| area := area c + default 0 (Area p);
                 fromYear := Z.min (fromYear c) (FromYear p);
                 color := color c |}) name civData.

(** [civData] after the loop over the visible fragments. *)
Definition buildCivData (colorOf : string → string) (visible : list polity) : gmap string civ :=
  foldl (addPolity colorOf) ∅ visible.

(** One iteration of [for (const city of state.allCities)] over
    [(totalCities, totalUrbanPop)]. *)
Definition countStep (year : Z) (acc : Z * Z) (city : city) : result (Z * Z) :=
  let '(totalCities, totalUrbanPop) := acc in
  popData ← getPopulationForYear city year;
  match popData with
  | Some d => Ok (totalCities + 1, totalUrbanPop + pop d)
  | None => Ok (totalCities, totalUrbanPop)
  end.

(** The city loop of [calculateMetricsFast]. *)
Definition countCities (allCities : list city) (year : Z) : result (Z * Z) :=
  for_of (countStep year) allCities (0, 0).

(** [CITY_TERRITORY_TOLERANCE = 0.15] (js/utils.js) *)
Definition CITY_TERRITORY_TOLERANCE : Q := 15 # 100.

(** One iteration of the loop of [countCitiesInPolity] over [count]. *)
Definition cityInPolityStep (p : polity) (year : Z) (count : Z) (c : city) : result Z :=
  popData ← getPopulationForYear c year;
  match popData with
  | None => Ok count
  | Some _ =>
      let '(lon, lat) := coordinates c in
      b ← pointInGeometry lon lat (geometry p) CITY_TERRITORY_TOLERANCE;
      Ok (if b : bool then count + 1 else count)
  end.

(** [countCitiesInPolity(polity, cities, year)] (js/utils.js); the
    leaderboard calls it with [state.allCities]. *)
Definition countCitiesInPolity (p : polity) (cities : list city) (year : Z) : result Z :=
  for_of (cityInPolityStep p year) cities 0.

(** [calculateMetricsFast(year, visiblePolities)] *)
Definition calculateMetricsFast (st : state) (year : Z) (visible : list polity)
  : result metrics :=
  let stats := getWorldStatsForYear (worldStats st) year in
  let civData := buildCivData (getColor st) visible in
  let civList : list (string * civ) := map_to_list civData in
  let totalArea := reduce_sum (λ e, area e.2) civList in
  let largestArea := default 0 (Math_max (map (λ e, area e.2) civList)) in
  let ageSum := reduce_sum (λ e, year - fromYear e.2) civList in
  let avgAge :=
    if bool_decide (civList = []) then 0%Q
    else (inject_Z ageSum / inject_Z (Z.of_nat (length civList)))%Q in
  '(totalCities, totalUrbanPop) ← countCities (allCities st) year;
  Ok {| totals := {| tot_population := from_option population 0%Q stats;
                     civilizations := length civList;
                     landArea := totalArea;
                     cities := totalCities;
                     urbanPop := totalUrbanPop;
                     gdpPerCapita := from_option gdp_per_capita 0%Q stats;
                     largestEmpire := largestArea;
                     avgAge := avgAge |};
        civs := civData |}.

(** [state.graphData[year] = data] *)
Definition storeGraphData (st : state) (year : Z) (data : metrics) : state :=
  {| allPolities := allPolities st; allCities := allCities st; worldStats := worldStats st;
     polityFoundingYears := polityFoundingYears st;
     graphData := <[year := data]> (graphData st);
     graphDataLoaded := graphDataLoaded st; getColor := getColor st |}.

(** The engine part of [updateGraph]: compute and cache the snapshot. *)
Definition updateGraph (st : state) (year : Z) (visible : list polity) : result state :=
  data ← calculateMetricsFast st year visible;
  Ok (storeGraphData st year data).

(** The years [-3700, -3650, ..., 2000] of the precompute pass. *)
Definition preloadYears : list Z := (λ k, -3700 + 50 * k) <$> seqZ 0 115.

(** One iteration of the loop of [processChunk]. *)
Definition preloadStep (s : state) (year : Z) : result state :=
  data ← calculateMetricsFast s year (preloadVisiblePolities (allPolities s) year);
  Ok (storeGraphData s year data).

(** [preloadGraphData]: the chunks run one after the other, so the pass is a
    single loop over [preloadYears]. *)
Definition preloadGraphData (st : state) : result state :=
  if graphDataLoaded st then Ok st
  else
    st' ← for_of preloadStep preloadYears st;
    Ok {| allPolities := allPolities st'; allCities := allCities st';
          worldStats := worldStats st'; polityFoundingYears := polityFoundingYears st';
          graphData := graphData st'; graphDataLoaded := true; getColor := getColor st' |}.

(** ** Data loader *)

(** One iteration of the loop building [state.polityFoundingYears]. *)
Definition addFoundingYear (years : gmap string Z) (p : polity) : gmap string Z :=
  let name := Name p in
  if isParenthetical name then years
  else match years !! name with
       | None => <[name := FromYear p]> years
       | Some y => if FromYear p <? y then <[name := FromYear p]> years else years
       end.

(** [state.polityFoundingYears] after the loop over all polities. *)
Definition buildFoundingYears (all : list polity) : gmap string Z :=
  foldl addFoundingYear ∅ all.

(** [Math.max(...Object.values(pops)) >= 100000], false when [pops] is
    missing. *)
Definition reaches100k (c : city) : bool :=
  match populations c with
  | None => false
  | Some pops =>
      match Math_max (map_to_list pops).*2 with
      | Some maxPop => 100000 <=? maxPop
      | None => false
      end
  end.

(** [loadAllData] once its three fetches have completed. *)
Definition loadAllData (colorOf : string → string) (polityFeatures : list polity)
    (cityFeatures : list city) (stats : list worldStat) : state :=
  {| allPolities := polityFeatures;
     allCities := List.filter reaches100k cityFeatures;
     worldStats := stats;
     polityFoundingYears := buildFoundingYears polityFeatures;
     graphData := ∅;
     graphDataLoaded := false;
     getColor := colorOf |}.

(** ** Identity and continuity tracker (js/utils.js) *)

(** [s.split(c)] for a one-character separator. *)
Fixpoint split (c : ascii) (s : string) : list string :=
  match s with
  | EmptyString => [EmptyString]
  | String a s' =>
      if Ascii.eqb a c then EmptyString :: split c s'
      else match split c s' with
           | [] => [String a EmptyString]
           | w :: ws => String a w :: ws
           end
  end.

(** White space removed by [trim] (the ASCII part of it). *)
Definition isSpace (a : ascii) : bool :=
  let n := nat_of_ascii a in
  (n =? 32)%nat || ((9 <=? n)%nat && (n <=? 13)%nat).

(** [s.trimStart()] *)
Fixpoint trimStart (s : string) : string :=
  match s with
  | EmptyString => EmptyString
  | String a s' => if isSpace a then trimStart s' else s
  end.

(** [s.trimEnd()] *)
Fixpoint trimEnd (s : string) : string :=
  match s with
  | EmptyString => EmptyString
  | String a s' =>
      let r := trimEnd s' in
      if isSpace a && String.eqb r EmptyString then EmptyString else String a r
  end.

(** [s.trim()] *)
Definition trim (s : string) : string := trimEnd (trimStart s).

(** [s] without a final [c], if it ends with one. *)
Fixpoint dropTrailing (c : ascii) (s : string) : string :=
  match s with
  | EmptyString => EmptyString
  | String a EmptyString => if Ascii.eqb a c then EmptyString else s
  | String a s' => String a (dropTrailing c s')
  end.

(** [s.replace(/^\(|\)$/g, '')] *)
Definition stripParens (s : string) : string :=
  let s1 := match s with
            | String a s' => if Ascii.eqb a "("%char then s' else s
            | EmptyString => s
            end in
  dropTrailing ")"%char s1.

(** The loop [for (const parent of parents)] of [getPolityDisplayName]. *)
Fixpoint firstForeignParent (name : string) (parents : list string) : option string :=
  match parents with
  | [] => None
  | parent :: rest =>
      let cleanParent := stripParens (trim parent) in
      if String.eqb cleanParent name then firstForeignParent name rest
      else Some cleanParent
  end.

(** [getPolityDisplayName(props)]: the name, with the first parent that is
    not the polity itself. *)
Definition getPolityDisplayName (props : polity) : string :=
  let name := Name props in
  let parents :=
    List.filter (λ p, negb (String.eqb (trim p) EmptyString)) (split ";"%char (MemberOf props)) in
  match firstForeignParent name parents with
  | Some cleanParent => name +:+ " (" +:+ cleanParent +:+ ")"
  | None => name
  end.

(** An entry of the location history. *)
Record historyEntry := HistoryEntry {
  h_name : string;
  h_displayName : string;
  h_fromYear : Z;
  h_toYear : Z;
  h_area : option Z;
  h_color : string;
  h_polity : polity;
}.

(** The object pushed on [history] for a fragment. *)
Definition entryOf (colorOf : string → string) (p : polity) : historyEntry :=
  {| h_name := Name p; h_displayName := getPolityDisplayName p;
     h_fromYear := FromYear p; h_toYear := ToYear p; h_area := Area p;
     h_color := colorOf (Name p); h_polity := p |}.

(** [Array.prototype.sort] with the comparator [(a, b) => key(a) - key(b)]:
    ascending by key, entries of equal key in their original order. *)
Fixpoint insertBy {A : Type} (key : A → Z) (x : A) (l : list A) : list A :=
  match l with
  | [] => [x]
  | y :: l' => if key y <? key x then y :: insertBy key x l' else x :: l
  end.

(** The sort as repeated insertion from the right. *)
Definition sortBy {A : Type} (key : A → Z) (l : list A) : list A :=
  foldr (insertBy key) [] l.

(** The key [`${Name}_${FromYear}_${ToYear}`] of the [seen] set.  A decimal
    year contains no underscore, so the string determines the triple. *)
Definition historyKey (p : polity) : string * Z * Z := (Name p, FromYear p, ToYear p).

(** One iteration of [for (const polity of sortedPolities)] over
    [(history, seen)]. *)
Definition collectStep (colorOf : string → string) (lon lat : Q)
    (acc : list historyEntry * gset (string * Z * Z)) (p : polity)
  : result (list historyEntry * gset (string * Z * Z)) :=
  let '(history, seen) := acc in
  if startsWith "("%char (Name p) then Ok acc
  else
    b ← pointInGeometry lon lat (geometry p) 0;
    if b : bool then
      if bool_decide (historyKey p ∈ seen) then Ok acc
      else Ok (history ++ [entryOf colorOf p], {[historyKey p]} ∪ seen)
    else Ok acc.

(** [last.toYear = Math.max(last.toYear, entry.toYear)] *)
Definition widen (l entry : historyEntry) : historyEntry :=
  {| h_name := h_name l; h_displayName := h_displayName l;
     h_fromYear := h_fromYear l;
     h_toYear := Z.max (h_toYear l) (h_toYear entry);
     h_area := h_area l; h_color := h_color l; h_polity := h_polity l |}.

(** One iteration of [for (const entry of history)] over [merged]. *)
Definition mergeStep (merged : list historyEntry) (entry : historyEntry) : list historyEntry :=
  match last merged with
  | Some l =>
      if String.eqb (h_name l) (h_name entry) && (h_fromYear entry <=? h_toYear l + 5)
      then removelast merged ++ [widen l entry]
      else merged ++ [entry]
  | None => merged ++ [entry]
  end.

(** [getLocationHistory(lon, lat)] *)
Definition getLocationHistory (st : state) (lon lat : Q) : result (list historyEntry) :=
  let sortedPolities := sortBy FromYear (allPolities st) in
  '(history, _) ← for_of (collectStep (getColor st) lon lat) sortedPolities ([], ∅);
  let history := sortBy h_fromYear history in
  Ok (foldl mergeStep [] history).

(** The interval shown for an entry. *)
Definition interval (e : historyEntry) : string * Z * Z :=
  (h_name e, h_fromYear e, h_toYear e).

(** ** The polity at a point (js/utils.js) *)

(** The loop of [getPolityAtPoint] over the polities still to be examined. *)
Fixpoint firstPolityAt (lon lat : Q) (year : Z) (l : list polity) : result (option polity) :=
  match l with
  | [] => Ok None
  | p :: rest =>
      if isParenthetical (Name p) then firstPolityAt lon lat year rest
      else if inRange year p then
        b ← pointInGeometry lon lat (geometry p) 0;
        if b : bool then Ok (Some p) else firstPolityAt lon lat year rest
      else firstPolityAt lon lat year rest
  end.

(** [getPolityAtPoint(lon, lat, year)]: the polity that controls the point. *)
Definition getPolityAtPoint (st : state) (lon lat : Q) (year : Z) : result (option polity) :=
  firstPolityAt lon lat year (allPolities st).

(** ** Leaderboard and stats panel (js/leaderboard.js) *)

(** [new Set(visiblePolities.map(p => p.properties.Name)).size] in
    [updateStatsPanel] (js/leaderboard.js). *)
Definition civCount (visible : list polity) : nat :=
  size (list_to_set (Name <$> visible) : gset string).

(** [state.polityFoundingYears[p.properties.Name] ?? p.properties.FromYear]
    (leaderboard and territory panel). *)
Definition foundingYearOf (st : state) (p : polity) : Z :=
  default (FromYear p) (polityFoundingYears st !! Name p).

(** [const age = year - foundingYear] *)
Definition polityAge (st : state) (p : polity) (year : Z) : Z :=
  year - foundingYearOf st p.

(** ** The cities of a territory (js/utils.js) *)

(** The object pushed on [cities] by [getCitiesInPolity]. *)
Record cityInfo := CityInfo {
  ci_name : string;
  ci_pop : Z;
  ci_founded : Z;
  ci_coords : Q * Q;
}.

(** One iteration of the loop of [getCitiesInPolity] over [cities]. *)
Definition citiesInPolityStep (p : polity) (year : Z) (cities : list cityInfo) (c : city)
  : result (list cityInfo) :=
  popData ← getPopulationForYear c year;
  match popData with
  | None => Ok cities
  | Some d =>
      let '(lon, lat) := coordinates c in
      b ← pointInGeometry lon lat (geometry p) CITY_TERRITORY_TOLERANCE;
      Ok (if b : bool
          then cities ++ [{| ci_name := city_name c; ci_pop := pop d;
                             ci_founded := minYear c; ci_coords := (lon, lat) |}]
          else cities)
  end.

(** [getCitiesInPolity(polity, year)]: the cities of the territory, the most
    populous first ([cities.sort((a, b) => b.pop - a.pop)]). *)
Definition getCitiesInPolity (st : state) (p : polity) (year : Z) : result (list cityInfo) :=
  cities ← for_of (citiesInPolityStep p year) (allCities st) [];
  Ok (sortBy (λ c, - ci_pop c) cities).

(** ** Bounding boxes (js/utils.js) *)

(** A JavaScript number as the bounding boxes hold it: a rational, an
    infinity, or [NaN]. *)
Inductive jsnum := NaN | NegInfinity | Finite (q : Q) | Infinity.

(** [Math.min(a, b)] *)
Definition num_min (a b : jsnum) : jsnum :=
  match a, b with
  | NaN, _ | _, NaN => NaN
  | NegInfinity, _ | _, NegInfinity => NegInfinity
  | Infinity, x | x, Infinity => x
  | Finite x, Finite y => Finite (Qmin x y)
  end.

(** [Math.max(a, b)] *)
Definition num_max (a b : jsnum) : jsnum :=
  match a, b with
  | NaN, _ | _, NaN => NaN
  | Infinity, _ | _, Infinity => Infinity
  | NegInfinity, x | x, NegInfinity => x
  | Finite x, Finite y => Finite (Qmax x y)
  end.

(** [a < b]; false as soon as an operand is [NaN]. *)
Definition num_lt (a b : jsnum) : bool :=
  match a, b with
  | NaN, _ | _, NaN => false
  | _, NegInfinity => false
  | NegInfinity, _ => true
  | Infinity, _ => false
  | Finite _, Infinity => true
  | Finite x, Finite y => Qlt_bool x y
  end.

(** The value of [geometry.coordinates]: a position [[lon, lat]] or an array
    of such values, to any depth. *)
#[warnings="-register-all"] Inductive coordArray :=
| Position (lon lat : Q)
| Nested (items : list coordArray).

(** The object [{ minLon, maxLon, minLat, maxLat }]. *)
Record box := Box { b_minLon : jsnum; b_maxLon : jsnum; b_minLat : jsnum; b_maxLat : jsnum }.

(** The four assignments of the [else] branch of [processCoords]. *)
Definition growBox (b : box) (c0 c1 : jsnum) : box :=
  {| b_minLon := num_min (b_minLon b) c0; b_maxLon := num_max (b_maxLon b) c0;
     b_minLat := num_min (b_minLat b) c1; b_maxLat := num_max (b_maxLat b) c1 |}.

(** The body of the loop of [processCoords] for one [coord] that is an array:
    [coord[0]] is an array exactly when [coord] is a non-empty array of
    arrays; in an empty array [coord[0]] and [coord[1]] are [undefined],
    which [Math.min] and [Math.max] turn into [NaN]. *)
Fixpoint processCoord (coord : coordArray) (b : box) : box :=
  match coord with
  | Position lon lat => growBox b (Finite lon) (Finite lat)
  | Nested [] => growBox b NaN NaN
  | Nested items => foldl (λ b c, processCoord c b) b items
  end.

(** [getBoundingBox(geometry)], on the value of [geometry.coordinates].  The
    elements of a bare position are numbers, whose [coord[0]] is
    [undefined]. *)
Definition getBoundingBox (coordinates : coordArray) : box :=
  let start := {| b_minLon := Infinity; b_maxLon := NegInfinity;
                  b_minLat := Infinity; b_maxLat := NegInfinity |} in
  match coordinates with
  | Position _ _ => growBox (growBox start NaN NaN) NaN NaN
  | Nested items => foldl (λ b c, processCoord c b) start items
  end.

(** [bboxOverlap(box1, box2)] *)
Definition bboxOverlap (box1 box2 : box) : bool :=
  negb (num_lt (b_maxLon box1) (b_minLon box2) || num_lt (b_maxLon box2) (b_minLon box1)
        || num_lt (b_maxLat box1) (b_minLat box2) || num_lt (b_maxLat box2) (b_minLat box1)).

(** ** Colour assignment (js/utils.js, js/state.js) *)

Module Colors.

(** [ToInt32]: the integer modulo 2^32, read as a signed 32-bit value. *)
Definition toInt32 (z : Z) : Z := (z + 2 ^ 31) mod 2 ^ 32 - 2 ^ 31.

(** [a << 5] *)
Definition shl5 (a : Z) : Z := toInt32 (toInt32 a * 32).

(** [a ^ b] *)
Definition xor32 (a b : Z) : Z := Z.lxor (toInt32 a) (toInt32 b).

(** The double nearest to an integer (ties to even); integers up to 2^53 in
    absolute value are doubles. *)
Definition roundDouble (z : Z) : Z :=
  let m := Z.abs z in
  let e := Z.log2 m - 52 in
  if e <=? 0 then z
  else
    let q := m / 2 ^ e in
    let r := m mod 2 ^ e in
    let half := 2 ^ (e - 1) in
    let q' := if r <? half then q
              else if half <? r then q + 1
              else if Z.even q then q else q + 1 in
    Z.sgn z * (q' * 2 ^ e).

(** [name.charCodeAt(i)] for [i] from 0: the code units of the name (names
    are strings of code units below 256). *)
Definition charCodes (name : string) : list Z :=
  (λ a, Z.of_nat (nat_of_ascii a)) <$> String.list_ascii_of_string name.

(** [defaultHash(name)]; the running value stays an exact double for names
    of less than 2^21 code units. *)
Definition defaultHash (name : string) : Z :=
  Z.abs (foldl (λ hash c, c + (shl5 hash - hash)) 0 (charCodes name)).

(** [djb2Hash(name)] *)
Definition djb2Hash (name : string) : Z :=
  Z.abs (foldl (λ hash c, xor32 (shl5 hash + hash) c) 5381 (charCodes name)).

(** [fnv1aHash(name)] *)
Definition fnv1aHash (name : string) : Z :=
  foldl (λ hash c, roundDouble (xor32 hash c * 16777619) mod 2 ^ 32)
        2166136261 (charCodes name).

(** [colorPalettes.default], which is also [colors]. *)
Definition colors : list string :=
  ["#e94560"; "#4da6ff"; "#50c878"; "#ffd700"; "#ff6b35";
   "#9b59b6"; "#1abc9c"; "#e74c3c"; "#3498db"; "#2ecc71";
   "#f39c12"; "#9b59b6"; "#1abc9c"; "#d35400"; "#c0392b"].

(** [colorPalettes[key]] *)
Definition colorPalettes (key : string) : option (list string) :=
  if String.eqb key "default" then Some colors
  else if String.eqb key "warm" then
    Some ["#e94560"; "#ff6b35"; "#ffd700"; "#ff8c42"; "#d35400";
          "#c0392b"; "#e74c3c"; "#f39c12"; "#ff5722"; "#ff7043";
          "#ffab40"; "#ff6e40"; "#ff8a65"; "#ffccbc"; "#d84315"]
  else if String.eqb key "cool" then
    Some ["#4da6ff"; "#3498db"; "#1abc9c"; "#00bcd4"; "#0097a7";
          "#00acc1"; "#26c6da"; "#4dd0e1"; "#80deea"; "#006064";
          "#0288d1"; "#039be5"; "#03a9f4"; "#29b6f6"; "#4fc3f7"]
  else if String.eqb key "vivid" then
    Some ["#ff0055"; "#00aaff"; "#00ff88"; "#ffdd00"; "#ff6600";
          "#aa00ff"; "#00ffdd"; "#ff0000"; "#0066ff"; "#00ff00";
          "#ffaa00"; "#ff00aa"; "#00ffaa"; "#ff3300"; "#cc0000"]
  else if String.eqb key "earth" then
    Some ["#8b7355"; "#6b8e23"; "#cd853f"; "#daa520"; "#a0522d";
          "#556b2f"; "#8fbc8f"; "#d2691e"; "#bc8f8f"; "#9acd32";
          "#b8860b"; "#228b22"; "#808000"; "#bdb76b"; "#696969"]
  else None.

(** The [hashMethod] of a mixed palette. *)
Inductive hashMethod := djb2 | fnv1a.

(** [mixedPalettes[key]] *)
Definition mixedPalettes (key : string) : option (list string * hashMethod) :=
  if String.eqb key "mixed1" then Some (colors, djb2)
  else if String.eqb key "mixed2" then Some (colors, fnv1a)
  else None.

(** [colorOverrides[name]] *)
Definition colorOverrides (name : string) : option string :=
  if String.eqb name "Parthian Empire" then Some "#228B22" else None.

(** [palette[hash % palette.length]]; [None] is [undefined]. *)
Definition pick (palette : list string) (hash : Z) : option string :=
  match palette with
  | [] => None       (* [hash % 0] is [NaN] *)
  | _ => palette !! Z.to_nat (Z.rem hash (Z.of_nat (length palette)))
  end.

(** [getColor(name)] under [state.territoryPalette = key]. *)
Definition getColor (key : string) (name : string) : option string :=
  match colorOverrides name with
  | Some c => Some c
  | None =>
      match mixedPalettes key with
      | Some (palette, method) =>
          let hash := match method with
                      | djb2 => djb2Hash name
                      | fnv1a => fnv1aHash name
                      end in
          pick palette hash
      | None =>
          let palette := default colors (colorPalettes key) in
          pick palette (defaultHash name)
      end
  end.

(** The palette in force under a key. *)
Definition paletteOf (key : string) : list string :=
  match mixedPalettes key with
  | Some (palette, _) => palette
  | None => default colors (colorPalettes key)
  end.

End Colors.

(** ** The window of the graph panel *)



(** ** Notions used in the statements *)

(** The [pastYear] component of the scan, on its own. *)
Definition pastOf (year : Z) (years : list Z) (p : option Z) : option Z :=
  foldl (λ p y, if y <? year then Some y else p) p years.

(** What an entry of the index, or its absence, says about the fragments
    processed so far. *)
Definition foundingInv (l : list polity) (name : string) (entry : option Z) : Prop :=
  match entry with
  | Some y =>
      isParenthetical name = false
      ∧ (∃ p, p ∈ l ∧ Name p = name ∧ FromYear p = y)
      ∧ (∀ p, p ∈ l → Name p = name → y ≤ FromYear p)
  | None => ∀ p, p ∈ l → Name p = name → isParenthetical name = true
  end.

(** The entry written by one iteration of the aggregation loop. *)
Definition entryAfter (colorOf : string → string) (m : gmap string civ) (p : polity) : civ :=
  match m !! Name p with
  | Some c => {| area := area c + default 0 (Area p);
                 fromYear := Z.min (fromYear c) (FromYear p); color := color c |}
  | None => {| area := 0 + default 0 (Area p);
               fromYear := Z.min (FromYear p) (FromYear p); color := colorOf (Name p) |}
  end.

(** [m] is the largest recorded population of the series. *)
Definition isMaxOf (pops : gmap Z Z) (m : Z) : Prop :=
  (∃ y, pops !! y = Some m) ∧ ∀ y v, pops !! y = Some v → v ≤ m.

(** The population records found at [year] among [cs], in order. *)
Definition resolvedPops (cs : list city) (year : Z) : list popData :=
  omap (λ c, match getPopulationForYear c year with
             | Ok (Some d) => Some d
             | _ => None
             end) cs.

(** The city has a population at [year] and lies in the territory of [p],
    within the tolerance. *)
Definition cityInPolity (p : polity) (year : Z) (c : city) : bool :=
  match getPopulationForYear c year with
  | Ok (Some _) =>
      match pointInGeometry (fst (coordinates c)) (snd (coordinates c)) (geometry p)
                            CITY_TERRITORY_TOLERANCE with
      | Ok true => true
      | _ => false
      end
  | _ => false
  end.

(** All cities of the state carry a population series. *)
Definition citiesReady (st : state) : Prop :=
  Forall (λ c, is_Some (populations c)) (allCities st).

(** What an entry of [civData], or its absence, says about the fragments
    aggregated so far: [fromYear] is the least [FromYear] among the
    fragments of that name that were handed to the computation. *)
Definition civInv (l : list polity) (name : string) (entry : option civ) : Prop :=
  match entry with
  | Some c =>
      (∃ p, p ∈ l ∧ Name p = name ∧ FromYear p = fromYear c)
      ∧ (∀ p, p ∈ l → Name p = name → fromYear c ≤ FromYear p)
  | None => ∀ p, p ∈ l → Name p ≠ name
  end.

(** The mean age the founding-year index would give: over the distinct
    visible names, [year - polityFoundingYears[name]]. *)
Definition avgAgeByFoundingYear (st : state) (year : Z) (visible : list polity) : Q :=
  let names := remove_dups (map Name visible) in
  let ageSum := reduce_sum (λ n, year - default 0 (polityFoundingYears st !! n)) names in
  if bool_decide (names = []) then 0%Q
  else (inject_Z ageSum / inject_Z (Z.of_nat (length names)))%Q.

(** All positions of a polygon or multipolygon, holes included. *)
Definition vertices (g : Geometry) : list point :=
  match g with
  | Polygon coordinates => concat coordinates
  | MultiPolygon coordinates => concat (concat coordinates)
  | OtherGeometry _ => []
  end.

(** A bounding box in degrees. *)
Record bbox := BBox { minLon : Q; maxLon : Q; minLat : Q; maxLat : Q }.

(** The box grown to include one more position. *)
Definition extendBox (b : bbox) (p : point) : bbox :=
  {| minLon := Qmin (minLon b) (fst p); maxLon := Qmax (maxLon b) (fst p);
     minLat := Qmin (minLat b) (snd p); maxLat := Qmax (maxLat b) (snd p) |}.

(** The bounding box of a geometry: minimum and maximum of the longitudes and
    of the latitudes of its vertices; none without vertices. *)
Definition boundingBox (g : Geometry) : option bbox :=
  match vertices g with
  | [] => None
  | p :: vs =>
      Some (foldl extendBox
                  {| minLon := fst p; maxLon := fst p; minLat := snd p; maxLat := snd p |} vs)
  end.

(** The point lies strictly beyond one of the four sides of the box. *)
Definition strictlyOutside (lon lat : Q) (b : bbox) : Prop :=
  (lon < minLon b ∨ maxLon b < lon ∨ lat < minLat b ∨ maxLat b < lat)%Q.

(** Every polygon part has an outer ring ([coordinates[0]] is defined). *)
Definition hasOuterRings (g : Geometry) : bool :=
  match g with
  | Polygon coordinates => bool_decide (coordinates ≠ [])
  | MultiPolygon coordinates => forallb (λ poly, bool_decide (poly ≠ [])) coordinates
  | OtherGeometry _ => true
  end.

(** The point is on one side of all the positions [vs]. *)
Definition onOneSide (lon lat : Q) (vs : list point) : Prop :=
  (∀ v, v ∈ vs → (lon < fst v)%Q) ∨ (∀ v, v ∈ vs → (fst v < lon)%Q)
  ∨ (∀ v, v ∈ vs → (lat < snd v)%Q) ∨ (∀ v, v ∈ vs → (snd v < lat)%Q).

(** [yi > y] for a vertex. *)
Definition above (y : Q) (p : point) : bool := Qlt_bool y (snd p).

(** The order of a sort by [key]. *)
Definition keyLe {A : Type} (key : A → Z) (a b : A) : Prop := key a ≤ key b.

(** The fragment is not skipped and its geometry contains the point. *)
Definition containsPoint (lon lat : Q) (p : polity) : bool :=
  negb (startsWith "("%char (Name p))
  && match pointInGeometry lon lat (geometry p) 0 with
     | Ok true => true
     | _ => false
     end.

(** The fragments kept by the [seen] set: the first of each key. *)
Fixpoint dedupe (l : list polity) (seen : gset (string * Z * Z)) : list polity :=
  match l with
  | [] => []
  | p :: l' =>
      if bool_decide (historyKey p ∈ seen) then dedupe l' seen
      else p :: dedupe l' ({[historyKey p]} ∪ seen)
  end.

(** The test of the point never raises on the fragments that are examined. *)
Definition testable (lon lat : Q) (l : list polity) : Prop :=
  ∀ p, p ∈ l → startsWith "("%char (Name p) = false →
       ∃ b, pointInGeometry lon lat (geometry p) 0 = Ok b.


(** The outer ring of the part is present and has no position. *)
Definition emptyOuterRing (poly : list ring) : bool :=
  match poly with
  | [] :: _ => true
  | _ => false
  end.

(** A geometry object without any position to test: a type other than
    [Polygon] and [MultiPolygon], or outer rings that are all empty (a
    multipolygon without parts included). *)
Definition noPositions (g : Geometry) : bool :=
  match g with
  | Polygon coordinates => emptyOuterRing coordinates
  | MultiPolygon coordinates => forallb emptyOuterRing coordinates
  | OtherGeometry _ => true
  end.

(** ** Further notions used in the statements *)

(** The [futureYear] component of the scan, on its own. *)
Definition futureOf (year : Z) (years : list Z) (f : option Z) : option Z :=
  foldl (λ f y, if (year <? y) && bool_decide (f = None) then Some y else f) f years.

(** The geometry of the fragment contains the point (no tolerance). *)
Definition holdsPoint (lon lat : Q) (p : polity) : bool :=
  match pointInGeometry lon lat (geometry p) 0 with
  | Ok true => true
  | _ => false
  end.

(** The merged entry [m] stands for the entry [e]: same name, and an
    interval that includes the one of [e]. *)
Definition covers (m e : historyEntry) : Prop :=
  h_name m = h_name e ∧ h_fromYear m ≤ h_fromYear e ∧ h_toYear e ≤ h_toYear m.

(** Two consecutive entries that the merge loop keeps apart. *)
Definition apart (a b : historyEntry) : Prop :=
  h_name a ≠ h_name b ∨ h_toYear a + 5 < h_fromYear b.

(** A merged entry is its first entry, widened to the end of one of the
    entries of the same name. *)
Definition mergedFrom (l : list historyEntry) (m : historyEntry) : Prop :=
  ∃ e1 e2, e1 ∈ l ∧ e2 ∈ l ∧ h_name e2 = h_name e1 ∧ m = widen e1 e2.

(** The entry of the territory's city list that stands for the city. *)
Definition listedAs (year : Z) (c : city) (ci : cityInfo) : Prop :=
  ∃ d, getPopulationForYear c year = Ok (Some d)
       ∧ ci = {| ci_name := city_name c; ci_pop := pop d; ci_founded := minYear c;
                 ci_coords := coordinates c |}.

(** The positions of a coordinate array, at any depth. *)
Fixpoint positions (c : coordArray) : list point :=
  match c with
  | Position lon lat => [(lon, lat)]
  | Nested items => concat (map positions items)
  end.

(** The box does not leave the position outside: none of the four
    comparisons that would separate them holds. *)
Definition within (b : box) (p : point) : Prop :=
  num_lt (Finite (fst p)) (b_minLon b) = false ∧ num_lt (b_maxLon b) (Finite (fst p)) = false
  ∧ num_lt (Finite (snd p)) (b_minLat b) = false ∧ num_lt (b_maxLat b) (Finite (snd p)) = false.

(** The character occurs in the string. *)
Fixpoint occurs (c : ascii) (s : string) : bool :=
  match s with
  | EmptyString => false
  | String a s' => Ascii.eqb a c || occurs c s'
  end.

(** ** Worked datasets *)

(** Scenario B: populations [{-100: 5000, 200: 20000}] queried at year 50. *)
Definition scenarioB : city :=
  {| city_name := "B"; coordinates := (0%Q, 0%Q);
     populations := Some (<[-100 := 5000]> (<[200 := 20000]> ∅));
     minYear := -100 |}.

(** A palette that gives every polity the same colour. *)
Definition plainColor : string → string := λ _, "#e94560".

(** A fragment without territory, for examples about years and areas. *)
Definition fragment (name : string) (from to : Z) (a : Z) : polity :=
  {| Name := name; FromYear := from; ToYear := to; Area := Some a;
     MemberOf := ""; geometry := js_obj (MultiPolygon []) |}.

(** A polity recorded in two fragments, the later one alone visible at 50. *)
Definition twoFragments : list polity :=
  [fragment "Rome" (-500) (-100) 1000; fragment "Rome" 0 100 3000].

(** A polity and its composite wrapper, both valid at year 0. *)
Definition withWrapper : list polity :=
  [fragment "(Roman Empire)" (-27) 395 4000; fragment "Roman Empire" (-27) 395 4000].

(** Scenario A: one region, valid from -500 to 100, of area 2,000,000. *)
Definition regionA : polity := fragment "Region A" (-500) 100 2000000.

(** A square territory with corners (0, 0) and (4, 4). *)
Definition square : Geometry :=
  Polygon [[(0, 0); (4, 0); (4, 4); (0, 4); (0, 0)]%Q].

(** Scenario D: two fragments of "Kingdom X", [100, 150] and [153, 200],
    over the same square. *)
Definition kingdomX (from to : Z) : polity :=
  {| Name := "Kingdom X"; FromYear := from; ToYear := to; Area := Some 5000;
     MemberOf := ""; geometry := js_obj square |}.

(** An earlier realm over the same square. *)
Definition earlierRealm : polity :=
  {| Name := "Earlier Realm"; FromYear := 0; ToYear := 90; Area := Some 4000;
     MemberOf := ""; geometry := js_obj square |}.

(** The dataset of scenario D, with the later fragment listed first. *)
Definition scenarioD : state :=
  loadAllData plainColor [kingdomX 153 200; earlierRealm; kingdomX 100 150] [] [].




(** The series [{-100: 5000, 200: 20000}]. *)
Definition settlementPops : gmap Z Z := <[-100 := 5000]> (<[200 := 20000]> ∅).

(** A city inside the square, occupied since -300 and first attested in
    -100. *)
Definition settlement : city :=
  {| city_name := "Settlement"; coordinates := (2, 2)%Q;
     populations := Some settlementPops; minYear := -300 |}.

(** The sample of world statistics for year 0. *)
Definition sample0 : worldStat := {| ws_year := 0; population := 200; gdp_per_capita := 450 |}.

(** The sample for year 1000. *)
Definition sample1000 : worldStat :=
  {| ws_year := 1000; population := 300; gdp_per_capita := 450 |}.

(** The sample for year 2000. *)
Definition sample2000 : worldStat :=
  {| ws_year := 2000; population := 6000; gdp_per_capita := 6000 |}.

(** The three samples, in order of year. *)
Definition sampleStats : list worldStat := [sample0; sample1000; sample2000].

(** The history of the point (1, 1) in scenario D. *)
Definition scenarioD_history : list historyEntry :=
  [entryOf plainColor earlierRealm;
   widen (entryOf plainColor (kingdomX 100 150)) (entryOf plainColor (kingdomX 153 200))].

(** A city inside the square. *)
Definition innerTown : city :=
  {| city_name := "Inner Town"; coordinates := (1, 1)%Q;
     populations := Some {[ 0 := 150000 ]}; minYear := 0 |}.

(** A larger city inside the square. *)
Definition capital : city :=
  {| city_name := "Capital"; coordinates := (3, 3)%Q;
     populations := Some {[ 0 := 300000 ]}; minYear := 0 |}.

(** A city far from the square. *)
Definition farTown : city :=
  {| city_name := "Far Town"; coordinates := (10, 10)%Q;
     populations := Some {[ 0 := 200000 ]}; minYear := 0 |}.

(** Kingdom X with these cities. *)
Definition kingdomWithCities : state :=
  loadAllData plainColor [kingdomX 100 150] [innerTown; farTown; capital] [].

(** A polity listed under itself and under a parent. *)
Definition franks : polity :=
  {| Name := "Kingdom of the Franks"; FromYear := 481; ToYear := 843; Area := Some 1000;
     MemberOf := "(Kingdom of the Franks);(Merovingian Empire)"; geometry := js_obj square |}.

(** ** The point test in double precision (js/utils.js) *)

(** The functions of the point test once more, with the coordinates as the
    engine holds them: IEEE 754 binary64 numbers, each arithmetic operation
    rounded to the nearest double. *)
Module Doubles.

(** A position [[lon, lat]]. *)
Abbreviation point := (float * float)%type.

(** A linear ring of positions. *)
Abbreviation ring := (list (float * float)%type).

(** A GeoJSON geometry object.  Only [Polygon] and [MultiPolygon] coordinates
    are read by the functions below; any other [type] is [OtherGeometry]. *)
Inductive Geometry :=
| Polygon (coordinates : list ring)
| MultiPolygon (coordinates : list (list ring))
| OtherGeometry (type : string).

(** The test of one edge [(polygon[j], polygon[i])] in [pointInPolygon]:
    [((yi > y) !== (yj > y)) && (x < (xj - xi) * (y - yi) / (yj - yi) + xi)]. *)
Definition crossing (x y : float) (pi pj : point) : bool :=
  let '(xi, yi) := pi in
  let '(xj, yj) := pj in
  xorb (y <? yi)%float (y <? yj)%float
  && (x <? (xj - xi) * (y - yi) / (yj - yi) + xi)%float.

(** The loop [for (i = 0, j = n - 1; i < n; j = i++)]; [pj] is [polygon[j]]. *)
Fixpoint rayCast (x y : float) (pj : point) (rest : list point) (inside : bool) : bool :=
  match rest with
  | [] => inside
  | pi :: rest' =>
      rayCast x y pi rest' (if crossing x y pi pj then negb inside else inside)
  end.

(** [pointInPolygon(point, polygon)]; [polygon] is [None] when the caller
    passes [undefined] (a missing outer ring): reading [polygon.length]
    raises. *)
Definition pointInPolygon (pt : point) (polygon : option ring) : result bool :=
  match polygon with
  | None => Throw TypeError
  | Some [] => Ok false
  | Some ((p0 :: _) as r) => Ok (rayCast (fst pt) (snd pt) (List.last r p0) r false)
  end.

(** The loop over the parts of a [MultiPolygon] in [pointInGeometry]. *)
Fixpoint anyOuterRingContains (pt : point) (polys : list (list ring)) : result bool :=
  match polys with
  | [] => Ok false
  | poly :: rest =>
      b ← pointInPolygon pt (head poly);
      if b : bool then Ok true else anyOuterRingContains pt rest
  end.

(** [pointInGeometry(lon, lat, geometry)], the call with the default
    [tolerance = 0]: the test [tolerance > 0] fails, the distance to the
    edges is not computed, and the function returns [false] when no outer
    ring contains the point. *)
Definition pointInGeometry (lon lat : float) (geometry : jsref Geometry) : result bool :=
  match geometry with
  | js_null | js_undefined => Throw TypeError      (* geometry.type *)
  | js_obj g =>
      inside ← match g with
               | Polygon coordinates => pointInPolygon (lon, lat) (head coordinates)
               | MultiPolygon coordinates => anyOuterRingContains (lon, lat) coordinates
               | OtherGeometry _ => Ok false
               end;
      if inside : bool then Ok true else Ok false
  end.

(** All positions of a polygon or multipolygon, holes included. *)
Definition vertices (g : Geometry) : list point :=
  match g with
  | Polygon coordinates => concat coordinates
  | MultiPolygon coordinates => concat (concat coordinates)
  | OtherGeometry _ => []
  end.

(** Every polygon part has an outer ring ([coordinates[0]] is defined). *)
Definition hasOuterRings (g : Geometry) : bool :=
  match g with
  | Polygon coordinates => bool_decide (coordinates ≠ [])
  | MultiPolygon coordinates => forallb (λ poly, bool_decide (poly ≠ [])) coordinates
  | OtherGeometry _ => true
  end.

(** The longitude is strictly less than the longitude of every position:
    the point is beyond the western side of their bounding box. *)
Definition westOf (lon : float) (vs : list point) : bool :=
  forallb (λ v, (lon <? fst v)%float) vs.

(** The longitude is strictly greater than the longitude of every position:
    beyond the eastern side of the box. *)
Definition eastOf (lon : float) (vs : list point) : bool :=
  forallb (λ v, (fst v <? lon)%float) vs.

(** The latitude is strictly less than the latitude of every position:
    beyond the southern side of the box. *)
Definition southOf (lat : float) (vs : list point) : bool :=
  forallb (λ v, (lat <? snd v)%float) vs.

(** The latitude is strictly greater than the latitude of every position:
    beyond the northern side of the box. *)
Definition northOf (lat : float) (vs : list point) : bool :=
  forallb (λ v, (snd v <? lat)%float) vs.

(** The ring [[0, 1], [0.1, 0], [-0.2, 1], [0, 1]]: the coordinates are the
    doubles that these decimal literals denote. *)
Definition triangleRing : ring :=
  [(0, 1); (0x1.999999999999ap-4, 0); (-0x1.999999999999ap-3, 1); (0, 1)]%float.

(** The triangle with this outer ring. *)
Definition triangle : Geometry := Polygon [triangleRing].

(** A multipolygon whose second part has no ring at all. *)
Definition missingRing : Geometry := MultiPolygon [[triangleRing]; []].

(** The double that follows 0.1, written [0.10000000000000002]. *)
Definition afterTenth : float := 0x1.999999999999bp-4%float.

(** The mirror image of the triangle, [[0, 1], [-0.1, 0], [0.2, 1], [0, 1]]. *)
Definition mirrored : Geometry :=
  Polygon [[(0, 1); (-0x1.999999999999ap-4, 0); (0x1.999999999999ap-3, 1); (0, 1)]%float].

End Doubles.

(** * Properties *)

(** ** Arithmetic and list helpers *)

Lemma Qlt_bool_iff (a b : Q) : Qlt_bool a b = true ↔ (a < b)%Q.
Proof.
  unfold Qlt_bool. rewrite negb_true_iff, <- not_true_iff_false, Qle_bool_iff.
  split; [apply Qnot_le_lt | apply Qlt_not_le].
Qed.

Lemma foldl_sum_shift {A : Type} (f : A → Z) (l : list A) (a : Z) :
  foldl (λ sum x, sum + f x) a l = a + reduce_sum f l.
Proof.
  unfold reduce_sum. revert a.
  induction l as [|x l IH]; intros a; simpl; [lia|].
  rewrite IH, (IH (0 + f x)). lia.
Qed.

Lemma reduce_sum_nil {A : Type} (f : A → Z) : reduce_sum f [] = 0.
Proof. reflexivity. Qed.

Lemma reduce_sum_cons {A : Type} (f : A → Z) (x : A) (l : list A) :
  reduce_sum f (x :: l) = f x + reduce_sum f l.
Proof. unfold reduce_sum at 1. simpl. rewrite foldl_sum_shift. lia. Qed.

Lemma reduce_sum_app {A : Type} (f : A → Z) (l1 l2 : list A) :
  reduce_sum f (l1 ++ l2) = reduce_sum f l1 + reduce_sum f l2.
Proof.
  induction l1 as [|x l1 IH]; simpl; [by rewrite reduce_sum_nil|].
  rewrite !reduce_sum_cons, IH. lia.
Qed.

Lemma reduce_sum_Permutation {A : Type} (f : A → Z) (l1 l2 : list A) :
  l1 ≡ₚ l2 → reduce_sum f l1 = reduce_sum f l2.
Proof.
  induction 1 as [|x l1 l2 _ IH|x y l|l1 l2 l3 _ IH1 _ IH2];
    rewrite ?reduce_sum_cons; lia.
Qed.

Lemma bind_Ok {A B : Type} (f : A → result B) (a : A) : (Ok a ≫= f) = f a.
Proof. reflexivity. Qed.

Lemma for_of_cons {A S : Type} (body : S → A → result S) (x : A) (l : list A) (s : S) :
  for_of body (x :: l) s = body s x ≫= for_of body l.
Proof. reflexivity. Qed.

(** ** Temporal attribute resolver *)

Section resolver.
Implicit Types (pops : gmap Z Z) (year : Z).

Lemma scanYears_past_aux year (l : list Z) (p f : option Z) :
  (foldl (λ '(pastYear, futureYear) y,
            (if y <? year then Some y else pastYear,
             if (year <? y) && bool_decide (futureYear = None) then Some y else futureYear))
         (p, f) l).1 = pastOf year l p.
Proof.
  revert p f. induction l as [|y l IH]; intros p f; [done|].
  simpl. apply IH.
Qed.

Lemma scanYears_past year (l : list Z) : (scanYears year l).1 = pastOf year l None.
Proof. apply scanYears_past_aux. Qed.

Lemma pastOf_stays year (l : list Z) (m : Z) :
  (∀ k, k ∈ l → k < year → k = m) → pastOf year l (Some m) = Some m.
Proof.
  induction l as [|y l IH]; intros Hl; [done|].
  unfold pastOf in *. simpl. destruct (Z.ltb_spec y year) as [Hy|Hy].
  - rewrite (Hl y); [|left|done]. apply IH. intros k Hk. apply Hl. by right.
  - apply IH. intros k Hk. apply Hl. by right.
Qed.

Lemma pastOf_sorted year (l : list Z) (p : option Z) (m : Z) :
  StronglySorted Z.le l →
  m ∈ l → m < year →
  (∀ k, k ∈ l → k < year → k ≤ m) →
  pastOf year l p = Some m.
Proof.
  intros Hs. revert p. induction Hs as [|y l Hs IH Hy]; intros p Hm Hlt Hmax.
  { by apply elem_of_nil in Hm. }
  destruct (decide (m ∈ l)) as [Hin|Hnin].
  - unfold pastOf in *. simpl. apply IH; [done..|].
    intros k Hk. apply Hmax. by right.
  - apply elem_of_cons in Hm as [->|?]; [|done].
    unfold pastOf. simpl. destruct (Z.ltb_spec y year) as [_|?]; [|lia].
    apply pastOf_stays. intros k Hk Hky.
    rewrite Forall_forall in Hy. specialize (Hy k Hk).
    assert (k ∈ y :: l) as Hk' by (by right). specialize (Hmax k Hk' Hky). lia.
Qed.

Lemma elem_of_sortedYears pops (k : Z) : k ∈ sortedYears pops ↔ is_Some (pops !! k).
Proof.
  unfold sortedYears. rewrite merge_sort_Permutation, list_elem_of_fmap. split.
  - intros [[k' v] [-> Hkv]]. apply elem_of_map_to_list in Hkv. eauto.
  - intros [v Hv]. exists (k, v). split; [done|]. by apply elem_of_map_to_list.
Qed.

Lemma sortedYears_sorted pops : StronglySorted Z.le (sortedYears pops).
Proof. apply (StronglySorted_merge_sort Z.le). Qed.

End resolver.

(** C5: a query strictly before the city's attested minimum year yields
    [null]: the call returns normally, with no data. *)
Theorem resolver_before_minYear_null (c : city) (pops : gmap Z Z) (year : Z) :
  populations c = Some pops →
  year < minYear c →
  getPopulationForYear c year = Ok None.
Proof.
  intros Hp Hlt. unfold getPopulationForYear. rewrite Hp.
  destruct (Z.ltb_spec year (minYear c)); [done | lia].
Qed.

(** C4: with no exact key at the query year, the query year not before the
    city's minimum and the nearest earlier attested year at a gap [g] of at
    most 500, the resolver returns that year's recorded value unchanged,
    the earlier year as source, the gap [g], and the confidence
    [interpolated] for [g <= 50], [estimated] for [50 < g <= 200],
    [projected] above. *)
Theorem resolver_past_value (c : city) (pops : gmap Z Z) (year pastYear v : Z) :
  populations c = Some pops →
  pops !! year = None →
  minYear c ≤ year →
  pops !! pastYear = Some v →
  pastYear < year →
  (∀ k, is_Some (pops !! k) → k < year → k ≤ pastYear) →
  year - pastYear ≤ 500 →
  ∃ st : confidence,
    getPopulationForYear c year =
      Ok (Some {| pop := v; srcYear := pastYear; status := st;
                  gap := Some (year - pastYear) |})
    ∧ (year - pastYear ≤ 50 → st = interpolated)
    ∧ (50 < year - pastYear ≤ 200 → st = estimated)
    ∧ (200 < year - pastYear → st = projected).
Proof.
  intros Hp Hnone Hmin Hv Hlt Hmax Hgap.
  assert (Hscan : (scanYears year (sortedYears pops)).1 = Some pastYear).
  { rewrite scanYears_past. apply pastOf_sorted; [apply sortedYears_sorted| |done|].
    - apply elem_of_sortedYears. eauto.
    - intros k Hk. apply Hmax. by apply elem_of_sortedYears. }
  unfold getPopulationForYear. rewrite Hp.
  destruct (Z.ltb_spec year (minYear c)) as [?|_]; [lia|].
  rewrite Hnone. destruct (scanYears year (sortedYears pops)) as [past fut].
  simpl in Hscan. subst past. unfold popAt. rewrite Hv. simpl.
  destruct (Z.ltb_spec 500 (year - pastYear)) as [?|_]; [lia|].
  eexists. split; [reflexivity|].
  destruct (Z.leb_spec (year - pastYear) 50), (Z.leb_spec (year - pastYear) 200);
    repeat split; intros; first [done | lia].
Qed.

Lemma resolver_before_minYear_null_scenarioC :
  getPopulationForYear scenarioB (-150) = Ok None.
Proof.
  apply (resolver_before_minYear_null scenarioB (<[-100 := 5000]> (<[200 := 20000]> ∅)) (-150)).
  - reflexivity.
  - simpl. lia.
Defined.

Lemma resolver_past_value_scenarioB :
  ∃ st : confidence,
    getPopulationForYear scenarioB 50 =
      Ok (Some {| pop := 5000; srcYear := -100; status := st; gap := Some (50 - -100) |})
    ∧ (50 - -100 ≤ 50 → st = interpolated)
    ∧ (50 < 50 - -100 ≤ 200 → st = estimated)
    ∧ (200 < 50 - -100 → st = projected).
Proof.
  apply (resolver_past_value scenarioB (<[-100 := 5000]> (<[200 := 20000]> ∅)) 50 (-100) 5000).
  - reflexivity.
  - vm_compute. reflexivity.
  - simpl. lia.
  - vm_compute. reflexivity.
  - lia.
  - intros k [v Hk] Hlt.
    destruct (decide (k = -100)) as [->|Hne1]; [lia|].
    destruct (decide (k = 200)) as [->|Hne2]; [lia|].
    rewrite !lookup_insert_ne in Hk by done. by rewrite lookup_empty in Hk.
  - lia.
Defined.

(** ** Founding-year index *)

Lemma buildFoundingYears_snoc (l : list polity) (x : polity) :
  buildFoundingYears (l ++ [x]) = addFoundingYear (buildFoundingYears l) x.
Proof. unfold buildFoundingYears. by rewrite foldl_app. Qed.

Lemma foundingInv_skip (l : list polity) (x : polity) (name : string) (entry : option Z) :
  Name x ≠ name ∨ (isParenthetical name = true ∧ entry = None) →
  foundingInv l name entry → foundingInv (l ++ [x]) name entry.
Proof.
  intros Hx. destruct entry as [y|]; simpl.
  - intros (Hpar & (p & Hp & Hn & Hy) & Hmin). split; [done|]. split.
    + exists p. rewrite elem_of_app. auto.
    + intros q [Hq|Hq%list_elem_of_singleton]%elem_of_app Hqn; [by apply Hmin|].
      subst q. destruct Hx as [?|[_ ?]]; done.
  - intros Hnone q [Hq|Hq%list_elem_of_singleton]%elem_of_app Hqn; [by eapply Hnone|].
    subst q. destruct Hx as [?|[? _]]; done.
Qed.

Lemma buildFoundingYears_inv (l : list polity) (name : string) :
  foundingInv l name (buildFoundingYears l !! name).
Proof.
  revert name. induction l as [|x l IH] using rev_ind; intros name.
  { unfold buildFoundingYears. simpl. rewrite lookup_empty. intros p Hp. by apply elem_of_nil in Hp. }
  rewrite buildFoundingYears_snoc. unfold addFoundingYear.
  specialize (IH name) as IHn.
  destruct (decide (Name x = name)) as [Heq|Hne].
  2: { assert (addFoundingYear (buildFoundingYears l) x !! name = buildFoundingYears l !! name) as Hsame.
       { unfold addFoundingYear. destruct (isParenthetical (Name x)); [done|].
         destruct (buildFoundingYears l !! Name x) as [y0|]; [|by rewrite lookup_insert_ne].
         destruct (FromYear x <? y0); [by rewrite lookup_insert_ne | done]. }
       unfold addFoundingYear in Hsame. rewrite Hsame. apply foundingInv_skip; auto. }
  subst name. destruct (isParenthetical (Name x)) eqn:Hpar.
  { destruct (buildFoundingYears l !! Name x) as [y0|] eqn:Hl.
    - destruct IHn as (Hfalse & _). congruence.
    - apply foundingInv_skip; auto. }
  destruct (buildFoundingYears l !! Name x) as [y0|] eqn:Hl.
  - destruct IHn as (_ & (p & Hp & Hn & Hy) & Hmin).
    destruct (Z.ltb_spec (FromYear x) y0) as [Hlt|Hge].
    + rewrite lookup_insert_eq. split; [done|]. split.
      * exists x. rewrite elem_of_app, list_elem_of_singleton. auto.
      * intros q [Hq|Hq%list_elem_of_singleton]%elem_of_app Hqn; [|subst q; lia].
        specialize (Hmin q Hq Hqn). lia.
    + rewrite Hl. split; [done|]. split.
      * exists p. rewrite elem_of_app. auto.
      * intros q [Hq|Hq%list_elem_of_singleton]%elem_of_app Hqn; [by apply Hmin|subst q; lia].
  - rewrite lookup_insert_eq. split; [done|]. split.
    + exists x. rewrite elem_of_app, list_elem_of_singleton. auto.
    + intros q [Hq|Hq%list_elem_of_singleton]%elem_of_app Hqn; [|subst q; lia].
      specialize (IHn q Hq Hqn). congruence.
Qed.

(** C7: for a name of the dataset that is not a parenthesised wrapper, the
    cached founding year exists, is at most the [FromYear] of every fragment
    of that name, and is the [FromYear] of one of them (their minimum). *)
Theorem foundingYear_is_minimum (colorOf : string → string) (polities : list polity)
    (cityFeatures : list city) (stats : list worldStat) (name : string) :
  isParenthetical name = false →
  (∃ p, p ∈ polities ∧ Name p = name) →
  ∃ y, polityFoundingYears (loadAllData colorOf polities cityFeatures stats) !! name = Some y
       ∧ (∀ p, p ∈ polities → Name p = name → y ≤ FromYear p)
       ∧ (∃ p, p ∈ polities ∧ Name p = name ∧ FromYear p = y).
Proof.
  intros Hpar (p & Hp & Hn). simpl.
  pose proof (buildFoundingYears_inv polities name) as Hinv.
  destruct (buildFoundingYears polities !! name) as [y|]; simpl in Hinv.
  - destruct Hinv as (_ & Hex & Hmin). eauto.
  - specialize (Hinv p Hp Hn). congruence.
Qed.

(** ** Entity visibility filter *)

Lemma inRange_spec (year : Z) (f : polity) :
  inRange year f = true ↔ FromYear f ≤ year ≤ ToYear f.
Proof. unfold inRange. rewrite andb_true_iff, !Z.leb_le. tauto. Qed.

(** The filter of [updateMap] keeps exactly the fragments whose interval
    contains the year and whose name is not a parenthesised wrapper. *)
Lemma visiblePolities_spec (all : list polity) (year : Z) (p : polity) :
  p ∈ visiblePolities all year ↔
  p ∈ all ∧ FromYear p ≤ year ≤ ToYear p ∧ isParenthetical (Name p) = false.
Proof.
  unfold visiblePolities. rewrite !list_elem_of_In, filter_In, <- inRange_spec.
  destruct (isParenthetical (Name p)); intuition congruence.
Qed.

(** The filter of the precompute pass tests the interval only. *)
Lemma preloadVisiblePolities_spec (all : list polity) (year : Z) (p : polity) :
  p ∈ preloadVisiblePolities all year ↔ p ∈ all ∧ FromYear p ≤ year ≤ ToYear p.
Proof.
  unfold preloadVisiblePolities. by rewrite !list_elem_of_In, filter_In, <- inRange_spec.
Qed.

(** ** Aggregate metrics *)

Section civData.
Context (colorOf : string → string).
Implicit Types (m : gmap string civ) (p : polity) (name : string).

Lemma addPolity_insert m p : addPolity colorOf m p = <[Name p := entryAfter colorOf m p]> m.
Proof.
  unfold addPolity, entryAfter. apply map_eq. intros k.
  destruct (m !! Name p) as [c|] eqn:Hm.
  - rewrite lookup_alter. destruct (decide (Name p = k)) as [<-|Hne].
    + by rewrite lookup_insert_eq, Hm.
    + by rewrite lookup_insert_ne.
  - rewrite lookup_alter. destruct (decide (Name p = k)) as [<-|Hne].
    + by rewrite !lookup_insert_eq.
    + by rewrite !lookup_insert_ne.
Qed.

Lemma buildCivData_snoc (l : list polity) (x : polity) :
  buildCivData colorOf (l ++ [x]) = addPolity colorOf (buildCivData colorOf l) x.
Proof. unfold buildCivData. by rewrite foldl_app. Qed.

(** A sum over the entries of a dictionary after one assignment. *)
Lemma map_sum_insert (f : civ → Z) m name (c : civ) :
  reduce_sum (λ e, f e.2) (map_to_list (<[name := c]> m)) =
  reduce_sum (λ e, f e.2) (map_to_list m) + f c - from_option f 0 (m !! name).
Proof.
  destruct (m !! name) as [c0|] eqn:Hm; simpl.
  - rewrite <- (insert_delete_eq m name c).
    rewrite (reduce_sum_Permutation _ _ _
               (map_to_list_insert (delete name m) name c (lookup_delete_eq m name))).
    rewrite <- (reduce_sum_Permutation _ _ _ (map_to_list_delete m name c0 Hm)).
    rewrite !reduce_sum_cons. simpl. lia.
  - rewrite (reduce_sum_Permutation _ _ _ (map_to_list_insert m name c Hm)).
    rewrite reduce_sum_cons. simpl. lia.
Qed.

Lemma addPolity_area m p :
  reduce_sum (λ e, area e.2) (map_to_list (addPolity colorOf m p)) =
  reduce_sum (λ e, area e.2) (map_to_list m) + default 0 (Area p).
Proof.
  rewrite addPolity_insert, map_sum_insert. unfold entryAfter.
  destruct (m !! Name p); simpl; lia.
Qed.

(** No double counting, no omission: the per-name areas add up to the sum
    over the fragments. *)
Lemma buildCivData_area (visible : list polity) :
  reduce_sum (λ e, area e.2) (map_to_list (buildCivData colorOf visible)) =
  reduce_sum (λ p, default 0 (Area p)) visible.
Proof.
  induction visible as [|x l IH] using rev_ind.
  - unfold buildCivData. simpl. by rewrite map_to_list_empty.
  - rewrite buildCivData_snoc, addPolity_area, IH, reduce_sum_app, reduce_sum_cons,
      reduce_sum_nil. lia.
Qed.

End civData.

(** ** The point test returns on well-formed geometry *)

Lemma pointInPolygon_total (pt : point) (r : ring) : ∃ b, pointInPolygon pt (Some r) = Ok b.
Proof. destruct r; simpl; eauto. Qed.

Lemma anyOuterRingContains_total (pt : point) (polys : list (list ring)) :
  forallb (λ poly, bool_decide (poly ≠ [])) polys = true →
  ∃ b, anyOuterRingContains pt polys = Ok b.
Proof.
  induction polys as [|poly polys IH]; intros Hwf; [by exists false|].
  cbn [forallb] in Hwf. apply andb_true_iff in Hwf as [Hne%bool_decide_eq_true Hwf].
  destruct poly as [|r rs]; [done|]. cbn [anyOuterRingContains head].
  destruct (pointInPolygon_total pt r) as [b ->]. rewrite bind_Ok.
  destruct b; [by exists true | by apply IH].
Qed.

Lemma distanceToGeometryEdge_total (lon lat : Q) (g : Geometry) :
  hasOuterRings g = true → ∃ d, distanceToGeometryEdge lon lat g = Ok d.
Proof.
  destruct g as [coordinates|coordinates|type]; cbn [hasOuterRings distanceToGeometryEdge];
    intros Hwf; [| |by eexists].
  - apply bool_decide_eq_true in Hwf. destruct coordinates as [|r rs]; [done|].
    cbn [head distanceToPolygonEdge]. by eexists.
  - generalize (None : option Q).
    induction coordinates as [|poly polys IH]; intros acc; [by eexists|].
    cbn [forallb] in Hwf. apply andb_true_iff in Hwf as [Hne%bool_decide_eq_true Hwf].
    destruct poly as [|r rs]; [done|]. rewrite for_of_cons.
    cbn [head distanceToPolygonEdge]. rewrite !bind_Ok. by apply IH.
Qed.

Lemma pointInGeometry_total (lon lat tolerance : Q) (g : Geometry) :
  hasOuterRings g = true → ∃ b, pointInGeometry lon lat (js_obj g) tolerance = Ok b.
Proof.
  intros Hwf. unfold pointInGeometry.
  assert (∃ inside, match g with
                    | Polygon coordinates => pointInPolygon (lon, lat) (head coordinates)
                    | MultiPolygon coordinates => anyOuterRingContains (lon, lat) coordinates
                    | OtherGeometry _ => Ok false
                    end = Ok inside) as [inside ->].
  { destruct g as [coordinates|coordinates|type]; cbn [hasOuterRings] in Hwf.
    - apply bool_decide_eq_true in Hwf. destruct coordinates as [|r rs]; [done|].
      apply pointInPolygon_total.
    - by apply anyOuterRingContains_total.
    - by eexists. }
  rewrite bind_Ok. destruct inside; [by eexists|].
  destruct (Qlt_bool 0 tolerance); [|by eexists].
  destruct (distanceToGeometryEdge_total lon lat g Hwf) as [d ->]. rewrite bind_Ok.
  destruct d; by eexists.
Qed.

(** ** Cities kept at load time and the city totals *)

Lemma foldl_max_spec (l : list Z) (a : Z) :
  foldl Z.max a l ∈ a :: l ∧ ∀ v, v ∈ a :: l → v ≤ foldl Z.max a l.
Proof.
  revert a. induction l as [|x l IH]; intros a; simpl.
  - split; [by left|]. intros v ->%list_elem_of_singleton. lia.
  - destruct (IH (Z.max a x)) as [Hin Hmax]. split.
    + apply elem_of_cons in Hin as [Heq|Hin]; [|by do 2 right].
      rewrite Heq. destruct (Z.max_spec a x) as [[_ ->]|[_ ->]]; [right; left|left].
    + intros v Hv. apply elem_of_cons in Hv as [->|Hv].
      * etransitivity; [|apply Hmax; left]. lia.
      * apply elem_of_cons in Hv as [->|Hv].
        -- etransitivity; [|apply Hmax; left]. lia.
        -- apply Hmax. by right.
Qed.

Lemma Math_max_Some (l : list Z) (m : Z) :
  Math_max l = Some m ↔ m ∈ l ∧ ∀ v, v ∈ l → v ≤ m.
Proof.
  destruct l as [|a l]; simpl.
  - split; [done|]. intros [H _]. by apply elem_of_nil in H.
  - pose proof (foldl_max_spec l a) as [Hin Hmax]. split.
    + intros [= <-]. done.
    + intros [Hm Hle]. f_equal. apply Z.le_antisymm; [by apply Hle | by apply Hmax].
Qed.

Lemma elem_of_values (pops : gmap Z Z) (v : Z) :
  v ∈ (map_to_list pops).*2 ↔ ∃ y, pops !! y = Some v.
Proof.
  rewrite list_elem_of_fmap. split.
  - intros [[y v'] [-> H]]. exists y. by apply elem_of_map_to_list.
  - intros [y H]. exists (y, v). split; [done|]. by apply elem_of_map_to_list.
Qed.

Lemma reaches100k_spec (c : city) :
  reaches100k c = true ↔
  ∃ pops maxPop, populations c = Some pops ∧ isMaxOf pops maxPop ∧ 100000 ≤ maxPop.
Proof.
  unfold reaches100k, isMaxOf. destruct (populations c) as [pops|].
  2: { split; [done|]. by intros (? & ? & ? & _). }
  destruct (Math_max (map_to_list pops).*2) as [m|] eqn:Hm.
  - apply Math_max_Some in Hm as [Hin Hmax]. rewrite Z.leb_le. split.
    + intros Hle. exists pops, m. split; [done|]. split; [|done]. split.
      * by apply elem_of_values.
      * intros y v Hv. apply Hmax, elem_of_values. eauto.
    + intros (pops' & m' & [= <-] & [Hex _] & Hge).
      apply elem_of_values in Hex. specialize (Hmax m' Hex). lia.
  - split; [done|]. intros (pops' & m' & [= <-] & [[y Hy] _] & _).
    assert (m' ∈ (map_to_list pops).*2) as Hin by (apply elem_of_values; eauto).
    destruct ((map_to_list pops).*2); [by apply elem_of_nil in Hin | done].
Qed.

Lemma getPopulationForYear_total (c : city) (pops : gmap Z Z) (year : Z) :
  populations c = Some pops → ∃ r, getPopulationForYear c year = Ok r.
Proof.
  intros Hp. unfold getPopulationForYear. rewrite Hp.
  destruct (year <? minYear c); [eauto|].
  destruct (pops !! year); [eauto|].
  destruct (scanYears year (sortedYears pops)) as [[past|] [fut|]]; eauto.
Qed.

Lemma countCities_acc (cs : list city) (year n u : Z) :
  Forall (λ c, is_Some (populations c)) cs →
  for_of (countStep year) cs (n, u)
  = Ok (n + Z.of_nat (length (resolvedPops cs year)),
        u + reduce_sum pop (resolvedPops cs year)).
Proof.
  intros Hall. revert n u. induction Hall as [|c cs [pops Hc] _ IH]; intros n u.
  { simpl. rewrite reduce_sum_nil. f_equal. f_equal; lia. }
  destruct (getPopulationForYear_total c pops year Hc) as [r Hr].
  rewrite for_of_cons.
  assert (countStep year (n, u) c =
          Ok (match r with Some d => (n + 1, u + pop d) | None => (n, u) end)) as ->.
  { unfold countStep. rewrite Hr. by destruct r. }
  rewrite bind_Ok. unfold resolvedPops in *. cbn [omap list_omap]. rewrite Hr.
  destruct r as [d|].
  - rewrite IH. cbn [length]. rewrite reduce_sum_cons. f_equal. f_equal; lia.
  - apply IH.
Qed.

Lemma countCities_spec (cs : list city) (year : Z) :
  Forall (λ c, is_Some (populations c)) cs →
  countCities cs year =
    Ok (Z.of_nat (length (resolvedPops cs year)), reduce_sum pop (resolvedPops cs year)).
Proof. intros Hall. unfold countCities. by rewrite countCities_acc. Qed.

Lemma loaded_cities_have_populations (cityFeatures : list city) :
  Forall (λ c, is_Some (populations c)) (List.filter reaches100k cityFeatures).
Proof.
  apply Forall_forall. intros c [_ Hc]%list_elem_of_In%filter_In.
  apply reaches100k_spec in Hc as (pops & _ & -> & _). eauto.
Qed.

(** The per-polity count ranges over the cities it is given. *)
Lemma countCitiesInPolity_acc (p : polity) (g : Geometry) (cs : list city) (year k : Z) :
  geometry p = js_obj g → hasOuterRings g = true →
  Forall (λ c, is_Some (populations c)) cs →
  for_of (cityInPolityStep p year) cs k =
  Ok (k + Z.of_nat (length (List.filter (cityInPolity p year) cs))).
Proof.
  intros Hg Hwf Hall. revert k. induction Hall as [|c cs [pops Hc] _ IH]; intros k.
  { simpl. f_equal. lia. }
  destruct (getPopulationForYear_total c pops year Hc) as [r Hr].
  destruct (pointInGeometry_total (fst (coordinates c)) (snd (coordinates c))
              CITY_TERRITORY_TOLERANCE g Hwf) as [b Hb].
  rewrite <- Hg in Hb.
  rewrite for_of_cons. cbn [List.filter]. unfold cityInPolity at 1.
  assert (cityInPolityStep p year k c =
          Ok (match r with Some _ => if b then k + 1 else k | None => k end)) as ->.
  { unfold cityInPolityStep. rewrite Hr, bind_Ok. destruct r; [|done].
    destruct (coordinates c) as [lon lat]. cbn [fst snd] in Hb. by rewrite Hb. }
  rewrite bind_Ok, Hr, Hb, IH. destruct r as [d|]; [|done].
  destruct b; [|done]. cbn [length]. f_equal. lia.
Qed.

(** The snapshot, component by component. *)
Lemma calculateMetricsFast_components (st : state) (year : Z) (visible : list polity) :
  citiesReady st →
  let civList : list (string * civ) := map_to_list (buildCivData (getColor st) visible) in
  let ageSum := reduce_sum (λ e, year - fromYear e.2) civList in
  ∃ m, calculateMetricsFast st year visible = Ok m
       ∧ civs m = buildCivData (getColor st) visible
       ∧ civilizations (totals m) = length civList
       ∧ landArea (totals m) = reduce_sum (λ e, area e.2) civList
       ∧ cities (totals m) = Z.of_nat (length (resolvedPops (allCities st) year))
       ∧ urbanPop (totals m) = reduce_sum pop (resolvedPops (allCities st) year)
       ∧ avgAge (totals m) =
           if bool_decide (civList = []) then 0%Q
           else (inject_Z ageSum / inject_Z (Z.of_nat (length civList)))%Q.
Proof.
  intros Hready civList ageSum. unfold calculateMetricsFast.
  rewrite (countCities_spec (allCities st) year Hready).
  simpl. eexists. split; [reflexivity|]. simpl. repeat split.
Qed.

Lemma loadAllData_citiesReady (colorOf : string → string) (polities : list polity)
    (cityFeatures : list city) (stats : list worldStat) :
  citiesReady (loadAllData colorOf polities cityFeatures stats).
Proof. apply loaded_cities_have_populations. Qed.

Lemma calculateMetricsFast_landArea (st : state) (year : Z) (visible : list polity) :
  citiesReady st →
  ∃ m, calculateMetricsFast st year visible = Ok m
       ∧ landArea (totals m) = reduce_sum (λ p, default 0 (Area p)) visible.
Proof.
  intros Hready.
  destruct (calculateMetricsFast_components st year visible Hready)
    as (m & Hm & _ & _ & Ha & _).
  exists m. split; [done|]. by rewrite Ha, buildCivData_area.
Qed.

(** ** The precompute pass *)

(** The snapshot does not depend on the cache. *)
Lemma calculateMetricsFast_store (st : state) (y : Z) (d : metrics) (year : Z)
    (visible : list polity) :
  calculateMetricsFast (storeGraphData st y d) year visible =
  calculateMetricsFast st year visible.
Proof. reflexivity. Qed.

Lemma preload_loop (years : list Z) (s : state) :
  citiesReady s →
  ∃ s', for_of preloadStep years s = Ok s'
        ∧ allPolities s' = allPolities s
        ∧ graphDataLoaded s' = graphDataLoaded s
        ∧ (∀ y, y ∈ years → ∃ m,
              calculateMetricsFast s y (preloadVisiblePolities (allPolities s) y) = Ok m
              ∧ graphData s' !! y = Some m)
        ∧ (∀ y, y ∉ years → graphData s' !! y = graphData s !! y).
Proof.
  revert s. induction years as [|y ys IH]; intros s Hready.
  { exists s. split_and!; try done. intros y Hy. by apply elem_of_nil in Hy. }
  destruct (calculateMetricsFast_landArea s y (preloadVisiblePolities (allPolities s) y) Hready)
    as (m & Hm & _).
  rewrite for_of_cons.
  assert (preloadStep s y = Ok (storeGraphData s y m)) as ->
    by (unfold preloadStep; by rewrite Hm).
  rewrite bind_Ok.
  destruct (IH (storeGraphData s y m)) as (s' & -> & Hp & Hl & Hin & Hout); [done|].
  exists s'. split_and!; try done.
  - intros y' Hy'. destruct (decide (y' ∈ ys)) as [Hys|Hys]; [by apply Hin|].
    apply elem_of_cons in Hy' as [->|?]; [|done].
    exists m. split; [done|]. rewrite (Hout y Hys). apply lookup_insert_eq.
  - intros y' Hy'. apply not_elem_of_cons in Hy' as [Hne Hys].
    rewrite (Hout y' Hys). cbn [storeGraphData graphData]. by apply lookup_insert_ne.
Qed.

(** The pass stores, for each of its years, the snapshot computed from its
    own visible set. *)
Lemma preloadGraphData_snapshots (st : state) :
  citiesReady st → graphDataLoaded st = false →
  ∃ st', preloadGraphData st = Ok st'
         ∧ ∀ y, y ∈ preloadYears → ∃ m,
             calculateMetricsFast st y (preloadVisiblePolities (allPolities st) y) = Ok m
             ∧ graphData st' !! y = Some m.
Proof.
  intros Hready Hl. unfold preloadGraphData. rewrite Hl.
  destruct (preload_loop preloadYears st Hready) as (s' & Hs' & _ & _ & Hin & _).
  rewrite Hs', bind_Ok. eexists. split; [reflexivity|]. exact Hin.
Qed.

(** C10: the loader keeps exactly the city features whose largest recorded
    population is at least 100,000; the city totals of every snapshot
    ([cities], [urbanPop]) and the per-polity city count of the leaderboard
    are taken over that collection. *)
Theorem loaded_cities_reach_100k (colorOf : string → string) (polities : list polity)
    (cityFeatures : list city) (stats : list worldStat) :
  let st := loadAllData colorOf polities cityFeatures stats in
  (∀ c, c ∈ allCities st ↔
        c ∈ cityFeatures
        ∧ ∃ pops maxPop, populations c = Some pops ∧ isMaxOf pops maxPop ∧ 100000 ≤ maxPop)
  ∧ (∀ year visible, ∃ m,
        calculateMetricsFast st year visible = Ok m
        ∧ cities (totals m) = Z.of_nat (length (resolvedPops (allCities st) year))
        ∧ urbanPop (totals m) = reduce_sum pop (resolvedPops (allCities st) year))
  ∧ (∀ p g year, geometry p = js_obj g → hasOuterRings g = true →
        countCitiesInPolity p (allCities st) year =
        Ok (Z.of_nat (length (List.filter (cityInPolity p year) (allCities st))))).
Proof.
  intros st. split; [|split].
  - intros c. simpl. by rewrite !list_elem_of_In, filter_In, reaches100k_spec.
  - intros year visible.
    destruct (calculateMetricsFast_components st year visible
                (loadAllData_citiesReady colorOf polities cityFeatures stats))
      as (m & Hm & _ & _ & _ & Hc & Hu & _).
    eauto.
  - intros p g year Hg Hwf. unfold countCitiesInPolity.
    rewrite (countCitiesInPolity_acc p g (allCities st) year 0 Hg Hwf)
      by apply (loadAllData_citiesReady colorOf polities cityFeatures stats).
    f_equal.
Qed.

(** The land area of a snapshot is the sum of [Area] (0 when missing) over
    the list of fragments handed to the computation, each fragment counted
    once, and a single fragment gives one civilisation; the snapshots stored
    by the precompute pass are the sums over the lists selected by the filter
    of that pass. *)
Lemma landArea_sums_given_fragments (colorOf : string → string) (polities : list polity)
    (cityFeatures : list city) (stats : list worldStat) :
  let st := loadAllData colorOf polities cityFeatures stats in
  (∀ year visible, ∃ m,
      calculateMetricsFast st year visible = Ok m
      ∧ landArea (totals m) = reduce_sum (λ p, default 0 (Area p)) visible
      ∧ (∀ p, visible = [p] → civilizations (totals m) = 1%nat))
  ∧ (∃ st', preloadGraphData st = Ok st'
            ∧ ∀ year, year ∈ preloadYears → ∃ m,
                graphData st' !! year = Some m
                ∧ landArea (totals m) =
                    reduce_sum (λ p, default 0 (Area p))
                               (preloadVisiblePolities polities year)).
Proof.
  intros st.
  pose proof (loadAllData_citiesReady colorOf polities cityFeatures stats) as Hready.
  fold st in Hready. split.
  - intros year visible.
    destruct (calculateMetricsFast_components st year visible Hready)
      as (m & Hm & _ & Hn & Ha & _).
    exists m. split; [done|]. split.
    + by rewrite Ha, buildCivData_area.
    + intros p ->. rewrite Hn. unfold buildCivData. simpl.
      rewrite addPolity_insert, insert_empty. by rewrite map_to_list_singleton.
  - destruct (preloadGraphData_snapshots st Hready) as (st' & Hst' & Hsnap); [done|].
    exists st'. split; [done|]. intros year Hyear.
    destruct (Hsnap year Hyear) as (m & Hm & Hg).
    destruct (calculateMetricsFast_landArea st year
                (preloadVisiblePolities (allPolities st) year) Hready) as (m' & Hm' & Ha).
    rewrite Hm in Hm'. injection Hm' as <-. eauto.
Qed.

(** Without parenthesised names the two filters select the same fragments. *)
Lemma preloadVisiblePolities_without_wrappers (all : list polity) (year : Z) :
  (∀ p, p ∈ all → isParenthetical (Name p) = false) →
  preloadVisiblePolities all year = visiblePolities all year.
Proof.
  intros Hno. unfold preloadVisiblePolities, visiblePolities.
  apply filter_ext_in. intros p Hp%list_elem_of_In. by rewrite (Hno p Hp).
Qed.

(** C2, on the code: the snapshot computed from the visible set of a year
    has, as [landArea], the sum of [Area] (0 when missing) over that set, each
    fragment counted once; scenario A gives one civilisation and 2,000,000.
    The precompute pass stores the same sums when no name is a parenthesised
    wrapper; with a wrapper valid at its year 0 it stores 8000 where the sum
    over the visible set of year 0 is 4000. *)
Theorem landArea_sums_visible_set :
  (∀ (colorOf : string → string) polities cityFeatures stats (year : Z),
     let st := loadAllData colorOf polities cityFeatures stats in
     let visible := visiblePolities (allPolities st) year in
     ∃ m, calculateMetricsFast st year visible = Ok m
          ∧ landArea (totals m) = reduce_sum (λ p, default 0 (Area p)) visible)
  ∧ (let st := loadAllData plainColor [regionA] [] [] in
     visiblePolities (allPolities st) (-200) = [regionA]
     ∧ ∃ m, calculateMetricsFast st (-200) (visiblePolities (allPolities st) (-200)) = Ok m
            ∧ civilizations (totals m) = 1%nat
            ∧ landArea (totals m) = 2000000)
  ∧ (∀ (colorOf : string → string) polities cityFeatures stats,
       let st := loadAllData colorOf polities cityFeatures stats in
       (∀ p, p ∈ polities → isParenthetical (Name p) = false) →
       ∃ st', preloadGraphData st = Ok st'
              ∧ ∀ year, year ∈ preloadYears → ∃ m,
                  graphData st' !! year = Some m
                  ∧ landArea (totals m) =
                      reduce_sum (λ p, default 0 (Area p))
                                 (visiblePolities (allPolities st) year))
  ∧ let st := loadAllData plainColor withWrapper [] [] in
    0 ∈ preloadYears
    ∧ reduce_sum (λ p, default 0 (Area p)) (visiblePolities (allPolities st) 0) = 4000
    ∧ ∃ st' m, preloadGraphData st = Ok st'
               ∧ graphData st' !! 0 = Some m
               ∧ landArea (totals m) = 8000.
Proof.
  split; [|split; [|split]].
  - intros colorOf polities cityFeatures stats year st visible.
    destruct (landArea_sums_given_fragments colorOf polities cityFeatures stats) as [Hcalc _].
    destruct (Hcalc year visible) as (m & Hm & Ha & _). eauto.
  - intros st. split; [reflexivity|].
    destruct (landArea_sums_given_fragments plainColor [regionA] [] []) as [Hcalc _].
    destruct (Hcalc (-200) (visiblePolities [regionA] (-200))) as (m & Hm & Ha & Hn).
    exists m. split; [exact Hm|]. split; [by apply (Hn regionA) | by rewrite Ha].
  - intros colorOf polities cityFeatures stats st Hno.
    destruct (landArea_sums_given_fragments colorOf polities cityFeatures stats)
      as [_ (st' & Hst' & Hsnap)].
    exists st'. split; [exact Hst'|]. intros year Hyear.
    destruct (Hsnap year Hyear) as (m & Hm & Ha). exists m. split; [exact Hm|].
    rewrite Ha. cbn [st loadAllData allPolities].
    by rewrite preloadVisiblePolities_without_wrappers.
  - intros st. split.
    { apply list_elem_of_fmap. exists 74. split; [reflexivity|]. apply elem_of_seqZ. lia. }
    split; [reflexivity|].
    cut (∀ r : result state,
           match r with
           | Ok st' =>
               match graphData st' !! 0 with
               | Some m => landArea (totals m) =? 8000
               | None => false
               end
           | Throw _ => false
           end = true →
           ∃ st' m, r = Ok st' ∧ graphData st' !! 0 = Some m ∧ landArea (totals m) = 8000).
    { intros Hcut. apply (Hcut (preloadGraphData st)). vm_compute. reflexivity. }
    clear st. intros [st'|e] Hrun; [|discriminate].
    destruct (graphData st' !! 0) as [m|] eqn:Hm; [|discriminate].
    apply Z.eqb_eq in Hrun. eauto.
Qed.

(** ** Age of a civilisation in a snapshot *)

Section civAge.
Context (colorOf : string → string).

Lemma buildCivData_inv (l : list polity) (name : string) :
  civInv l name (buildCivData colorOf l !! name).
Proof.
  revert name. induction l as [|x l IH] using rev_ind; intros name.
  { unfold buildCivData. simpl. rewrite lookup_empty. intros p Hp. by apply elem_of_nil in Hp. }
  rewrite buildCivData_snoc, addPolity_insert.
  destruct (decide (Name x = name)) as [Heq|Hne].
  - subst name. rewrite lookup_insert_eq. unfold entryAfter.
    specialize (IH (Name x)). destruct (buildCivData colorOf l !! Name x) as [c|]; simpl in *.
    + destruct IH as [(p & Hp & Hn & Hy) Hmin]. split.
      * destruct (Z.min_spec (fromYear c) (FromYear x)) as [[_ ->]|[_ ->]].
        -- exists p. rewrite elem_of_app. auto.
        -- exists x. rewrite elem_of_app, list_elem_of_singleton. auto.
      * intros q [Hq|Hq%list_elem_of_singleton]%elem_of_app Hqn; [|subst q; lia].
        specialize (Hmin q Hq Hqn). lia.
    + split.
      * exists x. rewrite elem_of_app, list_elem_of_singleton. split; [auto|]. split; [done|lia].
      * intros q [Hq|Hq%list_elem_of_singleton]%elem_of_app Hqn; [|subst q; lia].
        by specialize (IH q Hq).
  - rewrite lookup_insert_ne by done. specialize (IH name).
    destruct (buildCivData colorOf l !! name) as [c|]; simpl in *.
    + destruct IH as [(p & Hp & Hn & Hy) Hmin]. split.
      * exists p. rewrite elem_of_app. auto.
      * intros q [Hq|Hq%list_elem_of_singleton]%elem_of_app Hqn; [by apply Hmin|by subst q].
    + intros q [Hq|Hq%list_elem_of_singleton]%elem_of_app; [by apply IH|by subst q].
Qed.

End civAge.

(** ** Snapshots, the founding-year index and the composite wrappers *)

(** C1, on the code: the entries of a snapshot are keyed by the distinct
    visible names, each with the least [FromYear] among the fragments of that
    name that are visible, and [avgAge] is the mean of [year - fromYear] over
    the entries.  With the fragments [-500, -100] and [0, 100] of one polity
    and the query year 50, the founding-year index holds -500 (age 550) but
    [avgAge] is 50. *)
Theorem avgAge_uses_visible_fragments_only :
  (∀ (colorOf : string → string) polities cityFeatures stats (year : Z) (visible : list polity),
     ∃ m, calculateMetricsFast (loadAllData colorOf polities cityFeatures stats) year visible
          = Ok m
          ∧ (∀ name, civInv visible name (civs m !! name))
          ∧ let civList : list (string * civ) := map_to_list (civs m) in
            let ageSum := reduce_sum (λ e, year - fromYear e.2) civList in
            avgAge (totals m) =
              if bool_decide (civList = []) then 0%Q
              else (inject_Z ageSum / inject_Z (Z.of_nat (length civList)))%Q)
  ∧ let st := loadAllData plainColor twoFragments [] [] in
    let visible := visiblePolities (allPolities st) 50 in
    polityFoundingYears st !! "Rome" = Some (-500)
    ∧ (avgAgeByFoundingYear st 50 visible == 550)%Q
    ∧ ∃ m, calculateMetricsFast st 50 visible = Ok m
           ∧ (avgAge (totals m) == 50)%Q
           ∧ ¬ (avgAge (totals m) == avgAgeByFoundingYear st 50 visible)%Q.
Proof.
  split.
  - intros colorOf polities cityFeatures stats year visible.
    destruct (calculateMetricsFast_components
                (loadAllData colorOf polities cityFeatures stats) year visible
                (loadAllData_citiesReady colorOf polities cityFeatures stats))
      as (m & Hm & Hcivs & _ & _ & _ & _ & Havg).
    exists m. split; [done|]. split.
    + intros name. rewrite Hcivs. apply buildCivData_inv.
    + by rewrite Hcivs.
  - intros st visible. split; [by vm_compute|]. split; [by vm_compute|].
    eexists. split; [by vm_compute|]. split; by vm_compute.
Qed.

(** C3, on the code: the filter of [updateMap] returns exactly the fragments
    whose interval contains the year and whose name is not a parenthesised
    wrapper; the filter of the precompute pass tests the interval only, so
    that a wrapper valid at year 0 is in its visible set and is aggregated
    into the snapshot stored for that year. *)
Theorem preload_keeps_parenthetical_wrapper :
  (∀ all year p,
     (p ∈ visiblePolities all year ↔
      p ∈ all ∧ FromYear p ≤ year ≤ ToYear p ∧ isParenthetical (Name p) = false)
     ∧ (p ∈ preloadVisiblePolities all year ↔ p ∈ all ∧ FromYear p ≤ year ≤ ToYear p))
  ∧ let st := loadAllData plainColor withWrapper [] [] in
    let wrapper := fragment "(Roman Empire)" (-27) 395 4000 in
    isParenthetical (Name wrapper) = true
    ∧ (wrapper ∉ visiblePolities (allPolities st) 0)
    ∧ (wrapper ∈ preloadVisiblePolities (allPolities st) 0)
    ∧ ∃ st' m, preloadGraphData st = Ok st'
               ∧ graphData st' !! 0 = Some m
               ∧ is_Some (civs m !! "(Roman Empire)")
               ∧ civilizations (totals m) = 2%nat
               ∧ landArea (totals m) = 8000.
Proof.
  split.
  { intros all year p. split; [apply visiblePolities_spec | apply preloadVisiblePolities_spec]. }
  intros st wrapper. split; [done|]. split.
  { rewrite visiblePolities_spec. intros (_ & _ & H). done. }
  split.
  { rewrite preloadVisiblePolities_spec. split; [left|done]. }
  cut (∀ r : result state,
         match r with
         | Ok st' =>
             match graphData st' !! 0 with
             | Some m =>
                 match civs m !! "(Roman Empire)" with Some _ => true | None => false end
                 && (civilizations (totals m) =? 2)%nat && (landArea (totals m) =? 8000)
             | None => false
             end
         | Throw _ => false
         end = true →
         ∃ st' m, r = Ok st' ∧ graphData st' !! 0 = Some m
                  ∧ is_Some (civs m !! "(Roman Empire)")
                  ∧ civilizations (totals m) = 2%nat ∧ landArea (totals m) = 8000).
  { intros Hcut. apply (Hcut (preloadGraphData st)). vm_compute. reflexivity. }
  clear st wrapper. intros [st'|e] Hrun; [|discriminate].
  destruct (graphData st' !! 0) as [m|] eqn:Hm; [|discriminate].
  apply andb_true_iff in Hrun as [[Hw Hn]%andb_true_iff Ha%Z.eqb_eq].
  apply Nat.eqb_eq in Hn.
  exists st', m. split_and!; [reflexivity | assumption | | assumption | assumption].
  destruct (civs m !! "(Roman Empire)"); [eauto | discriminate].
Qed.

(** ** Geometry kernel *)

Section rayCasting.
Context (x y : Q).

Lemma crossing_abscissa (xi yi xj yj : Q) :
  xorb (Qlt_bool y yi) (Qlt_bool y yj) = true →
  ∃ t : Q, (0 <= t <= 1)%Q
           ∧ ((xj - xi) * (y - yi) / (yj - yi) + xi == (xj - xi) * t + xi)%Q.
Proof.
  intros Hx.
  assert (((y < yi) ∧ ¬ (y < yj)) ∨ (¬ (y < yi) ∧ (y < yj)))%Q as Hside.
  { destruct (Qlt_bool y yi) eqn:Hi, (Qlt_bool y yj) eqn:Hj; try discriminate.
    - left. split; [by apply Qlt_bool_iff|]. rewrite <- Qlt_bool_iff. congruence.
    - right. split; [|by apply Qlt_bool_iff]. rewrite <- Qlt_bool_iff. congruence. }
  assert (Hd : ¬ (yj - yi == 0)%Q) by lra.
  exists ((y - yi) / (yj - yi))%Q.
  assert (Ht : ((y - yi) / (yj - yi) * (yj - yi) == y - yi)%Q) by (field; exact Hd).
  split; [|field; exact Hd].
  set (t := ((y - yi) / (yj - yi))%Q) in *. clearbody t.
  destruct Hside as [[H1 H2]|[H1 H2]]; split; nra.
Qed.

Lemma convex_lt (xi xj t : Q) :
  (xi < x)%Q → (xj < x)%Q → (0 <= t <= 1)%Q → ¬ (x < (xj - xi) * t + xi)%Q.
Proof.
  intros Hi Hj [H0 H1].
  assert (0 <= t * (x - xj))%Q by nra.
  assert (0 <= (1 - t) * (x - xi))%Q by nra.
  nra.
Qed.

Lemma convex_gt (xi xj t : Q) :
  (x < xi)%Q → (x < xj)%Q → (0 <= t <= 1)%Q → (x < (xj - xi) * t + xi)%Q.
Proof.
  intros Hi Hj [H0 H1].
  assert (0 <= t * (xj - x))%Q by nra.
  assert (0 <= (1 - t) * (xi - x))%Q by nra.
  nra.
Qed.

Lemma crossing_same_side (pi pj : point) :
  above y pi = above y pj → crossing x y pi pj = false.
Proof.
  destruct pi as [xi yi], pj as [xj yj]. unfold above, crossing. simpl.
  intros ->. by rewrite xorb_nilpotent.
Qed.

Lemma crossing_right (pi pj : point) :
  (fst pi < x)%Q → (fst pj < x)%Q → crossing x y pi pj = false.
Proof.
  destruct pi as [xi yi], pj as [xj yj]. unfold crossing. cbn [fst snd]. intros Hi Hj.
  destruct (xorb (Qlt_bool y yi) (Qlt_bool y yj)) eqn:Hx; [|done]. cbn [andb].
  destruct (crossing_abscissa xi yi xj yj Hx) as (t & Ht & HX).
  apply not_true_iff_false. rewrite Qlt_bool_iff, HX. by apply convex_lt.
Qed.

Lemma crossing_left (pi pj : point) :
  (x < fst pi)%Q → (x < fst pj)%Q → crossing x y pi pj = xorb (above y pi) (above y pj).
Proof.
  destruct pi as [xi yi], pj as [xj yj]. unfold crossing, above. cbn [fst snd]. intros Hi Hj.
  destruct (xorb (Qlt_bool y yi) (Qlt_bool y yj)) eqn:Hx; [|done]. cbn [andb].
  destruct (crossing_abscissa xi yi xj yj Hx) as (t & Ht & HX).
  rewrite Qlt_bool_iff, HX. by apply convex_gt.
Qed.

Lemma last_cons_default (a d : point) (l : list point) :
  List.last (a :: l) d = List.last l a.
Proof.
  revert a d. induction l as [|b l IH]; intros a d; [done|].
  change (List.last (a :: b :: l) d) with (List.last (b :: l) d).
  by rewrite (IH b d), (IH b a).
Qed.

(** No edge between the listed vertices is counted: the flag is unchanged. *)
Lemma rayCast_no_crossing (pj : point) (rest : list point) (inside : bool) :
  (∀ p q, p ∈ pj :: rest → q ∈ pj :: rest → crossing x y p q = false) →
  rayCast x y pj rest inside = inside.
Proof.
  revert pj inside. induction rest as [|pi rest IH]; intros pj inside Hc; [done|].
  simpl. rewrite (Hc pi pj) by (rewrite !elem_of_cons; auto).
  apply IH. intros p q Hp Hq. apply Hc; by right.
Qed.

(** Every edge is counted exactly when its end points lie on different sides
    of the horizontal through the point: the flag records the parity of the
    side changes along the path. *)
Lemma rayCast_parity (pj : point) (rest : list point) (inside : bool) :
  (∀ p q, p ∈ pj :: rest → q ∈ pj :: rest → crossing x y p q = xorb (above y p) (above y q)) →
  rayCast x y pj rest inside =
  xorb inside (xorb (above y pj) (above y (List.last rest pj))).
Proof.
  revert pj inside. induction rest as [|pi rest IH]; intros pj inside Hc.
  { simpl. by rewrite xorb_nilpotent, xorb_false_r. }
  cbn [rayCast]. rewrite (Hc pi pj) by (rewrite !elem_of_cons; auto).
  rewrite IH by (intros p q Hp Hq; apply Hc; by right).
  rewrite last_cons_default.
  destruct (above y pi), (above y pj), (above y (List.last rest pi)), inside; reflexivity.
Qed.

Lemma last_elem_of (p0 : point) (r : list point) : List.last (p0 :: r) p0 ∈ p0 :: r.
Proof.
  apply list_elem_of_In. destruct (exists_last (l := p0 :: r)) as (l' & a & Heq); [done|].
  rewrite Heq, last_last. apply in_or_app. right. by left.
Qed.

(** A closed path seen from a point on one side of all its vertices. *)
Lemma pointInPolygon_one_side (r : ring) :
  onOneSide x y r → pointInPolygon (x, y) (Some r) = Ok false.
Proof.
  intros Hside. destruct r as [|p0 r]; [done|].
  unfold pointInPolygon. f_equal. cbn [fst snd].
  pose proof (last_elem_of p0 r) as Hlast.
  destruct Hside as [Hl|[Hr|[Ha|Hb]]].
  - rewrite rayCast_parity.
    + rewrite !last_cons_default. by rewrite xorb_nilpotent.
    + intros p q [->|Hp]%elem_of_cons [->|Hq]%elem_of_cons; apply crossing_left; auto.
  - apply rayCast_no_crossing.
    intros p q [->|Hp]%elem_of_cons [->|Hq]%elem_of_cons; apply crossing_right; auto.
  - apply rayCast_no_crossing.
    assert (∀ p, p ∈ p0 :: r → above y p = true) as Hab.
    { intros p Hp. apply Qlt_bool_iff. auto. }
    intros p q [->|Hp]%elem_of_cons [->|Hq]%elem_of_cons;
      apply crossing_same_side; rewrite !Hab; auto.
  - apply rayCast_no_crossing.
    assert (∀ p, p ∈ p0 :: r → above y p = false) as Hab.
    { intros p Hp. apply not_true_iff_false. unfold above. rewrite Qlt_bool_iff.
      specialize (Hb p Hp). lra. }
    intros p q [->|Hp]%elem_of_cons [->|Hq]%elem_of_cons;
      apply crossing_same_side; rewrite !Hab; auto.
Qed.

End rayCasting.

(** ** Bounding box *)

Lemma foldl_extendBox_bounds (vs : list point) (b : bbox) :
  let b' := foldl extendBox b vs in
  (minLon b' <= minLon b ∧ maxLon b <= maxLon b'
   ∧ minLat b' <= minLat b ∧ maxLat b <= maxLat b')%Q
  ∧ ∀ v, v ∈ vs →
      (minLon b' <= fst v ∧ fst v <= maxLon b' ∧ minLat b' <= snd v ∧ snd v <= maxLat b')%Q.
Proof.
  revert b. induction vs as [|p vs IH]; intros b; cbn [foldl].
  { split; [repeat split; apply Qle_refl|]. intros v Hv. by apply elem_of_nil in Hv. }
  destruct (IH (extendBox b p)) as [(H1 & H2 & H3 & H4) Hvs]. cbn [extendBox minLon maxLon minLat maxLat] in *.
  pose proof (Q.le_min_l (minLon b) (fst p)). pose proof (Q.le_min_r (minLon b) (fst p)).
  pose proof (Q.le_max_l (maxLon b) (fst p)). pose proof (Q.le_max_r (maxLon b) (fst p)).
  pose proof (Q.le_min_l (minLat b) (snd p)). pose proof (Q.le_min_r (minLat b) (snd p)).
  pose proof (Q.le_max_l (maxLat b) (snd p)). pose proof (Q.le_max_r (maxLat b) (snd p)).
  split; [repeat split; lra|].
  intros v [->|Hv]%elem_of_cons; [repeat split; lra | by apply Hvs].
Qed.

Lemma boundingBox_contains (g : Geometry) (b : bbox) (v : point) :
  boundingBox g = Some b → v ∈ vertices g →
  (minLon b <= fst v ∧ fst v <= maxLon b ∧ minLat b <= snd v ∧ snd v <= maxLat b)%Q.
Proof.
  unfold boundingBox. destruct (vertices g) as [|p vs]; [done|]. intros [= <-] Hv.
  destruct (foldl_extendBox_bounds vs
              {| minLon := fst p; maxLon := fst p; minLat := snd p; maxLat := snd p |})
    as [(H1 & H2 & H3 & H4) Hvs].
  cbn [minLon maxLon minLat maxLat] in *.
  apply elem_of_cons in Hv as [->|Hv]; [repeat split; lra | by apply Hvs].
Qed.

Lemma strictlyOutside_onOneSide (lon lat : Q) (g : Geometry) (b : bbox) (vs : list point) :
  boundingBox g = Some b → strictlyOutside lon lat b → vs ⊆ vertices g →
  onOneSide lon lat vs.
Proof.
  intros Hb Hout Hsub.
  assert (∀ v, v ∈ vs →
    (minLon b <= fst v ∧ fst v <= maxLon b ∧ minLat b <= snd v ∧ snd v <= maxLat b)%Q) as Hin.
  { intros v Hv. apply (boundingBox_contains g b v Hb). by apply Hsub. }
  unfold onOneSide.
  destruct Hout as [H|[H|[H|H]]]; [left | right; left | do 2 right; left | do 3 right];
    intros v Hv; specialize (Hin v Hv); lra.
Qed.

Lemma anyOuterRingContains_one_side (lon lat : Q) (polys : list (list ring)) :
  forallb (λ poly, bool_decide (poly ≠ [])) polys = true →
  (∀ poly r, poly ∈ polys → head poly = Some r → onOneSide lon lat r) →
  anyOuterRingContains (lon, lat) polys = Ok false.
Proof.
  induction polys as [|poly polys IH]; intros Hwf Hside; [done|].
  cbn [forallb] in Hwf. apply andb_true_iff in Hwf as [Hne%bool_decide_eq_true Hwf].
  destruct poly as [|r rs]; [done|]. cbn [anyOuterRingContains head].
  rewrite (pointInPolygon_one_side lon lat r) by (apply (Hside (r :: rs)); [left|done]).
  rewrite bind_Ok. apply IH; [done|]. intros poly' r' Hp. apply Hside. by right.
Qed.

(** The test read over the rationals, where no operation rounds: for a
    polygon or multipolygon whose parts all have an outer ring, and a point
    strictly outside the bounding box of its vertices, the test with
    tolerance 0 returns [false]. *)
Lemma pointInGeometry_outside_bbox (lon lat : Q) (g : Geometry) (b : bbox) :
  hasOuterRings g = true →
  boundingBox g = Some b →
  strictlyOutside lon lat b →
  pointInGeometry lon lat (js_obj g) 0 = Ok false.
Proof.
  intros Hwf Hb Hout. unfold pointInGeometry.
  assert (Qlt_bool 0 0 = false) as -> by done.
  destruct g as [coordinates|coordinates|type]; cbn [hasOuterRings] in Hwf.
  - apply bool_decide_eq_true in Hwf. destruct coordinates as [|r rs]; [done|].
    cbn [head]. rewrite (pointInPolygon_one_side lon lat r); [done|].
    apply (strictlyOutside_onOneSide lon lat _ b r Hb Hout).
    intros v Hv. cbn [vertices concat]. apply elem_of_app. by left.
  - rewrite anyOuterRingContains_one_side; [done..|].
    intros poly r Hpoly Hr. apply (strictlyOutside_onOneSide lon lat _ b r Hb Hout).
    intros v Hv. cbn [vertices]. destruct poly as [|r' rs]; [done|]. injection Hr as ->.
    apply list_elem_of_In, in_concat. exists r. split; [|by apply list_elem_of_In].
    apply in_concat. exists (r :: rs). split; [by apply list_elem_of_In | by left].
  - done.
Qed.

(** ** The point test in double precision *)

(** The order of the doubles is asymmetric. *)
Lemma SFltb_asym (a b : spec_float) : SFltb a b = true → SFltb b a = false.
Proof.
  unfold SFltb, SFcompare.
  destruct a as [sa| sa| |sa ma ea], b as [sb| sb| |sb mb eb];
    try destruct sa; try destruct sb; try done.
  - rewrite (Z.compare_antisym ea eb). destruct (ea ?= eb)%Z eqn:He; cbn [CompOpp]; try done.
    rewrite !Pos.compare_cont_spec. cbn [Pos.switch_Eq].
    rewrite (Pos.compare_antisym ma mb). by destruct (ma ?= mb)%positive.
  - rewrite (Z.compare_antisym ea eb). destruct (ea ?= eb)%Z eqn:He; cbn [CompOpp]; try done.
    rewrite !Pos.compare_cont_spec. cbn [Pos.switch_Eq].
    rewrite (Pos.compare_antisym ma mb). by destruct (ma ?= mb)%positive.
Qed.

Lemma ltb_asym (a b : float) : (a <? b)%float = true → (b <? a)%float = false.
Proof. rewrite !ltb_spec. apply SFltb_asym. Qed.

Section doubleRayCasting.
Context (x y : float).

(** An edge whose end points give the same answer to [yi > y] is not
    counted, whatever the abscissa. *)
Lemma double_crossing_same_side (pi pj : Doubles.point) :
  (y <? snd pi)%float = (y <? snd pj)%float → Doubles.crossing x y pi pj = false.
Proof.
  destruct pi as [xi yi], pj as [xj yj]. unfold Doubles.crossing. cbn [snd].
  intros ->. by rewrite xorb_nilpotent.
Qed.

Lemma double_rayCast_same_side (b : bool) (pj : Doubles.point) (rest : list Doubles.point)
    (inside : bool) :
  (y <? snd pj)%float = b → Forall (λ p, (y <? snd p)%float = b) rest →
  Doubles.rayCast x y pj rest inside = inside.
Proof.
  intros Hj Hrest. revert pj Hj inside.
  induction Hrest as [|pi rest Hi _ IH]; intros pj Hj inside; [done|].
  cbn [Doubles.rayCast]. rewrite double_crossing_same_side by congruence. by apply IH.
Qed.

Lemma double_pointInPolygon_same_side (b : bool) (r : Doubles.ring) :
  Forall (λ p, (y <? snd p)%float = b) r → Doubles.pointInPolygon (x, y) (Some r) = Ok false.
Proof.
  intros Hr. destruct r as [|p0 r]; [done|].
  unfold Doubles.pointInPolygon. f_equal. cbn [fst snd].
  apply (double_rayCast_same_side b); [|done].
  rewrite Forall_forall in Hr. apply Hr.
  apply list_elem_of_In. destruct (exists_last (l := p0 :: r)) as (l' & a & Heq); [done|].
  rewrite Heq, last_last. apply in_or_app. right. by left.
Qed.

End doubleRayCasting.

Lemma outside_latitudes_same_side (lat : float) (vs : list Doubles.point) :
  Doubles.southOf lat vs = true ∨ Doubles.northOf lat vs = true →
  ∃ b, Forall (λ p, (lat <? snd p)%float = b) vs.
Proof.
  intros [Hs|Hn].
  - exists true. apply Forall_forall. intros p Hp%list_elem_of_In.
    unfold Doubles.southOf in Hs. rewrite forallb_forall in Hs. by apply Hs.
  - exists false. apply Forall_forall. intros p Hp%list_elem_of_In.
    unfold Doubles.northOf in Hn. rewrite forallb_forall in Hn. by apply ltb_asym, Hn.
Qed.

Lemma double_anyOuterRingContains_same_side (lon lat : float) (b : bool)
    (polys : list (list Doubles.ring)) :
  forallb (λ poly, bool_decide (poly ≠ [])) polys = true →
  Forall (λ p, (lat <? snd p)%float = b) (concat (concat polys)) →
  Doubles.anyOuterRingContains (lon, lat) polys = Ok false.
Proof.
  induction polys as [|poly polys IH]; intros Hwf Hside; [done|].
  cbn [forallb] in Hwf. apply andb_true_iff in Hwf as [Hne%bool_decide_eq_true Hwf].
  destruct poly as [|r rs]; [done|]. cbn [Doubles.anyOuterRingContains head].
  rewrite concat_cons, concat_app, concat_cons in Hside.
  apply Forall_app in Hside as [[Hr _]%Forall_app Hside].
  rewrite (double_pointInPolygon_same_side lon lat b r Hr), bind_Ok. by apply IH.
Qed.

(** C8, on the code: a point strictly east of every vertex of a triangle, by
    one unit in the last place of its longitude, for which the test returns
    [true]; and the mirror image, strictly west of every vertex.  The
    abscissa at which the slanted edge meets the horizontal of the point is
    rounded beyond the corner of the triangle.  Besides, a part without an
    outer ring makes the test raise, wherever the point is. *)
Lemma pointInGeometry_true_beside_bbox :
  (Doubles.hasOuterRings Doubles.triangle = true
   ∧ Doubles.eastOf Doubles.afterTenth (Doubles.vertices Doubles.triangle) = true
   ∧ Doubles.pointInGeometry Doubles.afterTenth 0 (js_obj Doubles.triangle) = Ok true)
  ∧ (Doubles.hasOuterRings Doubles.mirrored = true
     ∧ Doubles.westOf (- Doubles.afterTenth) (Doubles.vertices Doubles.mirrored) = true
     ∧ Doubles.pointInGeometry (- Doubles.afterTenth) 0 (js_obj Doubles.mirrored) = Ok true)
  ∧ (Doubles.northOf 2 (Doubles.vertices Doubles.missingRing) = true
     ∧ Doubles.pointInGeometry 0 2 (js_obj Doubles.missingRing) = Throw TypeError).
Proof. vm_compute. by split_and!. Qed.

(** C8, amended: for a polygon or multipolygon whose parts all have an outer
    ring, and a point whose latitude is strictly less than the latitudes of
    all the vertices, or strictly greater than them all, the test at
    tolerance 0 returns [false]. *)
Theorem pointInGeometry_outside_latitudes (lon lat : float) (g : Doubles.Geometry) :
  Doubles.hasOuterRings g = true →
  Doubles.southOf lat (Doubles.vertices g) = true
  ∨ Doubles.northOf lat (Doubles.vertices g) = true →
  Doubles.pointInGeometry lon lat (js_obj g) = Ok false.
Proof.
  intros Hwf Hout. destruct (outside_latitudes_same_side lat _ Hout) as [b Hside].
  unfold Doubles.pointInGeometry.
  destruct g as [coordinates|coordinates|type];
    cbn [Doubles.hasOuterRings Doubles.vertices] in Hwf, Hside.
  - apply bool_decide_eq_true in Hwf. destruct coordinates as [|r rs]; [done|].
    cbn [head concat] in *. apply Forall_app in Hside as [Hr _].
    by rewrite (double_pointInPolygon_same_side lon lat b r Hr).
  - by rewrite (double_anyOuterRingContains_same_side lon lat b coordinates Hwf Hside).
  - done.
Qed.

(** ** Stable sorting by a key *)

Section sortBy.
Context {A : Type} (key : A → Z).

Lemma insertBy_Permutation (x : A) (l : list A) : insertBy key x l ≡ₚ x :: l.
Proof.
  induction l as [|y l IH]; [done|]. simpl. destruct (key y <? key x); [|done].
  rewrite IH. apply Permutation_swap.
Qed.

Lemma sortBy_Permutation (l : list A) : sortBy key l ≡ₚ l.
Proof.
  induction l as [|x l IH]; [done|]. unfold sortBy in *. simpl.
  by rewrite insertBy_Permutation, IH.
Qed.

Lemma insertBy_sorted (x : A) (l : list A) :
  StronglySorted (keyLe key) l → StronglySorted (keyLe key) (insertBy key x l).
Proof.
  induction 1 as [|y l Hs IH Hy]; simpl.
  { repeat constructor. }
  destruct (Z.ltb_spec (key y) (key x)) as [Hlt|Hge].
  - constructor; [done|]. rewrite insertBy_Permutation. constructor; [|done].
    unfold keyLe. lia.
  - constructor; [by constructor|]. constructor; [done|].
    eapply Forall_impl; [exact Hy|]. unfold keyLe. intros z Hz. lia.
Qed.

Lemma sortBy_sorted (l : list A) : StronglySorted (keyLe key) (sortBy key l).
Proof.
  induction l as [|x l IH]; [constructor|]. by apply insertBy_sorted.
Qed.

Lemma insertBy_least (x : A) (l : list A) :
  Forall (keyLe key x) l → insertBy key x l = x :: l.
Proof.
  destruct 1 as [|y l Hy _]; [done|]. simpl. unfold keyLe in Hy.
  destruct (Z.ltb_spec (key y) (key x)); [lia|done].
Qed.

Lemma filter_insertBy (P : A → bool) (x : A) (l : list A) :
  StronglySorted (keyLe key) l →
  List.filter P (insertBy key x l) =
  if P x then insertBy key x (List.filter P l) else List.filter P l.
Proof.
  induction 1 as [|y l Hs IH Hy]; simpl.
  { by destruct (P x). }
  destruct (Z.ltb_spec (key y) (key x)) as [Hlt|Hge]; simpl.
  - rewrite IH. destruct (P y), (P x); simpl; try done.
    destruct (Z.ltb_spec (key y) (key x)); [done|lia].
  - destruct (P x); [|done]. f_equal. symmetry. apply insertBy_least.
    assert (Forall (keyLe key x) (y :: l)) as Hall.
    { constructor; [done|]. eapply Forall_impl; [exact Hy|].
      unfold keyLe. intros z Hz. lia. }
    apply Forall_forall. intros z Hz%list_elem_of_In.
    change (In z (List.filter P (y :: l))) in Hz. apply filter_In in Hz as [Hz _].
    rewrite Forall_forall in Hall. by apply Hall, list_elem_of_In.
Qed.

(** Filtering commutes with the stable sort. *)
Lemma filter_sortBy (P : A → bool) (l : list A) :
  List.filter P (sortBy key l) = sortBy key (List.filter P l).
Proof.
  induction l as [|x l IH]; [done|].
  change (sortBy key (x :: l)) with (insertBy key x (sortBy key l)).
  rewrite filter_insertBy by apply sortBy_sorted. simpl.
  destruct (P x); [|done]. by rewrite IH.
Qed.




End sortBy.

(** ** Location history *)

Lemma collectStep_skip (colorOf : string → string) (lon lat : Q) (p : polity)
    (h : list historyEntry) (seen : gset (string * Z * Z)) :
  startsWith "("%char (Name p) = true →
  collectStep colorOf lon lat (h, seen) p = Ok (h, seen).
Proof. intros Hp. unfold collectStep. by rewrite Hp. Qed.

Lemma collectStep_test (colorOf : string → string) (lon lat : Q) (p : polity)
    (h : list historyEntry) (seen : gset (string * Z * Z)) (b : bool) :
  startsWith "("%char (Name p) = false →
  pointInGeometry lon lat (geometry p) 0 = Ok b →
  collectStep colorOf lon lat (h, seen) p =
  Ok (if b && negb (bool_decide (historyKey p ∈ seen))
      then (h ++ [entryOf colorOf p], {[historyKey p]} ∪ seen)
      else (h, seen)).
Proof.
  intros Hp Hb. unfold collectStep. rewrite Hp, Hb, bind_Ok.
  by destruct b, (bool_decide (historyKey p ∈ seen)).
Qed.

Lemma collect_spec (colorOf : string → string) (lon lat : Q) (l : list polity)
    (h : list historyEntry) (seen : gset (string * Z * Z)) :
  testable lon lat l →
  ∃ seen',
    for_of (collectStep colorOf lon lat) l (h, seen) =
    Ok (h ++ map (entryOf colorOf) (dedupe (List.filter (containsPoint lon lat) l) seen),
        seen').
Proof.
  revert h seen. induction l as [|p l IH]; intros h seen Ht.
  { exists seen. simpl. by rewrite app_nil_r. }
  assert (testable lon lat l) as Ht' by (intros q Hq; apply Ht; by right).
  rewrite for_of_cons. cbn [List.filter]. unfold containsPoint at 1.
  destruct (startsWith "(" (Name p)) eqn:Hp; cbn [negb andb].
  { rewrite collectStep_skip, bind_Ok by done. by apply IH. }
  destruct (Ht p) as [b Hb]; [by left|done|].
  rewrite (collectStep_test _ _ _ _ _ _ b Hp Hb), bind_Ok, Hb.
  destruct b; cbn [andb]; [|by apply IH].
  cbn [dedupe]. destruct (bool_decide (historyKey p ∈ seen)); cbn [negb].
  - by apply IH.
  - destruct (IH (h ++ [entryOf colorOf p]) ({[historyKey p]} ∪ seen) Ht') as [seen' ->].
    exists seen'. cbn [map]. by rewrite <- app_assoc.
Qed.

(** The history as a pure pipeline: filter, sort, drop repeated keys, sort
    again, merge. *)
Lemma getLocationHistory_pure (st : state) (lon lat : Q) :
  testable lon lat (allPolities st) →
  getLocationHistory st lon lat =
  Ok (foldl mergeStep []
        (sortBy h_fromYear
           (map (entryOf (getColor st))
              (dedupe (sortBy FromYear (List.filter (containsPoint lon lat) (allPolities st)))
                      ∅)))).
Proof.
  intros Ht. unfold getLocationHistory.
  destruct (collect_spec (getColor st) lon lat (sortBy FromYear (allPolities st)) [] ∅)
    as [seen' ->].
  { intros p Hp. apply Ht. by rewrite <- (sortBy_Permutation FromYear (allPolities st)). }
  rewrite bind_Ok. cbn [app]. by rewrite filter_sortBy.
Qed.

(** ** The [seen] set *)





(** ** Merging of consecutive history entries *)


Lemma mergeStep_snoc (ms : list historyEntry) (l e : historyEntry) :
  mergeStep (ms ++ [l]) e =
  if String.eqb (h_name l) (h_name e) && (h_fromYear e <=? h_toYear l + 5)
  then ms ++ [widen l e]
  else ms ++ [l; e].
Proof.
  unfold mergeStep. rewrite last_snoc, removelast_last.
  destruct (String.eqb (h_name l) (h_name e) && (h_fromYear e <=? h_toYear l + 5));
    [done|]. by rewrite <- app_assoc.
Qed.

Lemma nonempty_snoc {A : Type} (l : list A) : l ≠ [] → ∃ l' x, l = l' ++ [x].
Proof.
  intros Hne. destruct (exists_last Hne) as (l' & x & ->). eauto.
Qed.
















(** ** Missing and degenerate geometry *)

Lemma emptyOuterRing_head (poly : list ring) :
  emptyOuterRing poly = true → head poly = Some [].
Proof. by destruct poly as [|[|??] ?]. Qed.

Lemma emptyParts_Forall (polys : list (list ring)) :
  forallb emptyOuterRing polys = true → Forall (λ poly, head poly = Some []) polys.
Proof.
  intros Hempty. apply Forall_forall. intros poly Hp%list_elem_of_In.
  rewrite forallb_forall in Hempty. by apply emptyOuterRing_head, Hempty.
Qed.

Lemma emptyParts_contains (pt : point) (polys : list (list ring)) :
  Forall (λ poly, head poly = Some []) polys → anyOuterRingContains pt polys = Ok false.
Proof.
  induction 1 as [|poly l Hp _ IH]; [done|].
  cbn [anyOuterRingContains]. by rewrite Hp.
Qed.

Lemma emptyParts_distance (lon lat : Q) (polys : list (list ring)) :
  Forall (λ poly, head poly = Some []) polys →
  distanceToGeometryEdge lon lat (MultiPolygon polys) = Ok None.
Proof.
  unfold distanceToGeometryEdge.
  induction 1 as [|poly l Hp _ IH]; [done|].
  rewrite for_of_cons, Hp. exact IH.
Qed.

Lemma emptyParts_largest (polys : list (list ring)) :
  Forall (λ poly, head poly = Some []) polys →
  largestOuterRing (MultiPolygon polys) = Ok None.
Proof.
  intros Hall. unfold largestOuterRing.
  assert (for_of largerPart polys (0%Q, None) = Ok (0%Q, None)) as ->.
  { induction Hall as [|poly l Hp _ IH]; [done|].
    rewrite for_of_cons.
    assert (largerPart (0%Q, None) poly = Ok (0%Q, None)) as ->; [|exact IH].
    unfold largerPart. by rewrite Hp. }
  done.
Qed.

(** C9, on the code: a [null] or [undefined] geometry makes both functions
    raise, and so does a polygon whose coordinate list is empty in
    [pointInGeometry]. *)
Lemma missing_geometry_raises :
  pointInGeometry 0 0 js_null 0 = Throw TypeError
  ∧ pointInGeometry 0 0 js_undefined 0 = Throw TypeError
  ∧ getCentroid js_null = Throw TypeError
  ∧ getCentroid js_undefined = Throw TypeError
  ∧ pointInGeometry 0 0 (js_obj (Polygon [])) 0 = Throw TypeError
  ∧ ¬ (pointInGeometry 0 0 js_null 0 = Ok false ∧ getCentroid js_null = Ok None).
Proof. split_and!; try reflexivity. intros [H _]. discriminate H. Qed.

(** C9, amended: on a geometry object without positions to test,
    [pointInGeometry] returns [false] at every tolerance and [getCentroid]
    returns [null]; neither raises. *)
Theorem degenerate_geometry_no_answer (lon lat tolerance : Q) (g : Geometry) :
  noPositions g = true →
  pointInGeometry lon lat (js_obj g) tolerance = Ok false
  ∧ getCentroid (js_obj g) = Ok None.
Proof.
  intros Hg. destruct g as [coordinates|coordinates|type]; cbn [noPositions] in Hg.
  - apply emptyOuterRing_head in Hg. unfold pointInGeometry, getCentroid.
    cbn [largestOuterRing distanceToGeometryEdge]. rewrite Hg. cbn.
    by destruct (Qlt_bool 0 tolerance).
  - unfold pointInGeometry, getCentroid.
    apply emptyParts_Forall in Hg.
    rewrite (emptyParts_contains _ coordinates Hg), (emptyParts_distance _ _ coordinates Hg),
      (emptyParts_largest coordinates Hg).
    cbn. by destruct (Qlt_bool 0 tolerance).
  - unfold pointInGeometry, getCentroid. cbn. by destruct (Qlt_bool 0 tolerance).
Qed.

(** ** Worked scenarios *)

Lemma foundingYear_twoFragments :
  ∃ y, polityFoundingYears (loadAllData plainColor twoFragments [] []) !! "Rome" = Some y
       ∧ y ≤ -500 ∧ y ≤ 0.
Proof.
  destruct (foundingYear_is_minimum plainColor twoFragments [] [] "Rome")
    as (y & Hy & Hmin & _).
  - reflexivity.
  - exists (fragment "Rome" (-500) (-100) 1000). split; [left|reflexivity].
  - exists y. split; [exact Hy|]. split.
    + apply (Hmin (fragment "Rome" (-500) (-100) 1000)); [left|reflexivity].
    + apply (Hmin (fragment "Rome" 0 100 3000)); [right; left|reflexivity].
Defined.

Lemma pointInGeometry_outside_square :
  pointInGeometry 5 1 (js_obj square) 0 = Ok false.
Proof.
  apply (pointInGeometry_outside_bbox 5 1 square
           {| minLon := 0; maxLon := 4; minLat := 0; maxLat := 4 |}).
  - reflexivity.
  - vm_compute. reflexivity.
  - right. left. vm_compute. reflexivity.
Defined.

Lemma pointInGeometry_north_and_south_of_triangle :
  Doubles.pointInGeometry Doubles.afterTenth 2 (js_obj Doubles.triangle) = Ok false
  ∧ Doubles.pointInGeometry Doubles.afterTenth (-1) (js_obj Doubles.triangle) = Ok false.
Proof.
  split.
  - apply (pointInGeometry_outside_latitudes Doubles.afterTenth 2 Doubles.triangle).
    + reflexivity.
    + right. vm_compute. reflexivity.
  - apply (pointInGeometry_outside_latitudes Doubles.afterTenth (-1) Doubles.triangle).
    + reflexivity.
    + left. vm_compute. reflexivity.
Defined.

Lemma degenerate_geometry_examples :
  pointInGeometry 0 0 (js_obj (OtherGeometry "Point")) (3 # 20) = Ok false
  ∧ getCentroid (js_obj (OtherGeometry "Point")) = Ok None.
Proof.
  apply (degenerate_geometry_no_answer 0 0 (3 # 20) (OtherGeometry "Point")).
  reflexivity.
Defined.


(** Scenario D from end to end: the earlier realm, then one merged interval
    for the two fragments of "Kingdom X". *)
Example history_scenarioD_full :
  match getLocationHistory scenarioD 1 1 with
  | Ok h => map interval h
  | Throw _ => []
  end = [("Earlier Realm", 0, 90); ("Kingdom X", 100, 200)].
Proof. vm_compute. reflexivity. Qed.

(** ** Filters, first and last matches *)

Lemma filter_nil_iff {A} (P : A → bool) (l : list A) :
  List.filter P l = [] ↔ ∀ x, x ∈ l → P x = false.
Proof.
  induction l as [|a l IH]; simpl.
  - split; [|done]. intros _ x Hx. by apply elem_of_nil in Hx.
  - destruct (P a) eqn:E.
    + split; [done|]. intros H. specialize (H a (list_elem_of_here _ _)). congruence.
    + rewrite IH. split.
      * intros H x [->|Hx]%elem_of_cons; auto.
      * intros H x Hx. apply H. by right.
Qed.

Lemma filter_all {A} (P : A → bool) (l : list A) :
  (∀ x, x ∈ l → P x = true) → List.filter P l = l.
Proof.
  induction l as [|a l IH]; intros H; [done|]. simpl.
  rewrite (H a) by left. f_equal. apply IH. intros x Hx. apply H. by right.
Qed.

Lemma head_filter_elem {A} (P : A → bool) (l : list A) (x : A) :
  head (List.filter P l) = Some x → x ∈ l ∧ P x = true.
Proof.
  intros H. assert (x ∈ List.filter P l) as Hin.
  { destruct (List.filter P l); [done|]. injection H as ->. left. }
  apply list_elem_of_In, filter_In in Hin as [Hin ?]. by apply list_elem_of_In in Hin.
Qed.

Lemma last_filter_elem {A} (P : A → bool) (l : list A) (x : A) :
  last (List.filter P l) = Some x → x ∈ l ∧ P x = true.
Proof.
  intros H. assert (x ∈ List.filter P l) as Hin.
  { apply last_Some in H as [l' ->]. apply elem_of_app. right. left. }
  apply list_elem_of_In, filter_In in Hin as [Hin ?]. by apply list_elem_of_In in Hin.
Qed.

(** ** The resolver: the scan, the prehistoric tier and the decay *)

Lemma scanYears_future_aux year (l : list Z) (p f : option Z) :
  (foldl (λ '(pastYear, futureYear) y,
            (if y <? year then Some y else pastYear,
             if (year <? y) && bool_decide (futureYear = None) then Some y else futureYear))
         (p, f) l).2 = futureOf year l f.
Proof.
  revert p f. induction l as [|y l IH]; intros p f; [done|].
  simpl. apply IH.
Qed.

Lemma scanYears_future year (l : list Z) : (scanYears year l).2 = futureOf year l None.
Proof. apply scanYears_future_aux. Qed.

Lemma futureOf_Some year (l : list Z) (m : Z) : futureOf year l (Some m) = Some m.
Proof.
  induction l as [|y l IH]; [done|].
  unfold futureOf in *. simpl. by rewrite andb_false_r.
Qed.

(** The scan keeps the first later year, the last earlier one. *)
Lemma futureOf_head year (l : list Z) :
  futureOf year l None = head (List.filter (λ y, year <? y) l).
Proof.
  induction l as [|y l IH]; [done|].
  unfold futureOf in *. simpl. destruct (year <? y); simpl; [|done].
  apply futureOf_Some.
Qed.

Lemma pastOf_last year (l : list Z) (p : option Z) :
  pastOf year l p = from_option Some p (last (List.filter (λ y, y <? year) l)).
Proof.
  revert p. induction l as [|y l IH]; intros p; [done|].
  unfold pastOf in *. simpl. rewrite IH. destruct (y <? year); simpl; [|done].
  rewrite last_cons. by destruct (last _).
Qed.

(** X1: for a city with a population series, the resolver answers
    [null] exactly when the year is before the city's minimum year or the
    series is empty; in every other case it returns a record. *)
Theorem resolver_null_iff (name : string) (coords : Q * Q) (pops : gmap Z Z) (minY year : Z) :
  getPopulationForYear (City name coords (Some pops) minY) year = Ok None
  ↔ year < minY ∨ pops = ∅.
Proof.
  unfold getPopulationForYear. simpl.
  destruct (Z.ltb_spec year minY) as [Hlt|Hge].
  { split; [by left | done]. }
  destruct (pops !! year) as [v|] eqn:Hy.
  { split; [done|]. intros [?| ->]; [lia|]. by rewrite lookup_empty in Hy. }
  destruct (scanYears year (sortedYears pops)) as [past fut] eqn:Hs.
  assert (past = pastOf year (sortedYears pops) None) as Hp by (by rewrite <- scanYears_past, Hs).
  assert (fut = futureOf year (sortedYears pops) None) as Hf by (by rewrite <- scanYears_future, Hs).
  rewrite pastOf_last in Hp. rewrite futureOf_head in Hf.
  destruct past as [py|].
  { split; [done|]. intros [?| ->]; [lia|]. exfalso.
    destruct (last _) as [z|] eqn:E; [|done].
    apply last_filter_elem in E as [E _]. apply elem_of_sortedYears in E as [? E].
    by rewrite lookup_empty in E. }
  destruct fut as [fy|].
  { split; [done|]. intros [?| ->]; [lia|]. exfalso.
    symmetry in Hf. apply head_filter_elem in Hf as [E _].
    apply elem_of_sortedYears in E as [? E]. by rewrite lookup_empty in E. }
  split; [|done]. intros _. right. apply map_empty. intros k.
  destruct (pops !! k) as [v|] eqn:Hk; [|done]. exfalso.
  assert (k ∈ sortedYears pops) as Hin by (apply elem_of_sortedYears; eauto).
  destruct (last _) as [z|] eqn:E; [done|]. apply last_None in E.
  symmetry in Hf. apply head_None in Hf.
  rewrite filter_nil_iff in E, Hf. specialize (E k Hin). specialize (Hf k Hin).
  simpl in *. assert (k = year) as -> by lia. congruence.
Qed.

Lemma futureOf_sorted year (l : list Z) (f : Z) :
  StronglySorted Z.le l →
  f ∈ l → year < f →
  (∀ k, k ∈ l → year < k → f ≤ k) →
  futureOf year l None = Some f.
Proof.
  rewrite futureOf_head. intros Hs. induction Hs as [|y l Hs IH Hy]; intros Hf Hlt Hmin.
  { by apply elem_of_nil in Hf. }
  simpl. destruct (Z.ltb_spec year y) as [Hy'|Hy'].
  - simpl. f_equal. apply elem_of_cons in Hf as [->|Hf]; [done|].
    rewrite Forall_forall in Hy. specialize (Hy f Hf).
    specialize (Hmin y (list_elem_of_here _ _) Hy'). lia.
  - apply IH; [|done|].
    + apply elem_of_cons in Hf as [->|Hf]; [lia|done].
    + intros k Hk. apply Hmin. by right.
Qed.

Lemma pastOf_None year (l : list Z) :
  (∀ k, k ∈ l → year ≤ k) → pastOf year l None = None.
Proof.
  intros H. rewrite pastOf_last.
  assert (List.filter (λ y, y <? year) l = []) as ->; [|done].
  apply filter_nil_iff. intros k Hk. specialize (H k Hk). simpl. lia.
Qed.

(** X2: whenever the resolver returns a record, its source year is
    a year of the series; the status is [recorded] exactly when the source
    year is the query year, [prehistoric] exactly when the source year lies
    after it, and the gap is absent for a recorded value and otherwise the
    distance between the query year and the source year. *)
Theorem resolver_source_attested (c : city) (pops : gmap Z Z) (year : Z) (d : popData) :
  populations c = Some pops →
  getPopulationForYear c year = Ok (Some d) →
  is_Some (pops !! srcYear d)
  ∧ (status d = recorded ↔ srcYear d = year)
  ∧ (status d = prehistoric ↔ year < srcYear d)
  ∧ gap d = (if decide (srcYear d = year) then None else Some (Z.abs (year - srcYear d))).
Proof.
  intros Hp. unfold getPopulationForYear. rewrite Hp.
  destruct (year <? minYear c); [done|].
  destruct (pops !! year) as [v|] eqn:Hy.
  { intros [= <-]. simpl. rewrite decide_True by done.
    split_and!; [by rewrite Hy | done | split; [done | lia] | done]. }
  destruct (scanYears year (sortedYears pops)) as [past fut] eqn:Hs.
  assert (past = pastOf year (sortedYears pops) None) as Hpast
    by (by rewrite <- scanYears_past, Hs).
  assert (fut = futureOf year (sortedYears pops) None) as Hfut
    by (by rewrite <- scanYears_future, Hs).
  rewrite pastOf_last in Hpast. rewrite futureOf_head in Hfut.
  destruct past as [py|].
  - destruct (last _) as [z|] eqn:E; [|done]. simpl in Hpast. injection Hpast as ->.
    apply last_filter_elem in E as [E Hlt]. apply elem_of_sortedYears in E.
    apply Z.ltb_lt in Hlt. intros [= <-]. simpl.
    rewrite decide_False by lia. rewrite Z.abs_eq by lia.
    split_and!; [done| | |done].
    + split; [|lia]. by repeat case_match.
    + split; [|lia]. by repeat case_match.
  - destruct fut as [fy|]; [|done].
    symmetry in Hfut. apply head_filter_elem in Hfut as [E Hlt].
    apply elem_of_sortedYears in E. apply Z.ltb_lt in Hlt. intros [= <-]. simpl.
    rewrite decide_False by lia. rewrite Z.abs_neq by lia.
    split_and!; [done| split; [done | lia] | done | f_equal; lia].
Qed.

(** X3: a query at or after the minimum year but before the first
    attested year is answered from that first year: half of its value
    (rounded down) with a floor of 500, status [prehistoric], and the gap up
    to that year. *)
Theorem resolver_prehistoric (c : city) (pops : gmap Z Z) (year futureYear v : Z) :
  populations c = Some pops →
  minYear c ≤ year →
  pops !! futureYear = Some v →
  year < futureYear →
  (∀ k, is_Some (pops !! k) → futureYear ≤ k) →
  getPopulationForYear c year =
    Ok (Some {| pop := Z.max 500 (v / 2); srcYear := futureYear; status := prehistoric;
                gap := Some (futureYear - year) |}).
Proof.
  intros Hp Hmin Hv Hlt Hfirst.
  assert (pops !! year = None) as Hnone.
  { destruct (pops !! year) eqn:E; [|done]. specialize (Hfirst year). rewrite E in Hfirst.
    specialize (Hfirst (mk_is_Some _ _ eq_refl)). lia. }
  assert (Hscan : scanYears year (sortedYears pops) = (None, Some futureYear)).
  { rewrite (surjective_pairing (scanYears _ _)), scanYears_past, scanYears_future. f_equal.
    - apply pastOf_None. intros k Hk%elem_of_sortedYears. specialize (Hfirst k Hk). lia.
    - apply futureOf_sorted; [apply sortedYears_sorted| |done|].
      + apply elem_of_sortedYears. eauto.
      + intros k Hk%elem_of_sortedYears _. by apply Hfirst. }
  unfold getPopulationForYear. rewrite Hp.
  destruct (Z.ltb_spec year (minYear c)) as [?|_]; [lia|].
  rewrite Hnone, Hscan. unfold popAt. by rewrite Hv.
Qed.

Lemma decay_factor_le (n m : Z) : n ≤ m → ((999 # 1000) ^ m <= (999 # 1000) ^ n)%Q.
Proof.
  intros Hnm.
  assert (∀ k, (999 # 1000) ^ k == / ((1000 # 999) ^ k))%Q as E.
  { intros k. rewrite <- Qinv_power. reflexivity. }
  rewrite !E.
  assert (∀ k, 0 < (1000 # 999) ^ k)%Q as Hpos by (intros k; by apply Qpower_0_lt).
  assert ((1000 # 999) ^ n <= (1000 # 999) ^ m)%Q as Hle
    by (apply Qpower_le_compat_l; [done|]; by apply Qle_bool_imp_le).
  pose proof (Hpos n) as Hn. pose proof (Hpos m) as Hm.
  apply Qle_shift_inv_l; [done|]. 
  rewrite Qmult_comm. apply (Qle_shift_div_r _ _ 1); [done|]. by rewrite Qmult_1_l.
Qed.

Lemma decayed_bounds (v g : Z) : 0 ≤ v → 500 ≤ g → 1000 ≤ decayed v g ≤ Z.max 1000 v.
Proof.
  intros Hv Hg. unfold decayed. split; [lia|].
  apply Z.max_le_compat_l. rewrite <- (Qfloor_Z v) at 2. apply Qfloor_resp_le.
  pose proof (decay_factor_le 0 (g - 500) ltac:(lia)) as Hle. change ((999 # 1000) ^ 0)%Q with 1%Q in Hle.
  assert (0 <= inject_Z v)%Q as Hv' by (change 0%Q with (inject_Z 0); by rewrite <- Zle_Qle).
  nra.
Qed.

Lemma decayed_antitone (v g g' : Z) : 0 ≤ v → g ≤ g' → decayed v g' ≤ decayed v g.
Proof.
  intros Hv Hg. unfold decayed. apply Z.max_le_compat_l, Qfloor_resp_le.
  pose proof (decay_factor_le (g - 500) (g' - 500) ltac:(lia)) as Hle.
  assert (0 <= inject_Z v)%Q as Hv' by (change 0%Q with (inject_Z 0); by rewrite <- Zle_Qle).
  nra.
Qed.

Lemma resolver_past_scan (c : city) (pops : gmap Z Z) (year pastYear v : Z) :
  populations c = Some pops →
  pops !! year = None →
  minYear c ≤ year →
  pops !! pastYear = Some v →
  pastYear < year →
  (∀ k, is_Some (pops !! k) → k < year → k ≤ pastYear) →
  getPopulationForYear c year =
    Ok (Some {| pop := if 500 <? year - pastYear then decayed v (year - pastYear) else v;
                srcYear := pastYear;
                status := if year - pastYear <=? 50 then interpolated
                          else if year - pastYear <=? 200 then estimated else projected;
                gap := Some (year - pastYear) |}).
Proof.
  intros Hp Hnone Hmin Hv Hlt Hmax.
  assert (Hscan : (scanYears year (sortedYears pops)).1 = Some pastYear).
  { rewrite scanYears_past. apply pastOf_sorted; [apply sortedYears_sorted| |done|].
    - apply elem_of_sortedYears. eauto.
    - intros k Hk. apply Hmax. by apply elem_of_sortedYears. }
  unfold getPopulationForYear. rewrite Hp.
  destruct (Z.ltb_spec year (minYear c)) as [?|_]; [lia|].
  rewrite Hnone. destruct (scanYears year (sortedYears pops)) as [past fut].
  simpl in Hscan. subst past. unfold popAt. by rewrite Hv.
Qed.

(** X4: more than 500 years after the last attested year the
    resolver still answers from that year, with status [projected], and the
    decayed population stays between 1000 and the larger of 1000 and the
    recorded value. *)
Theorem resolver_decay_bounds (c : city) (pops : gmap Z Z) (year pastYear v : Z) :
  populations c = Some pops →
  pops !! year = None →
  minYear c ≤ year →
  pops !! pastYear = Some v →
  (∀ k, is_Some (pops !! k) → k < year → k ≤ pastYear) →
  500 < year - pastYear →
  0 ≤ v →
  ∃ p, getPopulationForYear c year =
         Ok (Some {| pop := p; srcYear := pastYear; status := projected;
                     gap := Some (year - pastYear) |})
       ∧ 1000 ≤ p ≤ Z.max 1000 v.
Proof.
  intros Hp Hnone Hmin Hv Hmax Hgap Hv0.
  rewrite (resolver_past_scan c pops year pastYear v) by (done || lia).
  destruct (Z.ltb_spec 500 (year - pastYear)) as [_|?]; [|lia].
  destruct (Z.leb_spec (year - pastYear) 50) as [?|_]; [lia|].
  destruct (Z.leb_spec (year - pastYear) 200) as [?|_]; [lia|].
  eexists. split; [done|]. apply decayed_bounds; lia.
Qed.

(** X5: in the decay regime (more than 500 years after the last
    attested year, no attested year in between) a later query year never
    gets a larger population than an earlier one. *)
Theorem resolver_decay_antitone (c : city) (pops : gmap Z Z) (year year' pastYear v : Z)
    (d d' : popData) :
  populations c = Some pops →
  minYear c ≤ year →
  pops !! pastYear = Some v →
  0 ≤ v →
  500 < year - pastYear →
  year ≤ year' →
  (∀ k, is_Some (pops !! k) → k ≤ year' → k ≤ pastYear) →
  getPopulationForYear c year = Ok (Some d) →
  getPopulationForYear c year' = Ok (Some d') →
  srcYear d = pastYear ∧ srcYear d' = pastYear ∧ pop d' ≤ pop d.
Proof.
  intros Hp Hmin Hv Hv0 Hgap Hyy Hmax.
  assert (∀ y, year ≤ y ≤ year' → pops !! y = None) as Hnone.
  { intros y Hy. destruct (pops !! y) eqn:E; [|done].
    assert (y ≤ pastYear) by (apply Hmax; [eauto | lia]). lia. }
  rewrite (resolver_past_scan c pops year pastYear v); [|done|apply Hnone; lia|done..| |].
  2: lia. 2: { intros k Hk Hlt. apply Hmax; [done | lia]. }
  rewrite (resolver_past_scan c pops year' pastYear v); [|done|apply Hnone; lia| |done| |].
  2, 3: lia. 2: { intros k Hk Hlt. apply Hmax; [done | lia]. }
  intros [= <-] [= <-]. simpl.
  destruct (Z.ltb_spec 500 (year - pastYear)) as [_|?]; [|lia].
  destruct (Z.ltb_spec 500 (year' - pastYear)) as [_|?]; [|lia].
  split_and!; [done..|]. apply decayed_antitone; lia.
Qed.

(** ** World statistics *)

Lemma bracketStats_aux (year : Z) (l : list worldStat) (b a : option worldStat) :
  foldl (λ '(before, after) s,
           (if ws_year s <=? year then Some s else before,
            if (year <=? ws_year s) && bool_decide (after = None) then Some s else after))
        (b, a) l
  = (from_option Some b (last (List.filter (λ s, ws_year s <=? year) l)),
     match a with
     | Some x => Some x
     | None => head (List.filter (λ s, year <=? ws_year s) l)
     end).
Proof.
  revert b a. induction l as [|s l IH]; intros b a.
  { simpl. by destruct a. }
  simpl. rewrite IH. f_equal.
  - destruct (ws_year s <=? year); simpl; [|done].
    rewrite last_cons. by destruct (last _).
  - destruct a as [x|]; simpl.
    + by rewrite andb_false_r.
    + rewrite andb_true_r. by destruct (year <=? ws_year s).
Qed.

Lemma bracketStats_spec (year : Z) (l : list worldStat) :
  bracketStats year l
  = (last (List.filter (λ s, ws_year s <=? year) l),
     head (List.filter (λ s, year <=? ws_year s) l)).
Proof.
  unfold bracketStats. rewrite bracketStats_aux. f_equal. by destruct (last _).
Qed.

(** X6: a year before all samples gets the first sample of the
    list, a year after all samples gets the last one (and an empty list gets
    [null]): outside the sampled range the value is clamped, not
    extrapolated. *)
Theorem worldStats_clamped (stats : list worldStat) (year : Z) :
  ((∀ s, s ∈ stats → year < ws_year s) → getWorldStatsForYear stats year = head stats)
  ∧ ((∀ s, s ∈ stats → ws_year s < year) → getWorldStatsForYear stats year = last stats).
Proof.
  unfold getWorldStatsForYear. rewrite bracketStats_spec. split; intros H.
  - assert (List.filter (λ s, ws_year s <=? year) stats = []) as ->.
    { apply filter_nil_iff. intros s Hs. specialize (H s Hs). simpl. lia. }
    rewrite filter_all; [by destruct stats|].
    intros s Hs. specialize (H s Hs). simpl. lia.
  - assert (List.filter (λ s, year <=? ws_year s) stats = []) as ->.
    { apply filter_nil_iff. intros s Hs. specialize (H s Hs). simpl. lia. }
    rewrite filter_all; [by destruct (last stats)|].
    intros s Hs. specialize (H s Hs). simpl. lia.
Qed.

(** X7: when the samples are in strictly increasing order of year,
    a query at the year of a sample returns that sample unchanged. *)
Theorem worldStats_exact_sample (stats : list worldStat) (s : worldStat) :
  StronglySorted (λ a b, ws_year a < ws_year b) stats →
  s ∈ stats →
  getWorldStatsForYear stats (ws_year s) = Some s.
Proof.
  intros Hs Hin. apply list_elem_of_split in Hin as (l1 & l2 & ->).
  apply StronglySorted_app in Hs as (H12 & _ & Hs2).
  apply StronglySorted_inv in Hs2 as [_ H2]. rewrite Forall_forall in H2.
  unfold getWorldStatsForYear. rewrite bracketStats_spec.
  rewrite !List.filter_app. simpl. rewrite Z.leb_refl.
  assert (List.filter (λ x, ws_year x <=? ws_year s) l2 = []) as ->.
  { apply filter_nil_iff. intros x Hx. specialize (H2 x Hx). simpl. lia. }
  assert (List.filter (λ x, ws_year s <=? ws_year x) l1 = []) as ->.
  { apply filter_nil_iff. intros x Hx.
    specialize (H12 x s Hx (list_elem_of_here _ _)). simpl in *. lia. }
  rewrite last_snoc. simpl. by rewrite Z.eqb_refl.
Qed.

(** ** The polity at a point and the history of a point *)

(** X9: when the point test does not raise on the visible polities,
    [getPolityAtPoint] returns the first polity, in dataset order, that is
    visible at the year under the filter of [updateMap] and contains the
    point, and [null] when there is none. *)
Theorem getPolityAtPoint_first_visible (st : state) (lon lat : Q) (year : Z) :
  (∀ p, p ∈ visiblePolities (allPolities st) year →
        ∃ b, pointInGeometry lon lat (geometry p) 0 = Ok b) →
  getPolityAtPoint st lon lat year
  = Ok (head (List.filter (holdsPoint lon lat) (visiblePolities (allPolities st) year))).
Proof.
  unfold getPolityAtPoint. generalize (allPolities st). intros l.
  induction l as [|p l IH]; intros Ht; [done|].
  unfold visiblePolities in *. cbn [firstPolityAt List.filter] in *.
  destruct (isParenthetical (Name p)); [by apply IH|].
  destruct (inRange year p); [|by apply IH].
  destruct (Ht p) as [b Hb]; [left|]. rewrite Hb, bind_Ok.
  cbn [List.filter]. unfold holdsPoint at 1. rewrite Hb.
  destruct b; [done|]. apply IH. intros q Hq. apply Ht. by right.
Qed.

Lemma firstPolityAt_Some (lon lat : Q) (year : Z) (l : list polity) (p : polity) :
  firstPolityAt lon lat year l = Ok (Some p) →
  p ∈ l ∧ isParenthetical (Name p) = false ∧ inRange year p = true
  ∧ pointInGeometry lon lat (geometry p) 0 = Ok true.
Proof.
  induction l as [|q l IH]; [done|]. cbn [firstPolityAt].
  assert (firstPolityAt lon lat year l = Ok (Some p) →
          p ∈ q :: l ∧ isParenthetical (Name p) = false ∧ inRange year p = true
          ∧ pointInGeometry lon lat (geometry p) 0 = Ok true) as IH'.
  { intros H. destruct (IH H) as (? & ? & ? & ?). split_and!; [by right|done..]. }
  destruct (isParenthetical (Name q)) eqn:Hq; [done|].
  destruct (inRange year q) eqn:Hr; [|done].
  destruct (pointInGeometry lon lat (geometry q) 0) as [[]|] eqn:Hb; [|done..].
  rewrite bind_Ok. intros [= <-]. split_and!; [left|done..].
Qed.

(** *** Invariants of the merge loop *)

Lemma Sorted_snoc {A} (R : A → A → Prop) (l : list A) (x : A) :
  Sorted R (l ++ [x]) ↔ Sorted R l ∧ ∀ y, last l = Some y → R y x.
Proof.
  induction l as [|a l IH]; simpl.
  { split; [intros _; split; [constructor|done] | intros _; by repeat constructor]. }
  split.
  - intros H. apply Sorted_inv in H as [Hs Hh]. apply IH in Hs as [Hs Hl]. split.
    + constructor; [done|]. destruct l; [constructor|]. apply HdRel_inv in Hh. by constructor.
    + intros y. rewrite last_cons. destruct (last l) as [z|] eqn:E.
      * intros [= <-]. by apply Hl.
      * intros [= <-]. apply last_None in E as ->. by apply HdRel_inv in Hh.
  - intros [H Hl]. apply Sorted_inv in H as [Hs Hh]. constructor.
    + apply IH. split; [done|]. intros y Hy. apply Hl. rewrite last_cons. by rewrite Hy.
    + destruct l; simpl.
      * constructor. by apply Hl.
      * apply HdRel_inv in Hh. by constructor.
Qed.

Lemma Sorted_lookup {A} (R : A → A → Prop) (l : list A) (i : nat) (a b : A) :
  Sorted R l → l !! i = Some a → l !! S i = Some b → R a b.
Proof.
  intros Hs. revert i. induction Hs as [|x l Hs IH Hh]; intros i Ha Hb; [done|].
  destruct i as [|i].
  - simpl in *. injection Ha as ->. destruct l; [done|]. injection Hb as ->.
    by apply HdRel_inv in Hh.
  - by apply (IH i).
Qed.

Lemma mergeStep_apart (ms : list historyEntry) (e : historyEntry) :
  Sorted apart ms → Sorted apart (mergeStep ms e).
Proof.
  intros Hs. destruct (decide (ms = [])) as [->|Hne].
  { by repeat constructor. }
  destruct (nonempty_snoc ms Hne) as (ms' & l & ->). rewrite mergeStep_snoc.
  apply Sorted_snoc in Hs as [Hs Hl].
  destruct (String.eqb_spec (h_name l) (h_name e)) as [Hn|Hn]; cbn [andb].
  - destruct (Z.leb_spec (h_fromYear e) (h_toYear l + 5)) as [Hy|Hy].
    + apply Sorted_snoc. split; [done|]. intros y Hy'. apply Hl in Hy'. exact Hy'.
    + change (ms' ++ [l; e]) with (ms' ++ [l] ++ [e]). rewrite app_assoc.
      apply Sorted_snoc. split; [by apply Sorted_snoc|].
      intros y. rewrite last_snoc. intros [= <-]. by right.
  - change (ms' ++ [l; e]) with (ms' ++ [l] ++ [e]). rewrite app_assoc.
    apply Sorted_snoc. split; [by apply Sorted_snoc|].
    intros y. rewrite last_snoc. intros [= <-]. by left.
Qed.

Lemma foldl_mergeStep_apart (ms l : list historyEntry) :
  Sorted apart ms → Sorted apart (foldl mergeStep ms l).
Proof.
  revert ms. induction l as [|e l IH]; intros ms Hs; [done|].
  cbn [foldl]. by apply IH, mergeStep_apart.
Qed.

Lemma mergeStep_sorted (ms l : list historyEntry) (e : historyEntry) :
  StronglySorted (keyLe h_fromYear) (ms ++ e :: l) →
  StronglySorted (keyLe h_fromYear) (mergeStep ms e ++ l).
Proof.
  intros Hs. destruct (decide (ms = [])) as [->|Hne]; [done|].
  destruct (nonempty_snoc ms Hne) as (ms' & l0 & ->). rewrite mergeStep_snoc.
  destruct (_ && _).
  - apply StronglySorted_app in Hs as (Hx & Hs1 & Hs2).
    apply StronglySorted_app in Hs1 as (Hx1 & Hs1 & _).
    apply StronglySorted_inv in Hs2 as [Hs2 _].
    apply StronglySorted_app_2; [|apply StronglySorted_app_2|done].
    + intros x1 x2 [Hx1'|Hx1']%elem_of_app Hx2.
      * apply Hx; [apply elem_of_app; by left | by right].
      * apply list_elem_of_singleton in Hx1' as ->.
        apply (Hx l0 x2); [apply elem_of_app; right; left | by right].
    + intros x1 x2 Hx1' ->%list_elem_of_singleton.
      apply (Hx1 x1 l0); [done | left].
    + done.
    + by repeat constructor.
  - change (ms' ++ [l0; e]) with (ms' ++ [l0] ++ [e]). by rewrite !app_assoc, <- (app_assoc _ [e]).
Qed.

Lemma foldl_mergeStep_sorted (ms l : list historyEntry) :
  StronglySorted (keyLe h_fromYear) (ms ++ l) →
  StronglySorted (keyLe h_fromYear) (foldl mergeStep ms l).
Proof.
  revert ms. induction l as [|e l IH]; intros ms Hs.
  { by rewrite app_nil_r in Hs. }
  cbn [foldl]. by apply IH, mergeStep_sorted.
Qed.

Lemma covers_refl (e : historyEntry) : covers e e.
Proof. unfold covers. split_and!; [done|lia|lia]. Qed.

(** An entry that has an interval keeps one after a further step. *)
Lemma mergeStep_covers_old (ms : list historyEntry) (e x : historyEntry) :
  (∃ m, m ∈ ms ∧ covers m x) → ∃ m, m ∈ mergeStep ms e ∧ covers m x.
Proof.
  intros (m & Hm & Hc). destruct (decide (ms = [])) as [->|Hne].
  { by apply elem_of_nil in Hm. }
  destruct (nonempty_snoc ms Hne) as (ms' & l0 & ->). rewrite mergeStep_snoc.
  apply elem_of_app in Hm as [Hm|Hm%list_elem_of_singleton].
  - exists m. split; [|done]. destruct (_ && _); apply elem_of_app; by left.
  - subst m. destruct (_ && _).
    + exists (widen l0 e). split; [apply elem_of_app; right; left|].
      destruct Hc as (? & ? & ?). unfold covers. simpl. split_and!; [done|lia|lia].
    + exists l0. split; [|done]. apply elem_of_app. right. left.
Qed.

(** The entry at hand gets an interval, provided the last one starts no later. *)
Lemma mergeStep_covers_new (ms : list historyEntry) (e : historyEntry) :
  (∀ l0, last ms = Some l0 → h_fromYear l0 ≤ h_fromYear e) →
  ∃ m, m ∈ mergeStep ms e ∧ covers m e.
Proof.
  intros Hl. destruct (decide (ms = [])) as [->|Hne].
  { exists e. split; [left | apply covers_refl]. }
  destruct (nonempty_snoc ms Hne) as (ms' & l0 & ->). rewrite mergeStep_snoc.
  specialize (Hl l0 (last_snoc _ _)).
  destruct (String.eqb_spec (h_name l0) (h_name e)) as [Hn|Hn]; cbn [andb].
  - destruct (h_fromYear e <=? h_toYear l0 + 5).
    + exists (widen l0 e). split; [apply elem_of_app; right; left|].
      unfold covers. simpl. split_and!; [done|lia|lia].
    + exists e. split; [|apply covers_refl]. apply elem_of_app. right. right. left.
  - exists e. split; [|apply covers_refl]. apply elem_of_app. right. right. left.
Qed.

Lemma foldl_mergeStep_covers (ms l : list historyEntry) (x : historyEntry) :
  StronglySorted (keyLe h_fromYear) (ms ++ l) →
  x ∈ l ∨ (∃ m, m ∈ ms ∧ covers m x) →
  ∃ m, m ∈ foldl mergeStep ms l ∧ covers m x.
Proof.
  revert ms. induction l as [|e l IH]; intros ms Hs Hx.
  { destruct Hx as [Hx|Hx]; [by apply elem_of_nil in Hx | done]. }
  cbn [foldl]. apply IH; [by apply mergeStep_sorted|].
  destruct Hx as [[->|Hx]%elem_of_cons|Hx].
  - right. apply mergeStep_covers_new. intros l0 Hl0.
    apply StronglySorted_app in Hs as (Hx & _ & _).
    apply (Hx l0 e); [|left]. apply last_Some in Hl0 as [ms' ->].
    apply elem_of_app. right. left.
  - by left.
  - right. by apply mergeStep_covers_old.
Qed.

(** *** Where the entries come from *)

Lemma widen_self (e : historyEntry) : widen e e = e.
Proof. destruct e. unfold widen. simpl. by rewrite Z.max_id. Qed.

Lemma mergedFrom_mono (l l' : list historyEntry) (m : historyEntry) :
  l ⊆ l' → mergedFrom l m → mergedFrom l' m.
Proof. intros Hl (e1 & e2 & ? & ? & ? & ?). exists e1, e2. split_and!; auto. Qed.

Lemma mergeStep_mergedFrom (src ms : list historyEntry) (e : historyEntry) :
  e ∈ src →
  Forall (mergedFrom src) ms → Forall (mergedFrom src) (mergeStep ms e).
Proof.
  intros He Hms. destruct (decide (ms = [])) as [->|Hne].
  { repeat constructor. exists e, e. by rewrite widen_self. }
  destruct (nonempty_snoc ms Hne) as (ms' & l0 & ->). rewrite mergeStep_snoc.
  apply Forall_app in Hms as [Hms' Hl0]. apply Forall_cons_1 in Hl0 as [Hl0 _].
  destruct (String.eqb_spec (h_name l0) (h_name e)) as [Hn|Hn]; cbn [andb].
  - destruct (h_fromYear e <=? h_toYear l0 + 5).
    + apply Forall_app. split; [done|]. repeat constructor.
      destruct Hl0 as (e1 & e2 & H1 & H2 & Hn12 & ->).
      destruct (Z.le_gt_cases (h_toYear e) (Z.max (h_toYear e1) (h_toYear e2))) as [Hle|Hgt].
      * exists e1, e2. split_and!; [done..|]. unfold widen. simpl. f_equal. lia.
      * exists e1, e. split_and!; [done..| |].
        -- by rewrite <- Hn.
        -- unfold widen. simpl. f_equal. lia.
    + apply Forall_app. split; [done|]. repeat constructor; [done|].
      exists e, e. by rewrite widen_self.
  - apply Forall_app. split; [done|]. repeat constructor; [done|].
    exists e, e. by rewrite widen_self.
Qed.

Lemma foldl_mergeStep_mergedFrom (src ms l : list historyEntry) :
  l ⊆ src →
  Forall (mergedFrom src) ms → Forall (mergedFrom src) (foldl mergeStep ms l).
Proof.
  revert ms. induction l as [|e l IH]; intros ms Hl Hms; [done|].
  cbn [foldl]. apply IH.
  - intros x Hx. apply Hl. by right.
  - apply mergeStep_mergedFrom; [|done]. apply Hl. left.
Qed.

Lemma dedupe_subseteq (l : list polity) (seen : gset (string * Z * Z)) : dedupe l seen ⊆ l.
Proof.
  revert seen. induction l as [|p l IH]; intros seen; [done|]. cbn [dedupe].
  destruct (bool_decide _).
  - intros x Hx. right. by apply (IH seen).
  - intros x [->|Hx]%elem_of_cons; [left|right]. by apply (IH ({[historyKey p]} ∪ seen)).
Qed.

Lemma dedupe_covers (l : list polity) (seen : gset (string * Z * Z)) (p : polity) :
  p ∈ l → historyKey p ∈ seen ∨ ∃ q, q ∈ dedupe l seen ∧ historyKey q = historyKey p.
Proof.
  revert seen. induction l as [|a l IH]; intros seen Hp.
  { by apply elem_of_nil in Hp. }
  cbn [dedupe]. destruct (bool_decide (historyKey a ∈ seen)) eqn:Ha.
  - apply bool_decide_eq_true in Ha. apply elem_of_cons in Hp as [->|Hp]; [by left|].
    by apply IH.
  - apply elem_of_cons in Hp as [->|Hp].
    + right. exists a. split; [left|done].
    + destruct (IH ({[historyKey a]} ∪ seen) Hp) as [Hin|(q & Hq & Hk)].
      * apply elem_of_union in Hin as [Hin%elem_of_singleton|Hin]; [|by left].
        right. exists a. split; [left|done].
      * right. exists q. split; [by right|done].
Qed.

(** *** The history of a point *)

Lemma collect_Ok_testable (colorOf : string → string) (lon lat : Q) (l : list polity)
    (acc r : list historyEntry * gset (string * Z * Z)) :
  for_of (collectStep colorOf lon lat) l acc = Ok r → testable lon lat l.
Proof.
  revert acc. induction l as [|p l IH]; intros acc Hr q Hq Hn.
  { by apply elem_of_nil in Hq. }
  rewrite for_of_cons in Hr.
  destruct (collectStep colorOf lon lat acc p) as [acc'|] eqn:Hstep; [|done].
  rewrite bind_Ok in Hr. apply elem_of_cons in Hq as [->|Hq]; [|by apply (IH acc')].
  unfold collectStep in Hstep. destruct acc as [h seen]. rewrite Hn in Hstep.
  destruct (pointInGeometry lon lat (geometry p) 0) as [b|]; [eauto | done].
Qed.

Lemma getLocationHistory_Ok (st : state) (lon lat : Q) (h : list historyEntry) :
  getLocationHistory st lon lat = Ok h →
  h = foldl mergeStep []
        (sortBy h_fromYear
           (map (entryOf (getColor st))
              (dedupe (sortBy FromYear (List.filter (containsPoint lon lat) (allPolities st)))
                      ∅))).
Proof.
  intros Hh. assert (testable lon lat (allPolities st)) as Ht.
  { unfold getLocationHistory in Hh.
    destruct (for_of _ _ _) as [r|] eqn:Hr; [|done].
    intros p Hp. apply (collect_Ok_testable _ _ _ _ _ _ Hr).
    by rewrite (sortBy_Permutation FromYear (allPolities st)). }
  rewrite getLocationHistory_pure in Hh by done. by injection Hh.
Qed.

(** X10: the history of a point is ordered by start year, oldest
    first. *)
Theorem history_oldest_first (st : state) (lon lat : Q) (h : list historyEntry) :
  getLocationHistory st lon lat = Ok h →
  StronglySorted (keyLe h_fromYear) h.
Proof.
  intros ->%getLocationHistory_Ok. apply foldl_mergeStep_sorted. apply sortBy_sorted.
Qed.

(** X11: two consecutive entries of a history are never
    mergeable: they differ in name, or the later one starts more than 5
    years after the end of the earlier one. *)
Theorem history_adjacent_entries_apart (st : state) (lon lat : Q) (h : list historyEntry)
    (i : nat) (a b : historyEntry) :
  getLocationHistory st lon lat = Ok h →
  h !! i = Some a → h !! S i = Some b →
  h_name a ≠ h_name b ∨ h_toYear a + 5 < h_fromYear b.
Proof.
  intros ->%getLocationHistory_Ok. apply (Sorted_lookup apart).
  apply foldl_mergeStep_apart. constructor.
Qed.

(** The merged pipeline has an interval for every candidate. *)
Lemma pipeline_covers (colorOf : string → string) (cands : list polity) (p : polity) :
  p ∈ cands →
  ∃ e, e ∈ foldl mergeStep [] (sortBy h_fromYear (map (entryOf colorOf) (dedupe cands ∅)))
       ∧ h_name e = Name p ∧ h_fromYear e ≤ FromYear p ∧ ToYear p ≤ h_toYear e.
Proof.
  intros Hin. destruct (dedupe_covers cands ∅ p Hin) as [Hemp|(q & Hq & Hk)].
  { by apply not_elem_of_empty in Hemp. }
  injection Hk as Hn Hf Ht.
  destruct (foldl_mergeStep_covers []
              (sortBy h_fromYear (map (entryOf colorOf) (dedupe cands ∅)))
              (entryOf colorOf q)) as (m & Hm & Hc1 & Hc2 & Hc3).
  - apply sortBy_sorted.
  - left. rewrite sortBy_Permutation. apply list_elem_of_In, in_map. by apply list_elem_of_In.
  - exists m. simpl in *. split; [done|]. split_and!; [congruence | lia | lia].
Qed.

Lemma containing_is_candidate (st : state) (lon lat : Q) (p : polity) :
  p ∈ allPolities st → containsPoint lon lat p = true →
  p ∈ sortBy FromYear (List.filter (containsPoint lon lat) (allPolities st)).
Proof.
  intros Hp Hc. rewrite sortBy_Permutation.
  apply list_elem_of_In, filter_In. split; [by apply list_elem_of_In | done].
Qed.

(** X12: every fragment that contains the point (and whose name
    does not start with a parenthesis) is represented in the history: some
    entry has its name and an interval that includes the fragment's. *)
Theorem history_covers_every_fragment (st : state) (lon lat : Q) (h : list historyEntry)
    (p : polity) :
  getLocationHistory st lon lat = Ok h →
  p ∈ allPolities st →
  containsPoint lon lat p = true →
  ∃ e, e ∈ h ∧ h_name e = Name p ∧ h_fromYear e ≤ FromYear p ∧ ToYear p ≤ h_toYear e.
Proof.
  intros ->%getLocationHistory_Ok Hp Hc.
  apply pipeline_covers. by apply containing_is_candidate.
Qed.

(** X13: every entry of a history comes from the data: its name,
    start year, area and polity are those of a fragment that contains the
    point, and its end year is the later of the end years of that fragment
    and of a fragment of the same name that contains the point. *)
Theorem history_entries_backed (st : state) (lon lat : Q) (h : list historyEntry)
    (e : historyEntry) :
  getLocationHistory st lon lat = Ok h →
  e ∈ h →
  ∃ p q, p ∈ allPolities st ∧ q ∈ allPolities st
         ∧ containsPoint lon lat p = true ∧ containsPoint lon lat q = true
         ∧ Name q = Name p
         ∧ h_name e = Name p ∧ h_polity e = p ∧ h_area e = Area p
         ∧ h_fromYear e = FromYear p
         ∧ h_toYear e = Z.max (ToYear p) (ToYear q).
Proof.
  intros ->%getLocationHistory_Ok He.
  set (cands := sortBy FromYear (List.filter (containsPoint lon lat) (allPolities st))) in *.
  set (src := sortBy h_fromYear (map (entryOf (getColor st)) (dedupe cands ∅))) in *.
  assert (∀ x, x ∈ src → ∃ p, x = entryOf (getColor st) p ∧ p ∈ allPolities st
                               ∧ containsPoint lon lat p = true) as Hsrc.
  { intros x Hx. unfold src in Hx. rewrite sortBy_Permutation in Hx.
    apply list_elem_of_In, in_map_iff in Hx as (p & <- & Hp%list_elem_of_In).
    apply dedupe_subseteq in Hp. unfold cands in Hp. rewrite sortBy_Permutation in Hp.
    apply list_elem_of_In, filter_In in Hp as [Hp%list_elem_of_In Hc]. eauto. }
  pose proof (foldl_mergeStep_mergedFrom src [] src ltac:(done) ltac:(constructor)) as Hall.
  rewrite Forall_forall in Hall. destruct (Hall e He) as (e1 & e2 & H1 & H2 & Hn & ->).
  destruct (Hsrc e1 H1) as (p & -> & Hp & Hcp). destruct (Hsrc e2 H2) as (q & -> & Hq & Hcq).
  exists p, q. simpl in *. split_and!; done.
Qed.

(** X14: the polity that [getPolityAtPoint] reports at a year
    appears in the history of the same point, in an entry whose interval
    includes that year (for names that do not start with a parenthesis). *)
Theorem polityAtPoint_in_history (st : state) (lon lat : Q) (year : Z) (p : polity)
    (h : list historyEntry) :
  getPolityAtPoint st lon lat year = Ok (Some p) →
  startsWith "("%char (Name p) = false →
  getLocationHistory st lon lat = Ok h →
  ∃ e, e ∈ h ∧ h_name e = Name p ∧ h_fromYear e ≤ year ≤ h_toYear e.
Proof.
  intros (Hp & _ & Hr & Hin)%firstPolityAt_Some Hn ->%getLocationHistory_Ok.
  destruct (pipeline_covers (getColor st)
              (sortBy FromYear (List.filter (containsPoint lon lat) (allPolities st))) p)
    as (e & He & Hname & Hf & Ht).
  { apply containing_is_candidate; [done|]. unfold containsPoint. by rewrite Hn, Hin. }
  apply inRange_spec in Hr. exists e. split_and!; [done..|lia|lia].
Qed.

(** ** Snapshots, per civilisation *)

Section civEntries.
Context (colorOf : string → string).

Lemma buildCivData_dom (l : list polity) :
  dom (buildCivData colorOf l) = list_to_set (Name <$> l).
Proof.
  apply set_eq. intros name. rewrite elem_of_dom, elem_of_list_to_set, list_elem_of_fmap.
  pose proof (buildCivData_inv colorOf l name) as Hinv.
  destruct (buildCivData colorOf l !! name) as [c|]; simpl in Hinv.
  - destruct Hinv as [(p & Hp & Hn & _) _]. split; [|eauto]. intros _. eauto.
  - split; [by intros [? ?]|]. intros (p & Hn & Hp). by destruct (Hinv p Hp).
Qed.

Lemma buildCivData_length (l : list polity) :
  length (map_to_list (buildCivData colorOf l)) = civCount l.
Proof.
  unfold civCount. by rewrite <- buildCivData_dom, size_dom, length_map_to_list.
Qed.

(** The entry of a name: the areas of its fragments added up, the colour of
    the name. *)
Lemma buildCivData_entry (l : list polity) (name : string) (c : civ) :
  buildCivData colorOf l !! name = Some c →
  area c = reduce_sum (λ p, default 0 (Area p)) (List.filter (λ p, String.eqb (Name p) name) l)
  ∧ color c = colorOf name.
Proof.
  revert c. induction l as [|x l IH] using rev_ind; intros c.
  { unfold buildCivData. simpl. by rewrite lookup_empty. }
  rewrite buildCivData_snoc, addPolity_insert, List.filter_app, reduce_sum_app.
  cbn [List.filter]. destruct (String.eqb_spec (Name x) name) as [Heq|Hne].
  - subst name. rewrite lookup_insert_eq. intros [= <-]. unfold entryAfter.
    rewrite reduce_sum_cons, reduce_sum_nil.
    destruct (buildCivData colorOf l !! Name x) as [c0|] eqn:E; simpl.
    + destruct (IH c0 eq_refl) as [-> ->]. split; [lia|done].
    + split; [|done].
      assert (List.filter (λ p, String.eqb (Name p) (Name x)) l = []) as ->.
      { pose proof (buildCivData_inv colorOf l (Name x)) as Hinv. rewrite E in Hinv.
        apply filter_nil_iff. intros p Hp. apply String.eqb_neq. by apply Hinv. }
      rewrite reduce_sum_nil. lia.
  - rewrite lookup_insert_ne by done. intros Hc. destruct (IH c Hc) as [-> ->].
    rewrite reduce_sum_nil. split; [lia|done].
Qed.

End civEntries.

Lemma reduce_sum_bounds {A} (f : A → Z) (l : list A) (lo hi : Z) :
  (∀ x, x ∈ l → lo ≤ f x ≤ hi) →
  Z.of_nat (length l) * lo ≤ reduce_sum f l ≤ Z.of_nat (length l) * hi.
Proof.
  induction l as [|a l IH]; intros H.
  { rewrite reduce_sum_nil. simpl. lia. }
  rewrite reduce_sum_cons. specialize (H a (list_elem_of_here _ _)) as Ha.
  destruct IH as [IH1 IH2]; [intros x Hx; apply H; by right|].
  cbn [length]. lia.
Qed.

Lemma reduce_sum_filter_le {A} (f : A → Z) (P : A → bool) (l : list A) :
  (∀ x, x ∈ l → 0 ≤ f x) →
  0 ≤ reduce_sum f (List.filter P l) ≤ reduce_sum f l.
Proof.
  induction l as [|a l IH]; intros H.
  { simpl. rewrite reduce_sum_nil. lia. }
  specialize (H a (list_elem_of_here _ _)) as Ha.
  destruct IH as [IH1 IH2]; [intros x Hx; apply H; by right|].
  simpl. destruct (P a); rewrite !reduce_sum_cons; lia.
Qed.

(** X15: the [civilizations] total of a snapshot is the number of
    distinct names among the fragments handed in: the count shown by the
    stats panel ([new Set(names).size]). *)
Theorem civilizations_is_distinct_names (st : state) (year : Z) (visible : list polity)
    (m : metrics) :
  calculateMetricsFast st year visible = Ok m →
  civilizations (totals m) = civCount visible.
Proof.
  unfold calculateMetricsFast. destruct (countCities _ _) as [[n u]|]; [|done].
  rewrite bind_Ok. intros [= <-]. simpl. apply buildCivData_length.
Qed.

(** X16: in a snapshot, the entry of a name holds the sum of the
    areas of the fragments of that name and the colour of the name; a name
    without entry has no fragment. *)
Theorem civs_entry_sums_fragments (st : state) (year : Z) (visible : list polity)
    (m : metrics) (name : string) :
  calculateMetricsFast st year visible = Ok m →
  match civs m !! name with
  | Some c =>
      area c = reduce_sum (λ p, default 0 (Area p))
                 (List.filter (λ p, String.eqb (Name p) name) visible)
      ∧ color c = getColor st name
  | None => ∀ p, p ∈ visible → Name p ≠ name
  end.
Proof.
  unfold calculateMetricsFast. destruct (countCities _ _) as [[n u]|]; [|done].
  rewrite bind_Ok. intros [= <-]. simpl.
  destruct (buildCivData (getColor st) visible !! name) as [c|] eqn:E.
  - by apply buildCivData_entry.
  - pose proof (buildCivData_inv (getColor st) visible name) as Hinv. by rewrite E in Hinv.
Qed.

(** X17: [largestEmpire] is the largest per-name area: no entry
    exceeds it, some entry attains it unless no fragment was handed in (then
    it is 0), and with areas that are not negative it is at most
    [landArea]. *)
Theorem largestEmpire_is_maximum (st : state) (year : Z) (visible : list polity) (m : metrics) :
  calculateMetricsFast st year visible = Ok m →
  (∀ name c, civs m !! name = Some c → area c ≤ largestEmpire (totals m))
  ∧ (visible ≠ [] → ∃ name c, civs m !! name = Some c ∧ area c = largestEmpire (totals m))
  ∧ (visible = [] → largestEmpire (totals m) = 0)
  ∧ ((∀ p, p ∈ visible → 0 ≤ default 0 (Area p)) → largestEmpire (totals m) ≤ landArea (totals m)).
Proof.
  unfold calculateMetricsFast. destruct (countCities _ _) as [[n u]|]; [|done].
  rewrite bind_Ok. intros [= <-]. simpl.
  set (civData := buildCivData (getColor st) visible).
  set (areas := map (λ e : string * civ, area e.2) (map_to_list civData)).
  assert (∀ name c, civData !! name = Some c → area c ∈ areas) as Hin.
  { intros name c Hc. apply list_elem_of_In, in_map_iff. exists (name, c).
    split; [done|]. by apply list_elem_of_In, elem_of_map_to_list. }
  assert (∀ a, a ∈ areas → ∃ name c, civData !! name = Some c ∧ area c = a) as Hout.
  { intros a ([name c] & <- & Hc%list_elem_of_In%elem_of_map_to_list)%list_elem_of_In%in_map_iff.
    eauto. }
  destruct (Math_max areas) as [mx|] eqn:Hmx; simpl.
  - apply Math_max_Some in Hmx as [Hmem Hmax]. split_and!.
    + intros name c Hc. apply Hmax. by eapply Hin.
    + intros _. by apply Hout.
    + intros ->. subst areas civData. unfold buildCivData in Hmem. simpl in Hmem.
      rewrite map_to_list_empty in Hmem. by apply elem_of_nil in Hmem.
    + intros Hpos. destruct (Hout mx Hmem) as (name & c & Hc & <-).
      subst civData. rewrite buildCivData_area.
      destruct (buildCivData_entry (getColor st) visible name c Hc) as [-> _].
      by apply reduce_sum_filter_le.
  - assert (areas = []) as Hnil by (by destruct areas).
    split_and!.
    + intros name c Hc. apply (Hin name c) in Hc. rewrite Hnil in Hc. by apply elem_of_nil in Hc.
    + intros Hne. destruct visible as [|p l]; [done|]. exfalso.
      pose proof (buildCivData_inv (getColor st) (p :: l) (Name p)) as Hinv.
      fold civData in Hinv. destruct (civData !! Name p) as [c|] eqn:E.
      * apply (Hin (Name p) c) in E. rewrite Hnil in E. by apply elem_of_nil in E.
      * by destruct (Hinv p (list_elem_of_here _ _)).
    + done.
    + intros Hpos. subst civData. rewrite buildCivData_area.
      pose proof (reduce_sum_filter_le (λ p, default 0 (Area p)) (λ _, true) visible Hpos).
      lia.
Qed.

(** X18: the mean age of a snapshot lies between the ages of the
    youngest and of the oldest fragment handed in; in particular it is not
    negative when every fragment has started by the year. *)
Theorem avgAge_within_range (st : state) (year lo hi : Z) (visible : list polity) (m : metrics) :
  visible ≠ [] →
  (∀ p, p ∈ visible → lo ≤ FromYear p ≤ hi) →
  calculateMetricsFast st year visible = Ok m →
  (inject_Z (year - hi) <= avgAge (totals m) <= inject_Z (year - lo))%Q.
Proof.
  intros Hne Hrange. unfold calculateMetricsFast.
  destruct (countCities _ _) as [[n u]|]; [|done].
  rewrite bind_Ok. intros [= <-]. simpl.
  set (civList := map_to_list (buildCivData (getColor st) visible)).
  assert (civList ≠ []) as Hcl.
  { intros Hnil. assert (length civList = 0%nat) as Hlen by (by rewrite Hnil).
    unfold civList in Hlen. rewrite buildCivData_length in Hlen. unfold civCount in Hlen.
    apply size_empty_inv in Hlen. destruct visible as [|p l]; [done|].
    assert (Name p ∈ (list_to_set (Name <$> p :: l) : gset string)) as Hin
      by (rewrite elem_of_list_to_set, fmap_cons; left).
    rewrite Hlen in Hin. by apply not_elem_of_empty in Hin. }
  rewrite bool_decide_eq_false_2 by done.
  pose proof (reduce_sum_bounds (λ e : string * civ, year - fromYear e.2) civList
                (year - hi) (year - lo)) as [Hlo Hhi].
  { intros [name c] Hc%elem_of_map_to_list. simpl.
    pose proof (buildCivData_inv (getColor st) visible name) as Hinv. rewrite Hc in Hinv.
    destruct Hinv as [(p & Hp & _ & Hy) _]. specialize (Hrange p Hp). lia. }
  assert (0 < Z.of_nat (length civList)) as Hpos by (destruct civList; [done | simpl; lia]).
  assert (0 < inject_Z (Z.of_nat (length civList)))%Q as HposQ.
  { change 0%Q with (inject_Z 0). by rewrite <- Zlt_Qlt. }
  split.
  - apply Qle_shift_div_l; [done|]. rewrite <- inject_Z_mult, <- Zle_Qle. lia.
  - apply Qle_shift_div_r; [done|]. rewrite <- inject_Z_mult, <- Zle_Qle. lia.
Qed.

(** X19: after loading, the founding-year index has an entry for a
    name exactly when the name is not a parenthesised wrapper and some
    polity feature carries it. *)
Theorem foundingYears_domain (colorOf : string → string) (polities : list polity)
    (cityFeatures : list city) (stats : list worldStat) (name : string) :
  is_Some (polityFoundingYears (loadAllData colorOf polities cityFeatures stats) !! name)
  ↔ isParenthetical name = false ∧ ∃ p, p ∈ polities ∧ Name p = name.
Proof.
  simpl. pose proof (buildFoundingYears_inv polities name) as Hinv.
  destruct (buildFoundingYears polities !! name) as [y|]; simpl in Hinv.
  - destruct Hinv as (Hpar & (p & Hp & Hn & _) & _). split; [|eauto]. intros _. eauto.
  - split; [by intros [? ?]|]. intros (Hpar & p & Hp & Hn).
    specialize (Hinv p Hp Hn). congruence.
Qed.

(** X20: the age shown by the leaderboard and the territory panel
    ([year - (polityFoundingYears[Name] ?? FromYear)]) is at least the age
    of the fragment itself, hence not negative once the fragment has
    started, and it is the same for all fragments of a name that is not a
    wrapper. *)
Theorem polityAge_by_founding_year (colorOf : string → string) (polities : list polity)
    (cityFeatures : list city) (stats : list worldStat) (p : polity) (year : Z) :
  let st := loadAllData colorOf polities cityFeatures stats in
  p ∈ polities →
  FromYear p ≤ year →
  0 ≤ year - FromYear p ≤ polityAge st p year
  ∧ ∀ q, q ∈ polities → Name q = Name p → isParenthetical (Name p) = false →
         polityAge st q year = polityAge st p year.
Proof.
  intros st Hp Hy. unfold polityAge, foundingYearOf. simpl.
  pose proof (buildFoundingYears_inv polities (Name p)) as Hinv.
  destruct (buildFoundingYears polities !! Name p) as [y|] eqn:E; simpl in *.
  - destruct Hinv as (_ & _ & Hmin). specialize (Hmin p Hp eq_refl). split; [lia|].
    intros q Hq Hn _. by rewrite Hn, E.
  - split; [lia|]. intros q Hq Hn Hpar. specialize (Hinv p Hp eq_refl). congruence.
Qed.

(** ** The cities of a territory *)

Lemma citiesInPolity_steps (p : polity) (year : Z) (c : city) (acc : list cityInfo) (k : Z) :
  match citiesInPolityStep p year acc c with
  | Ok acc' =>
      cityInPolityStep p year k c = Ok (k + Z.of_nat (length acc') - Z.of_nat (length acc))
      ∧ ∃ new, acc' = acc ++ new
          ∧ Forall (λ ci, cityInPolity p year c = true ∧ listedAs year c ci) new
  | Throw e => cityInPolityStep p year k c = Throw e
  end.
Proof.
  unfold citiesInPolityStep, cityInPolityStep, cityInPolity, listedAs.
  destruct (getPopulationForYear c year) as [[d|]|e]; rewrite ?bind_Ok; [| |done].
  - destruct (coordinates c) as [lon lat]. cbn [fst snd].
    destruct (pointInGeometry lon lat (geometry p) CITY_TERRITORY_TOLERANCE) as [[]|e];
      rewrite ?bind_Ok; [| |done].
    + split; [rewrite length_app; simpl; f_equal; lia|].
      eexists. split; [done|]. repeat constructor. eauto.
    + split; [f_equal; lia|]. exists []. by rewrite app_nil_r.
  - split; [f_equal; lia|]. exists []. by rewrite app_nil_r.
Qed.

Lemma citiesInPolity_loops (p : polity) (year : Z) (cs : list city) (acc : list cityInfo)
    (k : Z) :
  for_of (cityInPolityStep p year) cs k
  = match for_of (citiesInPolityStep p year) cs acc with
    | Ok r => Ok (k + Z.of_nat (length r) - Z.of_nat (length acc))
    | Throw e => Throw e
    end.
Proof.
  revert acc k. induction cs as [|c cs IH]; intros acc k.
  { simpl. f_equal. lia. }
  rewrite !for_of_cons. pose proof (citiesInPolity_steps p year c acc k) as Hstep.
  destruct (citiesInPolityStep p year acc c) as [acc'|e].
  - destruct Hstep as [-> _]. rewrite !bind_Ok, (IH acc').
    destruct (for_of _ cs acc'); [|done]. f_equal. lia.
  - by rewrite Hstep.
Qed.

(** X21: the city count of the leaderboard and the city list of
    the territory panel agree: [countCitiesInPolity] over [state.allCities]
    returns the length of the list of [getCitiesInPolity], and raises when
    it raises. *)
Theorem countCitiesInPolity_is_list_length (st : state) (p : polity) (year : Z) :
  countCitiesInPolity p (allCities st) year
  = match getCitiesInPolity st p year with
    | Ok l => Ok (Z.of_nat (length l))
    | Throw e => Throw e
    end.
Proof.
  unfold countCitiesInPolity, getCitiesInPolity.
  rewrite (citiesInPolity_loops p year (allCities st) [] 0).
  destruct (for_of _ _ _) as [r|]; [|done].
  rewrite bind_Ok. rewrite (Permutation_length (sortBy_Permutation _ r)). simpl. f_equal. lia.
Qed.

Lemma citiesInPolity_collects (p : polity) (year : Z) (cs : list city)
    (acc r : list cityInfo) :
  for_of (citiesInPolityStep p year) cs acc = Ok r →
  ∃ new, r = acc ++ new
         ∧ Forall (λ ci, ∃ c, c ∈ cs ∧ cityInPolity p year c = true ∧ listedAs year c ci) new.
Proof.
  revert acc. induction cs as [|c cs IH]; intros acc.
  { simpl. intros [= <-]. exists []. by rewrite app_nil_r. }
  rewrite for_of_cons. pose proof (citiesInPolity_steps p year c acc 0) as Hstep.
  destruct (citiesInPolityStep p year acc c) as [acc'|e]; [|done].
  destruct Hstep as (_ & new1 & -> & Hnew1). rewrite bind_Ok. intros Hr.
  destruct (IH _ Hr) as (new2 & -> & Hnew2). exists (new1 ++ new2).
  split; [by rewrite app_assoc|]. apply Forall_app. split.
  - eapply Forall_impl; [done|]. intros ci [? ?]. exists c. split; [left|done].
  - eapply Forall_impl; [done|]. intros ci (c0 & ? & ?). exists c0. split; [by right|done].
Qed.

(** X22: the city list of a territory is ordered by population,
    largest first, and each of its entries stands for a city of the state
    that has a population at the year and lies in the territory within the
    tolerance, with the resolved population. *)
Theorem getCitiesInPolity_sorted (st : state) (p : polity) (year : Z) (l : list cityInfo) :
  getCitiesInPolity st p year = Ok l →
  StronglySorted (λ a b, ci_pop b ≤ ci_pop a) l
  ∧ ∀ ci, ci ∈ l → ∃ c, c ∈ allCities st ∧ cityInPolity p year c = true ∧ listedAs year c ci.
Proof.
  unfold getCitiesInPolity. destruct (for_of _ _ _) as [r|] eqn:Hr; [|done].
  rewrite bind_Ok. intros [= <-]. split.
  - pose proof (sortBy_sorted (λ c, - ci_pop c) r) as Hs.
    induction Hs as [|a r' _ IH Ha]; constructor; [done|].
    eapply Forall_impl; [exact Ha|]. unfold keyLe. intros b. simpl. lia.
  - intros ci Hci. rewrite sortBy_Permutation in Hci.
    destruct (citiesInPolity_collects p year _ _ _ Hr) as (new & -> & Hnew).
    rewrite Forall_forall in Hnew. by apply Hnew.
Qed.

(** ** Bounding boxes *)

Lemma num_lt_min_false (q : Q) (m x : jsnum) :
  num_lt (Finite q) m = false → num_lt (Finite q) (num_min m x) = false.
Proof.
  destruct m as [| |a|], x as [| |b|]; simpl; try done.
  rewrite <- !not_true_iff_false, !Qlt_bool_iff. intros H1 H2. apply H1.
  pose proof (Q.le_min_l a b). lra.
Qed.

Lemma num_lt_max_false (q : Q) (m x : jsnum) :
  num_lt m (Finite q) = false → num_lt (num_max m x) (Finite q) = false.
Proof.
  destruct m as [| |a|], x as [| |b|]; simpl; try done.
  rewrite <- !not_true_iff_false, !Qlt_bool_iff. intros H1 H2. apply H1.
  pose proof (Q.le_max_l a b). lra.
Qed.

Lemma num_lt_min_new (q : Q) (m : jsnum) : num_lt (Finite q) (num_min m (Finite q)) = false.
Proof.
  destruct m as [| |a|]; simpl; try done.
  - apply not_true_iff_false. rewrite Qlt_bool_iff. pose proof (Q.le_min_r a q). lra.
  - apply not_true_iff_false. rewrite Qlt_bool_iff. lra.
Qed.

Lemma num_lt_max_new (q : Q) (m : jsnum) : num_lt (num_max m (Finite q)) (Finite q) = false.
Proof.
  destruct m as [| |a|]; simpl; try done.
  - apply not_true_iff_false. rewrite Qlt_bool_iff. lra.
  - apply not_true_iff_false. rewrite Qlt_bool_iff. pose proof (Q.le_max_r a q). lra.
Qed.

Lemma growBox_within_old (b : box) (c0 c1 : jsnum) (p : point) :
  within b p → within (growBox b c0 c1) p.
Proof.
  intros (H1 & H2 & H3 & H4). unfold within, growBox. cbn [b_minLon b_maxLon b_minLat b_maxLat].
  split_and!; [by apply num_lt_min_false | by apply num_lt_max_false
              | by apply num_lt_min_false | by apply num_lt_max_false].
Qed.

Lemma growBox_within_new (b : box) (lon lat : Q) :
  within (growBox b (Finite lon) (Finite lat)) (lon, lat).
Proof.
  unfold within, growBox. cbn [b_minLon b_maxLon b_minLat b_maxLat fst snd].
  split_and!; [apply num_lt_min_new | apply num_lt_max_new
              | apply num_lt_min_new | apply num_lt_max_new].
Qed.

(** Induction over a coordinate array and the arrays inside it. *)
Lemma coordArray_ind' (P : coordArray → Prop) :
  (∀ lon lat, P (Position lon lat)) →
  (∀ items, Forall P items → P (Nested items)) →
  ∀ c, P c.
Proof.
  intros Hpos Hnest. fix IH 1. intros [lon lat|items]; [apply Hpos|].
  apply Hnest. induction items as [|c items IHitems]; constructor; [apply IH | done].
Qed.

Lemma processCoord_within (c : coordArray) :
  ∀ b, (∀ p, within b p → within (processCoord c b) p)
       ∧ (∀ p, p ∈ positions c → within (processCoord c b) p).
Proof.
  induction c as [lon lat|items IH] using coordArray_ind'; intros b.
  - split; [intros p; apply growBox_within_old|].
    intros p ->%list_elem_of_singleton. apply growBox_within_new.
  - destruct items as [|c0 items'].
    { split; [intros p; apply growBox_within_old|]. intros p Hp. by apply elem_of_nil in Hp. }
    change (processCoord (Nested (c0 :: items')) b)
      with (foldl (λ b c, processCoord c b) b (c0 :: items')).
    generalize dependent (c0 :: items'). clear c0 items'. intros items IH. revert b.
    induction IH as [|c items Hc _ IHitems]; intros b.
    { split; [done|]. intros p Hp. by apply elem_of_nil in Hp. }
    cbn [foldl map concat positions]. destruct (Hc b) as [Hold Hnew].
    destruct (IHitems (processCoord c b)) as [Hold' Hnew']. split.
    + intros p Hp. by apply Hold', Hold.
    + intros p [Hp|Hp]%elem_of_app; [by apply Hold', Hnew | by apply Hnew'].
Qed.

Lemma getBoundingBox_within (cs : coordArray) (p : point) :
  p ∈ positions cs → within (getBoundingBox cs) p.
Proof.
  destruct cs as [lon lat|items].
  { intros _. unfold within. simpl. by destruct p. }
  unfold getBoundingBox.
  set (start := {| b_minLon := Infinity; b_maxLon := NegInfinity;
                   b_minLat := Infinity; b_maxLat := NegInfinity |}).
  generalize start. clear start. induction items as [|c items IH]; intros b Hp.
  { by apply elem_of_nil in Hp. }
  cbn [foldl]. cbn [positions map concat] in Hp. apply elem_of_app in Hp as [Hp|Hp].
  - assert (∀ b', within b' p → within (foldl (λ b c, processCoord c b) b' items) p) as Hkeep.
    { clear. induction items as [|c items IH]; intros b' Hw; [done|].
      cbn [foldl]. apply IH. by apply (proj1 (processCoord_within c b')). }
    apply Hkeep. by apply (proj2 (processCoord_within c b)).
  - by apply IH.
Qed.

Lemma num_lt_between (a b : jsnum) (q : Q) :
  num_lt a (Finite q) = false → num_lt (Finite q) b = false → num_lt a b = false.
Proof.
  destruct a as [| |x|], b as [| |y|]; simpl; try done.
  rewrite <- !not_true_iff_false, !Qlt_bool_iff. lra.
Qed.

Lemma within_overlap (b1 b2 : box) (p : point) :
  within b1 p → within b2 p → bboxOverlap b1 b2 = true.
Proof.
  intros (H1 & H2 & H3 & H4) (G1 & G2 & G3 & G4). unfold bboxOverlap.
  rewrite (num_lt_between _ _ _ H2 G1), (num_lt_between _ _ _ G2 H1),
    (num_lt_between _ _ _ H4 G3), (num_lt_between _ _ _ G4 H3). done.
Qed.

(** X23: the overlap test on bounding boxes has no false negative:
    two coordinate arrays that share a position have overlapping boxes,
    whichever is given first. *)
Theorem bboxOverlap_no_false_negative (cs1 cs2 : coordArray) (p : point) :
  p ∈ positions cs1 → p ∈ positions cs2 →
  bboxOverlap (getBoundingBox cs1) (getBoundingBox cs2) = true
  ∧ bboxOverlap (getBoundingBox cs2) (getBoundingBox cs1) = true.
Proof.
  intros H1 H2. split; eapply within_overlap; eauto using getBoundingBox_within.
Qed.

(** ** Colour assignment *)

Lemma toInt32_range (z : Z) : - 2 ^ 31 ≤ Colors.toInt32 z < 2 ^ 31.
Proof. unfold Colors.toInt32. pose proof (Z.mod_pos_bound (z + 2 ^ 31) (2 ^ 32)). lia. Qed.

Lemma pick_defined (palette : list string) (hash : Z) :
  palette ≠ [] → 0 ≤ hash → ∃ c, Colors.pick palette hash = Some c ∧ c ∈ palette.
Proof.
  intros Hne Hh. unfold Colors.pick. destruct palette as [|c0 l]; [done|].
  set (pal := c0 :: l). assert (0 < Z.of_nat (length pal)) as Hlen by (simpl; lia).
  pose proof (Z.rem_bound_pos hash (Z.of_nat (length pal)) Hh Hlen) as [H0 H1].
  destruct (lookup_lt_is_Some_2 pal (Z.to_nat (Z.rem hash (Z.of_nat (length pal)))))
    as [c Hc]; [lia|].
  exists c. split; [done|]. by eapply list_elem_of_lookup_2.
Qed.

Lemma lxor_bound_nonneg (a b n : Z) :
  0 ≤ n → 0 ≤ a < 2 ^ n → 0 ≤ b < 2 ^ n → 0 ≤ Z.lxor a b < 2 ^ n.
Proof.
  intros Hn Ha Hb. assert (0 ≤ Z.lxor a b) as H0 by (apply Z.lxor_nonneg; lia).
  split; [done|]. destruct (decide (Z.lxor a b = 0)) as [->|Hne].
  { apply Z.pow_pos_nonneg; lia. }
  apply Z.log2_lt_pow2; [lia|].
  eapply Z.le_lt_trans; [apply Z.log2_lxor; lia|].
  destruct (decide (a = 0)) as [->|Ha0], (decide (b = 0)) as [->|Hb0].
  - by rewrite Z.lxor_0_l in Hne.
  - rewrite Z.max_r by (simpl; apply Z.log2_nonneg). apply Z.log2_lt_pow2; lia.
  - rewrite Z.max_l by (simpl; apply Z.log2_nonneg). apply Z.log2_lt_pow2; lia.
  - apply Z.max_lub_lt; apply Z.log2_lt_pow2; lia.
Qed.

Lemma lxor_bound_signed (a b n : Z) :
  0 ≤ n → - 2 ^ n ≤ a < 2 ^ n → - 2 ^ n ≤ b < 2 ^ n → - 2 ^ n ≤ Z.lxor a b < 2 ^ n.
Proof.
  intros Hn Ha Hb.
  assert (∀ x, - 2 ^ n ≤ x < 0 → 0 ≤ Z.lnot x < 2 ^ n) as Hnot
    by (intros x Hx; unfold Z.lnot; lia).
  destruct (Z.neg_nonneg_cases a) as [Ha0|Ha0], (Z.neg_nonneg_cases b) as [Hb0|Hb0].
  - rewrite <- Z.lxor_lnot_lnot.
    pose proof (lxor_bound_nonneg (Z.lnot a) (Z.lnot b) n Hn
                  ltac:(apply Hnot; lia) ltac:(apply Hnot; lia)). lia.
  - rewrite <- (Z.lnot_involutive (Z.lxor a b)), Z.lnot_lxor_l.
    pose proof (lxor_bound_nonneg (Z.lnot a) b n Hn ltac:(apply Hnot; lia) ltac:(lia)).
    generalize dependent (Z.lxor (Z.lnot a) b). intros z Hz. unfold Z.lnot. lia.
  - rewrite <- (Z.lnot_involutive (Z.lxor a b)), Z.lnot_lxor_r.
    pose proof (lxor_bound_nonneg a (Z.lnot b) n Hn ltac:(lia) ltac:(apply Hnot; lia)).
    generalize dependent (Z.lxor a (Z.lnot b)). intros z Hz. unfold Z.lnot. lia.
  - pose proof (lxor_bound_nonneg a b n Hn ltac:(lia) ltac:(lia)). lia.
Qed.

Lemma xor32_range (a b : Z) : - 2 ^ 31 ≤ Colors.xor32 a b < 2 ^ 31.
Proof.
  unfold Colors.xor32. apply lxor_bound_signed; [lia|apply toInt32_range..].
Qed.

Lemma hash_ranges (name : string) :
  0 ≤ Colors.defaultHash name
  ∧ 0 ≤ Colors.djb2Hash name ≤ 2 ^ 31
  ∧ 0 ≤ Colors.fnv1aHash name < 2 ^ 32.
Proof.
  split_and!.
  - apply Z.abs_nonneg.
  - apply Z.abs_nonneg.
  - unfold Colors.djb2Hash.
    assert (- 2 ^ 31 ≤ foldl (λ hash c, Colors.xor32 (Colors.shl5 hash + hash) c) 5381
                         (Colors.charCodes name) < 2 ^ 31); [|lia].
    generalize (Colors.charCodes name). intros l.
    induction l as [|c l IH] using rev_ind; [simpl; lia|].
    rewrite foldl_app. apply xor32_range.
  - unfold Colors.fnv1aHash. generalize (Colors.charCodes name). intros l.
    induction l as [|c l IH] using rev_ind; [simpl; lia|].
    rewrite foldl_app. simpl. apply Z.mod_pos_bound. lia.
  - unfold Colors.fnv1aHash. generalize (Colors.charCodes name). intros l.
    induction l as [|c l IH] using rev_ind; [simpl; lia|].
    rewrite foldl_app. simpl. apply Z.mod_pos_bound. lia.
Qed.

Lemma paletteOf_nonempty (key : string) : Colors.paletteOf key ≠ [].
Proof.
  unfold Colors.paletteOf, Colors.mixedPalettes, Colors.colorPalettes.
  repeat (destruct (String.eqb _ _); [done|]). done.
Qed.

(** X25: under every palette key and for every name, [getColor]
    returns a colour: the override of the name, or a colour of the palette
    in force (the hash is never negative, so the index is in range). *)
Theorem getColor_defined (key name : string) :
  ∃ c, Colors.getColor key name = Some c
       ∧ (Colors.colorOverrides name = Some c ∨ c ∈ Colors.paletteOf key).
Proof.
  unfold Colors.getColor. destruct (Colors.colorOverrides name) as [c|] eqn:Ho.
  { exists c. split; [done|]. by left. }
  pose proof (paletteOf_nonempty key) as Hne. pose proof (hash_ranges name) as Hh.
  unfold Colors.paletteOf in *.
  destruct (Colors.mixedPalettes key) as [[palette method]|].
  - destruct method;
      (edestruct (pick_defined palette) as (c & Hc & Hin); [done| |exists c; split; [exact Hc | by right]]);
      lia.
  - edestruct (pick_defined (default Colors.colors (Colors.colorPalettes key)))
      as (c & Hc & Hin); [done| |exists c; split; [exact Hc | by right]]. lia.
Qed.

(** ** Graph window and tolerance *)


(** X27: a larger tolerance never loses a point: if the test
    succeeds with a tolerance, it succeeds with every larger one. *)
Theorem pointInGeometry_tolerance_monotone (lon lat : Q) (geometry : jsref Geometry)
    (t1 t2 : Q) :
  (t1 <= t2)%Q →
  pointInGeometry lon lat geometry t1 = Ok true →
  pointInGeometry lon lat geometry t2 = Ok true.
Proof.
  intros Ht. unfold pointInGeometry. destruct geometry as [| |g]; [done..|].
  destruct (match g with
            | Polygon coordinates => pointInPolygon (lon, lat) (head coordinates)
            | MultiPolygon coordinates => anyOuterRingContains (lon, lat) coordinates
            | OtherGeometry _ => Ok false
            end) as [[]|]; [done| |done].
  rewrite !bind_Ok. destruct (Qlt_bool 0 t1) eqn:E1; [|done].
  apply Qlt_bool_iff in E1.
  assert (Qlt_bool 0 t2 = true) as -> by (apply Qlt_bool_iff; lra).
  destruct (distanceToGeometryEdge lon lat g) as [[d|]|]; [|done..].
  rewrite !bind_Ok. intros [= Hd]. f_equal. apply Qle_bool_iff in Hd. apply Qle_bool_iff. nra.
Qed.

(** ** The precompute pass, once *)

Lemma preload_loop_frame (years : list Z) (s s' : state) :
  for_of preloadStep years s = Ok s' →
  allPolities s' = allPolities s ∧ allCities s' = allCities s
  ∧ worldStats s' = worldStats s ∧ polityFoundingYears s' = polityFoundingYears s
  ∧ graphDataLoaded s' = graphDataLoaded s
  ∧ ∀ y, is_Some (graphData s' !! y) ↔ is_Some (graphData s !! y) ∨ y ∈ years.
Proof.
  revert s. induction years as [|y ys IH]; intros s.
  { simpl. intros [= <-]. split_and!; try done. intros y. rewrite elem_of_nil. tauto. }
  rewrite for_of_cons. destruct (preloadStep s y) as [s1|] eqn:Hstep; [|done].
  rewrite bind_Ok. intros Hs'. destruct (IH _ Hs') as (-> & -> & -> & -> & -> & Hdom).
  unfold preloadStep in Hstep.
  destruct (calculateMetricsFast s y _) as [m|]; [|done]. rewrite bind_Ok in Hstep.
  injection Hstep as <-. split_and!; try done.
  intros y'. rewrite Hdom. cbn [storeGraphData graphData]. rewrite elem_of_cons.
  destruct (decide (y' = y)) as [->|Hne].
  - rewrite lookup_insert_eq. split; [intros _; right; by left | eauto].
  - rewrite lookup_insert_ne by done. split; [intros [?|?]; auto | intros [?|[?|?]]; auto; done].
Qed.

Lemma elem_of_preloadYears (y : Z) :
  y ∈ preloadYears ↔ ∃ k, 0 ≤ k ≤ 114 ∧ y = -3700 + 50 * k.
Proof.
  unfold preloadYears. rewrite list_elem_of_fmap. split.
  - intros (k & -> & Hk%elem_of_seqZ). exists k. split; [lia|done].
  - intros (k & Hk & ->). exists k. split; [done|]. apply elem_of_seqZ. lia.
Qed.

(** X28: on a freshly loaded state the precompute pass returns,
    marks the cache as loaded, leaves polities, cities and the founding-year
    index untouched, caches exactly the years -3700, -3650, ..., 2000, and
    does nothing when run again. *)
Theorem preloadGraphData_once (colorOf : string → string) (polities : list polity)
    (cityFeatures : list city) (stats : list worldStat) :
  let st := loadAllData colorOf polities cityFeatures stats in
  ∃ st', preloadGraphData st = Ok st'
         ∧ graphDataLoaded st' = true
         ∧ allPolities st' = allPolities st ∧ allCities st' = allCities st
         ∧ polityFoundingYears st' = polityFoundingYears st
         ∧ (∀ y, is_Some (graphData st' !! y) ↔ ∃ k, 0 ≤ k ≤ 114 ∧ y = -3700 + 50 * k)
         ∧ preloadGraphData st' = Ok st'.
Proof.
  intros st. unfold preloadGraphData at 1. cbn [graphDataLoaded st loadAllData].
  destruct (preload_loop preloadYears st (loadAllData_citiesReady _ _ _ _)) as (s' & Hs' & _).
  rewrite Hs', bind_Ok. destruct (preload_loop_frame _ _ _ Hs') as (H1 & H2 & H3 & H4 & H5 & Hdom).
  eexists. split; [reflexivity|]. cbn [graphDataLoaded allPolities allCities polityFoundingYears graphData].
  split_and!; try done.
  intros y. rewrite Hdom, elem_of_preloadYears. cbn [st loadAllData graphData].
  rewrite lookup_empty. split; [intros [[? ?]|?]; done | by right].
Qed.

(** ** Display names *)

Lemma append_nil (s : string) : "" +:+ s = s.
Proof. reflexivity. Qed.

Lemma append_cons (a : ascii) (s1 s2 : string) : String a s1 +:+ s2 = String a (s1 +:+ s2).
Proof. reflexivity. Qed.

Lemma append_assoc (s1 s2 s3 : string) : (s1 +:+ s2) +:+ s3 = s1 +:+ (s2 +:+ s3).
Proof. induction s1 as [|a s1 IH]; [done|]. by rewrite !append_cons, IH. Qed.

Lemma occurs_append (c : ascii) (s1 s2 : string) :
  occurs c (s1 +:+ s2) = occurs c s1 || occurs c s2.
Proof.
  induction s1 as [|a s1 IH]; [done|]. rewrite append_cons. cbn [occurs].
  by rewrite IH, orb_assoc.
Qed.

Lemma split_no_separator (c : ascii) (s : string) : occurs c s = false → split c s = [s].
Proof.
  induction s as [|a s IH]; [done|]. cbn [occurs split].
  intros [Ha Hs]%orb_false_iff. rewrite Ha, (IH Hs). done.
Qed.

Lemma split_at_separator (c : ascii) (s1 s2 : string) :
  occurs c s1 = false → split c (s1 +:+ String c s2) = s1 :: split c s2.
Proof.
  induction s1 as [|a s1 IH].
  - intros _. rewrite append_nil. cbn [split]. by rewrite Ascii.eqb_refl.
  - cbn [occurs]. intros [Ha Hs]%orb_false_iff. rewrite append_cons. cbn [split].
    rewrite Ha, (IH Hs). done.
Qed.

Lemma nonempty_closing (s : string) : String.eqb (s +:+ ")") EmptyString = false.
Proof. destruct s; by rewrite ?append_nil, ?append_cons. Qed.

Lemma trimEnd_closing (s : string) : trimEnd (s +:+ ")") = s +:+ ")".
Proof.
  induction s as [|a s IH]; [done|]. rewrite append_cons. cbn [trimEnd]. rewrite IH.
  by rewrite nonempty_closing, andb_false_r.
Qed.

Lemma dropTrailing_closing (s : string) : dropTrailing ")" (s +:+ ")") = s.
Proof.
  induction s as [|a s IH]; [done|]. rewrite append_cons. cbn [dropTrailing]. rewrite IH.
  destruct s; [done|]. by rewrite append_cons.
Qed.

Lemma trim_wrapped (P : string) : trim ("(" +:+ P +:+ ")") = "(" +:+ P +:+ ")".
Proof.
  unfold trim. rewrite append_cons, append_nil. cbn [trimStart]. 
  change (isSpace "(") with false. cbn [trimEnd].
  by rewrite trimEnd_closing, nonempty_closing, andb_false_r.
Qed.

Lemma cleanParent_wrapped (P : string) : stripParens (trim ("(" +:+ P +:+ ")")) = P.
Proof.
  rewrite trim_wrapped, append_cons, append_nil. unfold stripParens.
  change (Ascii.eqb "(" "(") with true. cbv iota. apply dropTrailing_closing.
Qed.

Lemma trim_wrapped_nonempty (P : string) :
  negb (String.eqb (trim ("(" +:+ P +:+ ")")) EmptyString) = true.
Proof. rewrite trim_wrapped. by rewrite append_cons. Qed.

(** X29: the display name of a polity: the name alone when
    [MemberOf] is empty or names only the polity itself in parentheses; when
    the self-reference is followed by another parent, the name with that
    parent in parentheses. *)
Theorem displayName_skips_self_reference (p : polity) (parent : string) :
  occurs ";" (Name p) = false → occurs ";" parent = false →
  (MemberOf p = "" → getPolityDisplayName p = Name p)
  ∧ (MemberOf p = "(" +:+ Name p +:+ ")" → getPolityDisplayName p = Name p)
  ∧ (MemberOf p = "(" +:+ Name p +:+ ");(" +:+ parent +:+ ")" → parent ≠ Name p →
       getPolityDisplayName p = Name p +:+ " (" +:+ parent +:+ ")").
Proof.
  intros Hn Hp. unfold getPolityDisplayName.
  assert (∀ s, occurs ";" s = false → occurs ";" ("(" +:+ s +:+ ")") = false) as Hw.
  { intros s Hs. by rewrite !occurs_append, Hs. }
  split_and!.
  - intros ->. reflexivity.
  - intros ->. rewrite split_no_separator by (by apply Hw).
    cbn [List.filter]. rewrite trim_wrapped_nonempty. cbn [firstForeignParent].
    by rewrite cleanParent_wrapped, String.eqb_refl.
  - intros -> Hne.
    assert ("(" +:+ Name p +:+ ");(" +:+ parent +:+ ")"
            = ("(" +:+ Name p +:+ ")") +:+ String ";" ("(" +:+ parent +:+ ")")) as ->.
    { by rewrite !append_assoc. }
    rewrite split_at_separator by (by apply Hw).
    rewrite split_no_separator by (by apply Hw).
    cbn [List.filter]. rewrite !trim_wrapped_nonempty. cbn [firstForeignParent].
    rewrite !cleanParent_wrapped, String.eqb_refl.
    by destruct (String.eqb_spec parent (Name p)).
Qed.

(** ** Further worked examples *)

Lemma settlementPops_keys (k : Z) : is_Some (settlementPops !! k) → k = -100 ∨ k = 200.
Proof.
  intros [v Hk]. unfold settlementPops in Hk.
  destruct (decide (k = -100)) as [->|Hne1]; [by left|].
  destruct (decide (k = 200)) as [->|Hne2]; [by right|].
  rewrite !lookup_insert_ne in Hk by done. by rewrite lookup_empty in Hk.
Qed.

Lemma resolver_source_attested_settlement :
  match getPopulationForYear settlement 50 with
  | Ok (Some d) =>
      is_Some (settlementPops !! srcYear d)
      ∧ (status d = recorded ↔ srcYear d = 50)
      ∧ (status d = prehistoric ↔ 50 < srcYear d)
      ∧ gap d = (if decide (srcYear d = 50) then None else Some (Z.abs (50 - srcYear d)))
  | _ => False
  end.
Proof.
  destruct (getPopulationForYear settlement 50) as [[d|]|] eqn:Hd.
  - apply (resolver_source_attested settlement settlementPops 50 d); [reflexivity | exact Hd].
  - vm_compute in Hd. discriminate.
  - vm_compute in Hd. discriminate.
Defined.

Lemma resolver_prehistoric_settlement :
  getPopulationForYear settlement (-200) =
    Ok (Some {| pop := Z.max 500 (5000 / 2); srcYear := -100; status := prehistoric;
                gap := Some (-100 - -200) |}).
Proof.
  apply (resolver_prehistoric settlement settlementPops (-200) (-100) 5000).
  - reflexivity.
  - simpl. lia.
  - vm_compute. reflexivity.
  - lia.
  - intros k Hk. destruct (settlementPops_keys k Hk); lia.
Defined.

Lemma resolver_decay_bounds_settlement :
  ∃ p, getPopulationForYear settlement 1000 =
         Ok (Some {| pop := p; srcYear := 200; status := projected;
                     gap := Some (1000 - 200) |})
       ∧ 1000 ≤ p ≤ Z.max 1000 20000.
Proof.
  apply (resolver_decay_bounds settlement settlementPops 1000 200 20000).
  - reflexivity.
  - vm_compute. reflexivity.
  - simpl. lia.
  - vm_compute. reflexivity.
  - intros k Hk _. destruct (settlementPops_keys k Hk); lia.
  - lia.
  - lia.
Defined.

Lemma resolver_decay_antitone_settlement :
  match getPopulationForYear settlement 800, getPopulationForYear settlement 1000 with
  | Ok (Some d), Ok (Some d') => srcYear d = 200 ∧ srcYear d' = 200 ∧ pop d' ≤ pop d
  | _, _ => False
  end.
Proof.
  destruct (getPopulationForYear settlement 800) as [[d|]|] eqn:Hd;
    [|vm_compute in Hd; discriminate..].
  destruct (getPopulationForYear settlement 1000) as [[d'|]|] eqn:Hd';
    [|vm_compute in Hd'; discriminate..].
  apply (resolver_decay_antitone settlement settlementPops 800 1000 200 20000 d d').
  - reflexivity.
  - simpl. lia.
  - vm_compute. reflexivity.
  - lia.
  - lia.
  - lia.
  - intros k Hk _. destruct (settlementPops_keys k Hk); lia.
  - exact Hd.
  - exact Hd'.
Defined.

Lemma sampleStats_cases (s : worldStat) :
  s ∈ sampleStats → s = sample0 ∨ s = sample1000 ∨ s = sample2000.
Proof.
  intros Hs. unfold sampleStats in Hs.
  apply elem_of_cons in Hs as [->|Hs]; [by left|].
  apply elem_of_cons in Hs as [->|Hs]; [by right; left|].
  apply list_elem_of_singleton in Hs as ->. by do 2 right.
Qed.

Lemma worldStats_clamped_samples :
  getWorldStatsForYear sampleStats (-500) = Some sample0
  ∧ getWorldStatsForYear sampleStats 2500 = Some sample2000.
Proof.
  split.
  - apply (proj1 (worldStats_clamped sampleStats (-500))).
    intros s Hs. destruct (sampleStats_cases s Hs) as [-> | [-> | ->]]; simpl; lia.
  - apply (proj2 (worldStats_clamped sampleStats 2500)).
    intros s Hs. destruct (sampleStats_cases s Hs) as [-> | [-> | ->]]; simpl; lia.
Defined.

Lemma worldStats_exact_sample_1000 :
  getWorldStatsForYear sampleStats (ws_year sample1000) = Some sample1000.
Proof.
  apply (worldStats_exact_sample sampleStats sample1000).
  - repeat constructor; simpl; lia.
  - right. left.
Defined.

Lemma scenarioD_cases (p : polity) :
  p ∈ allPolities scenarioD → p = kingdomX 153 200 ∨ p = earlierRealm ∨ p = kingdomX 100 150.
Proof.
  intros Hp. cbn [scenarioD loadAllData allPolities] in Hp.
  apply elem_of_cons in Hp as [->|Hp]; [by left|].
  apply elem_of_cons in Hp as [->|Hp]; [by right; left|].
  apply list_elem_of_singleton in Hp as ->. by do 2 right.
Qed.

Lemma getPolityAtPoint_scenarioD :
  getPolityAtPoint scenarioD 1 1 120
  = Ok (head (List.filter (holdsPoint 1 1) (visiblePolities (allPolities scenarioD) 120))).
Proof.
  apply (getPolityAtPoint_first_visible scenarioD 1 1 120).
  intros p [Hp _]%visiblePolities_spec. exists true.
  destruct (scenarioD_cases p Hp) as [-> | [-> | ->]]; vm_compute; reflexivity.
Defined.

Lemma scenarioD_history_eq : getLocationHistory scenarioD 1 1 = Ok scenarioD_history.
Proof. vm_compute. reflexivity. Qed.

Lemma history_oldest_first_scenarioD : StronglySorted (keyLe h_fromYear) scenarioD_history.
Proof. apply (history_oldest_first scenarioD 1 1 scenarioD_history scenarioD_history_eq). Defined.

Lemma history_adjacent_entries_apart_scenarioD :
  h_name (entryOf plainColor earlierRealm) ≠ "Kingdom X"
  ∨ h_toYear (entryOf plainColor earlierRealm) + 5 < 100.
Proof.
  apply (history_adjacent_entries_apart scenarioD 1 1 scenarioD_history 0
           (entryOf plainColor earlierRealm)
           (widen (entryOf plainColor (kingdomX 100 150))
                  (entryOf plainColor (kingdomX 153 200)))
           scenarioD_history_eq); reflexivity.
Defined.

Lemma history_covers_scenarioD :
  ∃ e, e ∈ scenarioD_history ∧ h_name e = "Kingdom X"
       ∧ h_fromYear e ≤ 153 ∧ 200 ≤ h_toYear e.
Proof.
  apply (history_covers_every_fragment scenarioD 1 1 scenarioD_history (kingdomX 153 200)
           scenarioD_history_eq).
  - cbn [scenarioD loadAllData allPolities]. left.
  - vm_compute. reflexivity.
Defined.

Lemma history_entries_backed_scenarioD :
  ∃ p q, p ∈ allPolities scenarioD ∧ q ∈ allPolities scenarioD
         ∧ containsPoint 1 1 p = true ∧ containsPoint 1 1 q = true
         ∧ Name q = Name p
         ∧ "Kingdom X" = Name p ∧ kingdomX 100 150 = p ∧ Some 5000 = Area p
         ∧ 100 = FromYear p
         ∧ Z.max 150 200 = Z.max (ToYear p) (ToYear q).
Proof.
  apply (history_entries_backed scenarioD 1 1 scenarioD_history
           (widen (entryOf plainColor (kingdomX 100 150))
                  (entryOf plainColor (kingdomX 153 200)))
           scenarioD_history_eq).
  right. left.
Defined.

Lemma polityAtPoint_in_history_scenarioD :
  ∃ e, e ∈ scenarioD_history ∧ h_name e = "Kingdom X" ∧ h_fromYear e ≤ 120 ≤ h_toYear e.
Proof.
  apply (polityAtPoint_in_history scenarioD 1 1 120 (kingdomX 100 150) scenarioD_history).
  - vm_compute. reflexivity.
  - reflexivity.
  - exact scenarioD_history_eq.
Defined.

Lemma civilizations_twoFragments :
  match calculateMetricsFast (loadAllData plainColor twoFragments [] []) 50 twoFragments with
  | Ok m => civilizations (totals m) = civCount twoFragments
  | Throw _ => False
  end.
Proof.
  destruct (calculateMetricsFast _ 50 twoFragments) as [m|] eqn:Hm.
  - apply (civilizations_is_distinct_names _ 50 twoFragments m Hm).
  - vm_compute in Hm. discriminate.
Defined.

Lemma civs_entry_twoFragments :
  match calculateMetricsFast (loadAllData plainColor twoFragments [] []) 50 twoFragments with
  | Ok m =>
      match civs m !! "Rome" with
      | Some c =>
          area c = reduce_sum (λ p, default 0 (Area p))
                     (List.filter (λ p, String.eqb (Name p) "Rome") twoFragments)
          ∧ color c = plainColor "Rome"
      | None => ∀ p, p ∈ twoFragments → Name p ≠ "Rome"
      end
  | Throw _ => False
  end.
Proof.
  destruct (calculateMetricsFast _ 50 twoFragments) as [m|] eqn:Hm.
  - apply (civs_entry_sums_fragments _ 50 twoFragments m "Rome" Hm).
  - vm_compute in Hm. discriminate.
Defined.

Lemma largestEmpire_twoFragments :
  match calculateMetricsFast (loadAllData plainColor twoFragments [] []) 50 twoFragments with
  | Ok m =>
      (∀ name c, civs m !! name = Some c → area c ≤ largestEmpire (totals m))
      ∧ (twoFragments ≠ [] →
         ∃ name c, civs m !! name = Some c ∧ area c = largestEmpire (totals m))
      ∧ (twoFragments = [] → largestEmpire (totals m) = 0)
      ∧ ((∀ p, p ∈ twoFragments → 0 ≤ default 0 (Area p)) →
         largestEmpire (totals m) ≤ landArea (totals m))
  | Throw _ => False
  end.
Proof.
  destruct (calculateMetricsFast _ 50 twoFragments) as [m|] eqn:Hm.
  - apply (largestEmpire_is_maximum _ 50 twoFragments m Hm).
  - vm_compute in Hm. discriminate.
Defined.

Lemma twoFragments_cases (p : polity) :
  p ∈ twoFragments → p = fragment "Rome" (-500) (-100) 1000 ∨ p = fragment "Rome" 0 100 3000.
Proof.
  intros Hp. unfold twoFragments in Hp.
  apply elem_of_cons in Hp as [->|Hp]; [by left|].
  apply list_elem_of_singleton in Hp as ->. by right.
Qed.

Lemma avgAge_twoFragments :
  match calculateMetricsFast (loadAllData plainColor twoFragments [] []) 50 twoFragments with
  | Ok m => (inject_Z (50 - 0) <= avgAge (totals m) <= inject_Z (50 - -500))%Q
  | Throw _ => False
  end.
Proof.
  destruct (calculateMetricsFast _ 50 twoFragments) as [m|] eqn:Hm.
  - apply (avgAge_within_range (loadAllData plainColor twoFragments [] []) 50 (-500) 0
             twoFragments m); [done| |exact Hm].
    intros p Hp. destruct (twoFragments_cases p Hp) as [-> | ->]; simpl; lia.
  - vm_compute in Hm. discriminate.
Defined.

Lemma polityAge_twoFragments :
  0 ≤ 50 - 0 ≤ polityAge (loadAllData plainColor twoFragments [] [])
                  (fragment "Rome" 0 100 3000) 50
  ∧ ∀ q, q ∈ twoFragments → Name q = "Rome" → isParenthetical "Rome" = false →
         polityAge (loadAllData plainColor twoFragments [] []) q 50
         = polityAge (loadAllData plainColor twoFragments [] []) (fragment "Rome" 0 100 3000) 50.
Proof.
  apply (polityAge_by_founding_year plainColor twoFragments [] []
           (fragment "Rome" 0 100 3000) 50).
  - right. left.
  - simpl. lia.
Defined.

Lemma getCitiesInPolity_kingdom :
  match getCitiesInPolity kingdomWithCities (kingdomX 100 150) 120 with
  | Ok l =>
      StronglySorted (λ a b, ci_pop b ≤ ci_pop a) l
      ∧ ∀ ci, ci ∈ l →
          ∃ c, c ∈ allCities kingdomWithCities
               ∧ cityInPolity (kingdomX 100 150) 120 c = true ∧ listedAs 120 c ci
  | Throw _ => False
  end.
Proof.
  destruct (getCitiesInPolity kingdomWithCities (kingdomX 100 150) 120) as [l|] eqn:Hl.
  - apply (getCitiesInPolity_sorted kingdomWithCities (kingdomX 100 150) 120 l Hl).
  - vm_compute in Hl. discriminate.
Defined.

Lemma bboxOverlap_shared_corner :
  bboxOverlap (getBoundingBox (Nested [Position 0 0; Position 4 4]))
              (getBoundingBox (Nested [Nested [Position 4 4; Position 9 9]])) = true
  ∧ bboxOverlap (getBoundingBox (Nested [Nested [Position 4 4; Position 9 9]]))
                (getBoundingBox (Nested [Position 0 0; Position 4 4])) = true.
Proof.
  apply (bboxOverlap_no_false_negative (Nested [Position 0 0; Position 4 4])
           (Nested [Nested [Position 4 4; Position 9 9]]) (4, 4)%Q).
  - cbn [positions map concat app]. right. left.
  - cbn [positions map concat app]. left.
Defined.


Lemma tolerance_near_square : pointInGeometry (41 # 10) 2 (js_obj square) 1 = Ok true.
Proof.
  apply (pointInGeometry_tolerance_monotone (41 # 10) 2 (js_obj square)
           CITY_TERRITORY_TOLERANCE 1).
  - unfold Qle. simpl. lia.
  - vm_compute. reflexivity.
Defined.

Lemma displayName_franks :
  getPolityDisplayName franks = "Kingdom of the Franks (Merovingian Empire)".
Proof.
  destruct (displayName_skips_self_reference franks "Merovingian Empire")
    as (_ & _ & Hparent); [reflexivity..|].
  apply Hparent; [reflexivity | discriminate].
Defined.
